(** * OTUS-Calculator: the expression pipeline of [equation.cpp]

    A shallow embedding of the calculator core: the tokenizer [getTokens],
    the shunting-yard compiler [RPN_Builder], the stack evaluator and the
    entry point [calc::calculate], followed by the properties of the
    specification that concern them.

    Conventions of the embedding.
    - [double] is the kernel's binary64 type [float]; [+ - * /], unary minus
      and [sqrt] are its IEEE operations.
    - A [const char*] is an [option string]: [None] is the null pointer, and
      the characters of [Some s] are read up to the first NUL.
    - A C++ exception is the outcome [Throw msg] ([msg] is [e.what()]);
      undefined behaviour is the outcome [Undef].
    - The C library functions [isspace], [isdigit] and [strtod] are given for
      the "C" locale; [pow] is a parameter of the evaluator. *)

From Stdlib Require Import String Ascii List ZArith NArith Bool Arith Lia.
From Stdlib Require Import PrimFloat SpecFloat FloatOps.
Import ListNotations.

Local Open Scope string_scope.
Local Open Scope list_scope.

(* ================================================================== *)
(** * The C library, "C" locale *)
(* ================================================================== *)

Module Libc.

(** [isspace]: space, and the controls [\t \n \v \f \r].  A byte above
    127 is neither a space nor a digit in this locale. *)
Definition isspace (c : ascii) : bool :=
  let n := nat_of_ascii c in
  (n =? 32)%nat || ((9 <=? n)%nat && (n <=? 13)%nat).

(** [isdigit]: ['0'] to ['9']. *)
Definition isdigit (c : ascii) : bool :=
  let n := nat_of_ascii c in (48 <=? n)%nat && (n <=? 57)%nat.

Definition isalpha (c : ascii) : bool :=
  let n := nat_of_ascii c in
  ((65 <=? n)%nat && (n <=? 90)%nat) || ((97 <=? n)%nat && (n <=? 122)%nat).

Definition isxdigit (c : ascii) : bool :=
  let n := nat_of_ascii c in
  isdigit c || ((65 <=? n)%nat && (n <=? 70)%nat)
            || ((97 <=? n)%nat && (n <=? 102)%nat).

Definition tolower (c : ascii) : ascii :=
  let n := nat_of_ascii c in
  if (65 <=? n)%nat && (n <=? 90)%nat then ascii_of_nat (n + 32) else c.

(** The value of one (hexa)decimal digit. *)
Definition digit_value (c : ascii) : Z :=
  let n := Z.of_nat (nat_of_ascii (tolower c)) in
  if isdigit c then (n - 48)%Z else (n - 87)%Z.

(** The longest prefix of [s] whose characters satisfy [p], and what follows. *)
Fixpoint span (p : ascii -> bool) (s : string) : list ascii * string :=
  match s with
  | String c r =>
      if p c then let (ds, r') := span p r in (c :: ds, r') else ([], s)
  | EmptyString => ([], s)
  end.

Definition number_of (base : Z) (ds : list ascii) : Z :=
  fold_left (fun acc d => (acc * base + digit_value d)%Z) ds 0%Z.

(** An optional sign: is it negative, how many characters, what follows. *)
Definition sign_of (s : string) : bool * nat * string :=
  match s with
  | String "-" r => (true, 1, r)
  | String "+" r => (false, 1, r)
  | _ => (false, 0, s)
  end.

(** The exponent part, introduced by [mark] (['e'] or ['p'], either case):
    its value and length, both 0 when no digit follows the mark. *)
Definition exponent_part (mark : ascii) (s : string) : Z * nat :=
  match s with
  | String c r =>
      if Ascii.eqb (tolower c) mark then
        let '(neg, ns, r1) := sign_of r in
        let (ds, _) := span isdigit r1 in
        match ds with
        | [] => (0%Z, 0)
        | _ => ((if neg then - number_of 10 ds else number_of 10 ds)%Z,
                1 + ns + length ds)
        end
      else (0%Z, 0)
  | EmptyString => (0%Z, 0)
  end.

(** The digits of a mantissa in the given digit class: integer digits, an
    optional point, fraction digits.  [None] when there is no digit at all. *)
Definition mantissa_part (p : ascii -> bool) (s : string)
  : option (list ascii * list ascii * nat * string) :=
  let (ip, r1) := span p s in
  let '(fp, pt, r2) :=
    match r1 with
    | String "." r => let (fp, r2) := span p r in (fp, 1, r2)
    | _ => ([], 0, r1)
    end in
  match ip ++ fp with
  | [] => None
  | _ => Some (ip, fp, length ip + pt + length fp, r2)
  end.

(** [m * 2^e] rounded to the nearest binary64 value, ties to even. *)
Definition round_binary (m e : Z) : float :=
  SF2Prim (binary_normalize prec emax m e false).

(** [m * 10^e] rounded to the nearest binary64 value, for [m > 0].  With a
    negative exponent the quotient is taken with 1080 bits after the binary
    point, below every rounding boundary of the format, and a sticky bit
    records a non-zero remainder. *)
Definition round_decimal (m e : Z) : float :=
  if (0 <=? e)%Z then round_binary (m * 10 ^ e) 0
  else
    let d := (10 ^ (- e))%Z in
    let k := (Z.log2_up d + 1080)%Z in
    let (q, r) := Z.div_eucl (m * 2 ^ k) d in
    round_binary (2 * q + (if (r =? 0)%Z then 0 else 1)) (- k - 1).

Definition with_sign (neg : bool) (x : float) : float :=
  if neg then PrimFloat.opp x else x.

Definition decimal_subject (s : string) : option (float * nat) :=
  match mantissa_part isdigit s with
  | None => None
  | Some (ip, fp, n, r) =>
      let (e, ne) := exponent_part "e" r in
      let m := number_of 10 (ip ++ fp) in
      Some (if (m =? 0)%Z then zero
            else round_decimal m (e - Z.of_nat (length fp)), n + ne)
  end.

Definition hexadecimal_subject (s : string) : option (float * nat) :=
  match s with
  | String "0" (String x r) =>
      if Ascii.eqb (tolower x) "x" then
        match mantissa_part isxdigit r with
        | None => None
        | Some (ip, fp, n, r') =>
            let (e, ne) := exponent_part "p" r' in
            let m := number_of 16 (ip ++ fp) in
            Some (if (m =? 0)%Z then zero
                  else round_binary m (e - 4 * Z.of_nat (length fp)),
                  2 + n + ne)
        end
      else None
  | _ => None
  end.

(** Does [s] start with the lower-case word [w], letter case ignored? *)
Fixpoint starts_with (w s : string) : bool :=
  match w, s with
  | EmptyString, _ => true
  | String a w', String c s' => Ascii.eqb a (tolower c) && starts_with w' s'
  | String _ _, EmptyString => false
  end.

Fixpoint drop (n : nat) (s : string) : string :=
  match n, s with
  | S n', String _ r => drop n' r
  | _, _ => s
  end.

(** [nan], optionally followed by a parenthesised run of letters, digits and
    underscores. *)
Definition nan_subject (s : string) : option (float * nat) :=
  if starts_with "nan" s then
    match drop 3 s with
    | String "(" r =>
        let (cs, r') :=
          span (fun c => isdigit c || isalpha c || Ascii.eqb c "_") r in
        match r' with
        | String ")" _ => Some (nan, 3 + 1 + length cs + 1)
        | _ => Some (nan, 3)
        end
    | _ => Some (nan, 3)
    end
  else None.

Definition infinity_subject (s : string) : option (float * nat) :=
  if starts_with "infinity" s then Some (infinity, 8)
  else if starts_with "inf" s then Some (infinity, 3)
  else None.

Definition first_of {A} (a b : option A) : option A :=
  match a with Some _ => a | None => b end.

(** [strtod(str, &endptr)]: the converted value and [endptr - str].  White
    space is skipped, then a sign, then the longest of the subject forms.
    When nothing converts the value is 0 and [endptr = str]. *)
Definition strtod (str : string) : float * nat :=
  let (ws, s0) := span isspace str in
  let '(neg, ns, s) := sign_of s0 in
  match first_of (infinity_subject s)
         (first_of (nan_subject s)
           (first_of (hexadecimal_subject s) (decimal_subject s))) with
  | Some (x, n) => (with_sign neg x, length ws + ns + n)
  | None => (zero, 0)
  end.

End Libc.

Import Libc.

(* ================================================================== *)
(** * Outcomes of a C++ computation *)
(* ================================================================== *)

(** A computation yields a value, throws a [std::exception] whose [what()]
    is the given text, or has undefined behaviour. *)
Inductive res (A : Type) : Type :=
| Val (a : A)
| Throw (what : string)
| Undef.
Arguments Val {A} a.
Arguments Throw {A} what.
Arguments Undef {A}.

Definition bind {A B} (m : res A) (k : A -> res B) : res B :=
  match m with
  | Val a => k a
  | Throw w => Throw w
  | Undef => Undef
  end.

Notation "x <- m ;; k" := (bind m (fun x => k))
  (at level 61, m at next level, right associativity).
Notation "' p <- m ;; k" := (bind m (fun x => let 'p := x in k))
  (at level 61, p pattern, m at next level, right associativity).

(** [throw std::runtime_error("Incorrect expression")], used at every
    defensive branch of the source. *)
Definition incorrect_expression {A} : res A := Throw "Incorrect expression".

(* ================================================================== *)
(** * namespace calc: the postfix items *)
(* ================================================================== *)

Module Operation.
Inductive t : Set := un_min | add | sub | mul | div | pow | sqrt.
End Operation.

(** [using Value = std::variant<Operation, std::string, double>]. *)
Inductive Value : Set :=
| VOperation (op : Operation.t)
| VString (name : string)
| VDouble (d : float).

(** [struct Result] of equation.h. *)
Record Result : Set := mkResult { what : string; result : float; ok : bool }.

(* ================================================================== *)
(** * C strings *)
(* ================================================================== *)

Definition NUL : ascii := "000"%char.

(** The characters a [const char*] denotes: those before the first NUL. *)
Fixpoint c_str (s : string) : string :=
  match s with
  | String c r => if Ascii.eqb c NUL then EmptyString else String c (c_str r)
  | EmptyString => EmptyString
  end.

(** [*p] for a pointer into a C string: the terminator at its end. *)
Definition deref (p : string) : ascii :=
  match p with String c _ => c | EmptyString => NUL end.

Definition push_back (s : string) (c : ascii) : string := s ++ String c "".

Definition empty (s : string) : bool :=
  match s with EmptyString => true | _ => false end.

(* ================================================================== *)
(** * str_to_number and getTokens *)
(* ================================================================== *)

(** [bool str_to_number(const char* str, double& number)]: [number] is
    written only when the whole of [str] converts. *)
Definition str_to_number (str : string) (number : float) : bool * float :=
  let (temp_number, n) := strtod str in
  let endptr := drop n str in
  if negb (n =? 0)%nat && Ascii.eqb (deref endptr) NUL
  then (true, temp_number)
  else (false, number).

Definition Tokens : Set := list string.

Definition is_symbol_token (c : ascii) : bool :=
  match c with
  | "-" | "+" | "*" | "/" | "^" | "(" | ")" => true
  | _ => false
  end%char.

(** The loop that advances [c] past white space. *)
Fixpoint skip_spaces (c : string) : string :=
  match c with
  | String ch r => if isspace ch then skip_spaces r else c
  | EmptyString => c
  end.

(** The inner loop of [getTokens], which reads one token up to the end of
    the string.  [at_start] is the test [start_token_character == c], true
    in the first iteration only; the result is the token and the advanced
    pointer. *)
Fixpoint token_loop (at_start : bool) (c : string) (token : string)
  : string * string :=
  match c with
  | EmptyString => (token, c)
  | String ch r =>
      if at_start && is_symbol_token ch then
        (push_back token ch, r)
      else if at_start && (isdigit ch || Ascii.eqb ch ".") then
        let endptr_minus_c := snd (strtod c) in
        let token := substring 0 endptr_minus_c c in
        (token, drop (String.length token) c)
      else if isspace ch || is_symbol_token ch then
        (token, c)
      else
        token_loop false r (push_back token ch)
  end.

(** The outer loop of [getTokens], run until the end of the string.  An
    iteration need not advance [c] (see [tokens_loop_stuck]), so the loop is
    given fuel; [None] is a loop that has not ended within it. *)
Fixpoint tokens_loop (fuel : nat) (c : string) (tokens : Tokens)
  : option Tokens :=
  match c with
  | EmptyString => Some tokens
  | String _ _ =>
      match fuel with
      | O => None
      | S fuel' =>
          let (token, c') := token_loop true (skip_spaces c) "" in
          tokens_loop fuel' c'
            (if empty token then tokens else tokens ++ [token])
      end
  end.

(** [Tokens getTokens(const char* expression)].  One unit of fuel per
    character is enough whenever the loop ends at all
    ([tokens_loop_enough_fuel]), so [None] here is a loop that never ends. *)
Definition getTokens (expression : option string) : option Tokens :=
  match expression with
  | None => Some []
  | Some s => let c := c_str s in tokens_loop (String.length c) c []
  end.

(* ================================================================== *)
(** * RPN_Builder *)
(* ================================================================== *)

Module TokType.
Inductive t : Set :=
| number | var | open | close | un_min | add | sub | mul | div | pow | sqrt
| undefined.

Definition eqb (a b : t) : bool :=
  match a, b with
  | number, number | var, var | open, open | close, close
  | un_min, un_min | add, add | sub, sub | mul, mul | div, div
  | pow, pow | sqrt, sqrt | undefined, undefined => true
  | _, _ => false
  end.
End TokType.

(** The data members of the class.  The two [std::unordered_map]s are
    association lists in the order the constructor writes them, each key
    once; they are never written afterwards. *)
Record RPN_Builder : Set := mkBuilder {
  rp_notation_ : list Value;
  tokens_map_ : list (string * TokType.t);
  prev_curr_token_map_ : list (TokType.t * list TokType.t);
  what_happened_message_ : string
}.

(** [RPN_Builder::RPN_Builder()]. *)
Definition RPN_Builder_new : RPN_Builder :=
  let after_operand :=
    [TokType.add; TokType.sub; TokType.mul; TokType.div; TokType.pow;
     TokType.close] in
  let after_operation :=
    [TokType.number; TokType.var; TokType.open; TokType.sqrt] in
  let at_start :=
    [TokType.number; TokType.var; TokType.open; TokType.un_min;
     TokType.sqrt] in
  let op_list :=
    [TokType.un_min; TokType.add; TokType.sub; TokType.mul; TokType.div;
     TokType.pow] in
  {| rp_notation_ := [];
     tokens_map_ :=
       [("(", TokType.open); (")", TokType.close); ("+", TokType.add);
        ("-", TokType.sub); ("*", TokType.mul); ("/", TokType.div);
        ("^", TokType.pow); ("sqrt", TokType.sqrt)];
     prev_curr_token_map_ :=
       map (fun ttype => (ttype, after_operand))
           [TokType.number; TokType.var; TokType.close]
       ++ map (fun ttype => (ttype, after_operation)) op_list
       ++ map (fun ttype => (ttype, at_start))
              [TokType.undefined; TokType.open]
       ++ [(TokType.sqrt, [TokType.open])];
     what_happened_message_ := "" |}.

(** [tokens_map_.find(token)]. *)
Fixpoint find_token (m : list (string * TokType.t)) (token : string)
  : option TokType.t :=
  match m with
  | [] => None
  | (k, v) :: m' => if String.eqb k token then Some v else find_token m' token
  end.

(** [prev_curr_token_map_.at(ttype)], which throws [std::out_of_range] for a
    missing key, with a text of the library's.  The constructor leaves no
    key missing ([order_table_total]). *)
Fixpoint at_ttype (m : list (TokType.t * list TokType.t)) (ttype : TokType.t)
  : res (list TokType.t) :=
  match m with
  | [] => Throw "unordered_map::at"
  | (k, v) :: m' => if TokType.eqb k ttype then Val v else at_ttype m' ttype
  end.

(** [TokType to_token_type(const std::string& token, double& number)]: the
    kind, and [number] as the call leaves it. *)
Definition to_token_type (b : RPN_Builder) (token : string) (number : float)
  : TokType.t * float :=
  match find_token (tokens_map_ b) token with
  | Some ttype => (ttype, number)
  | None =>
      let (is_number, number) := str_to_number (c_str token) number in
      if is_number then (TokType.number, number) else (TokType.var, number)
  end.

Definition to_operation (ttype : TokType.t) : res Operation.t :=
  match ttype with
  | TokType.un_min => Val Operation.un_min
  | TokType.add => Val Operation.add
  | TokType.sub => Val Operation.sub
  | TokType.mul => Val Operation.mul
  | TokType.div => Val Operation.div
  | TokType.pow => Val Operation.pow
  | TokType.sqrt => Val Operation.sqrt
  | TokType.number | TokType.var | TokType.open | TokType.close
  | TokType.undefined => incorrect_expression
  end.

(** [uint32_t priority(TokType ttype)]. *)
Definition priority (ttype : TokType.t) : res N :=
  match ttype with
  | TokType.open | TokType.close => Val 0%N
  | TokType.add | TokType.sub => Val 1%N
  | TokType.mul | TokType.div => Val 2%N
  | TokType.pow => Val 3%N
  | TokType.un_min => Val 4%N
  | TokType.sqrt => Val 5%N
  | TokType.var | TokType.number | TokType.undefined => incorrect_expression
  end.

Definition is_correct_token_order (b : RPN_Builder)
  (prev_ttype curr_ttype : TokType.t) : res bool :=
  if TokType.eqb curr_ttype TokType.undefined then incorrect_expression
  else
    curr_ttype_set <- at_ttype (prev_curr_token_map_ b) prev_ttype ;;
    Val (existsb (TokType.eqb curr_ttype) curr_ttype_set).

(** The three functions that fill [what_happened_message_]; each returns the
    text it stores, and the caller returns [false]. *)
Definition extra_parentheses_happened (type : string) : string :=
  ("Found extra " ++ type ++ " parentheses.")%string.

Definition ttype_to_str (ttype : TokType.t) (token : string) : string :=
  match ttype with
  | TokType.number => ("number " ++ token)%string
  | TokType.var => ("variable " ++ token)%string
  | TokType.open => "open parenthesis"
  | TokType.close => "close parenthesis"
  | TokType.un_min => "unary minus '-'"
  | TokType.add => "addition sign '+'"
  | TokType.sub => "subtraction sign '-'"
  | TokType.mul => "multiplication sign '*'"
  | TokType.div => "division sign '/'"
  | TokType.pow => "power sign '^'"
  | TokType.sqrt => "sqrt function"
  | TokType.undefined => "undefined"
  end.

Definition newline : string := String "010"%char "".

Definition incorrect_token_order_happened
  (prev_ttype : TokType.t) (prev_token : string)
  (curr_ttype : TokType.t) (curr_token : string) : res string :=
  if TokType.eqb curr_ttype TokType.undefined then incorrect_expression
  else
    Val ("Incorrect order of operands and operations in the expression."
         ++ newline ++ "The " ++ ttype_to_str curr_ttype curr_token
         ++ " cannot be "
         ++ (if TokType.eqb prev_ttype TokType.undefined
             then "the first in an expression."
             else "after the " ++ ttype_to_str prev_ttype prev_token))%string.

Definition no_operands_found : string :=
  "Expression does not contain any operands.".

(** The locals of [operator()] that live across the loop over the tokens,
    with the output vector. *)
Record scan : Set := mkScan {
  rpn : list Value;
  prev_token : string;
  prev_ttype : TokType.t;
  operations : list TokType.t;   (* std::stack, top first *)
  operand_count : N
}.

(** How a part of [operator()] ends: it goes on with a state, or the call
    returns [false] with the output so far and a message. *)
Inductive flow (A : Type) : Type :=
| Go (a : A)
| ReturnFalse (out : list Value) (msg : string).
Arguments Go {A} a.
Arguments ReturnFalse {A} out msg.

(** [case TokType::close]: pop to the output until an open parenthesis is on
    top or the stack is empty. *)
Fixpoint pop_to_open (ops : list TokType.t) (out : list Value)
  : res (list TokType.t * list Value) :=
  match ops with
  | [] => Val (ops, out)
  | top :: ops' =>
      if TokType.eqb top TokType.open then Val (ops, out)
      else
        op <- to_operation top ;;
        pop_to_open ops' (out ++ [VOperation op])
  end.

(** The operator cases: pop to the output while [top_prior >= curr_prior],
    where [top_prior] is 0 for an empty stack.  Were the test to hold on an
    empty stack, the body would read [operations.top()] of it. *)
Fixpoint pop_higher (curr_prior : N) (ops : list TokType.t) (out : list Value)
  : res (list TokType.t * list Value) :=
  match ops with
  | [] => if (curr_prior <=? 0)%N then Undef else Val (ops, out)
  | top :: ops' =>
      top_prior <- priority top ;;
      if (curr_prior <=? top_prior)%N then
        op <- to_operation top ;;
        pop_higher curr_prior ops' (out ++ [VOperation op])
      else Val (ops, out)
  end.

(** The kind of the current token once a minus is told apart: the two
    statements of the loop body that follow [to_token_type]. *)
Definition minus_kind (prev_ttype curr_ttype : TokType.t) : TokType.t :=
  let maybe_un_min :=
    TokType.eqb prev_ttype TokType.undefined
    || TokType.eqb prev_ttype TokType.open in
  if maybe_un_min && TokType.eqb curr_ttype TokType.sub
  then TokType.un_min else curr_ttype.

(** The body of the loop over the tokens. *)
Definition scan_token (b : RPN_Builder) (st : scan) (token : string)
  : res (flow scan) :=
  let number := 0%float in
  let (curr_ttype, number) := to_token_type b token number in
  let curr_ttype := minus_kind (prev_ttype st) curr_ttype in
  correct <- is_correct_token_order b (prev_ttype st) curr_ttype ;;
  if negb correct then
    msg <- incorrect_token_order_happened
             (prev_ttype st) (prev_token st) curr_ttype token ;;
    Val (ReturnFalse (rpn st) msg)
  else
    let next out ops count :=
      Val (Go (mkScan out token curr_ttype ops count)) in
    match curr_ttype with
    | TokType.number =>
        next (rpn st ++ [VDouble number]) (operations st)
             (operand_count st + 1)%N
    | TokType.var =>
        next (rpn st ++ [VString token]) (operations st)
             (operand_count st + 1)%N
    | TokType.sqrt | TokType.open =>
        next (rpn st) (curr_ttype :: operations st) (operand_count st)
    | TokType.close =>
        '(ops, out) <- pop_to_open (operations st) (rpn st) ;;
        match ops with
        | [] => Val (ReturnFalse out (extra_parentheses_happened "close"))
        | _ :: ops' => next out ops' (operand_count st)
        end
    | TokType.add | TokType.sub | TokType.mul | TokType.div | TokType.pow
    | TokType.un_min =>
        curr_prior <- priority curr_ttype ;;
        '(ops, out) <- pop_higher curr_prior (operations st) (rpn st) ;;
        next out (curr_ttype :: ops) (operand_count st)
    | TokType.undefined => incorrect_expression
    end.

(** The loop over the tokens. *)
Fixpoint scan_tokens (b : RPN_Builder) (st : scan) (tokens : Tokens)
  : res (flow scan) :=
  match tokens with
  | [] => Val (Go st)
  | token :: tokens' =>
      r <- scan_token b st token ;;
      match r with
      | Go st' => scan_tokens b st' tokens'
      | ReturnFalse out msg => Val (ReturnFalse out msg)
      end
  end.

(** The last loop of [operator()]: empty the operator stack to the output.
    It goes on with the stack and the output as the loop leaves them. *)
Fixpoint drain (ops : list TokType.t) (out : list Value)
  : res (flow (list TokType.t * list Value)) :=
  match ops with
  | [] => Val (Go (ops, out))
  | top :: ops' =>
      if TokType.eqb top TokType.open
      then Val (ReturnFalse out (extra_parentheses_happened "open"))
      else
        op <- to_operation top ;;
        drain ops' (out ++ [VOperation op])
  end.

Definition scan_start : scan :=
  mkScan [] "" TokType.undefined [] 0%N.

(** What follows the loop over the tokens. *)
Definition finish (st : scan) : res (flow (list TokType.t * list Value)) :=
  if (operand_count st =? 0)%N
  then Val (ReturnFalse (rpn st) no_operands_found)
  else drain (operations st) (rpn st).

(** [bool RPN_Builder::operator()(const Tokens& expression_tokens)]: the
    returned flag and the builder as the call leaves it.  The call starts by
    clearing [rp_notation_]; it writes the message only on failure. *)
Definition RPN_Builder_call (b : RPN_Builder) (expression_tokens : Tokens)
  : res (bool * RPN_Builder) :=
  let leave out msg :=
    mkBuilder out (tokens_map_ b) (prev_curr_token_map_ b) msg in
  r <- scan_tokens b scan_start expression_tokens ;;
  match r with
  | ReturnFalse out msg => Val (false, leave out msg)
  | Go st =>
      r' <- finish st ;;
      match r' with
      | ReturnFalse out msg => Val (false, leave out msg)
      | Go (_, out) => Val (true, leave out (what_happened_message_ b))
      end
  end.

Definition reverse_polish_notation (b : RPN_Builder) : list Value :=
  rp_notation_ b.

(** [const std::string& RPN_Builder::what() const]. *)
Definition RPN_Builder_what (b : RPN_Builder) : string :=
  what_happened_message_ b.

(* ================================================================== *)
(** * Calculator *)
(* ================================================================== *)

(** [binary_operation] calls [op(pop_value(stack), pop_value(stack))].  The
    two pops are the two arguments of one call, and C++ leaves the order in
    which the arguments of a call are evaluated unspecified (they are
    indeterminately sequenced); the embedding takes that order as a
    parameter, and a property of the program is one that holds for both. *)
Inductive ArgOrder : Set :=
| LeftToRight    (* the first argument is evaluated first *)
| RightToLeft.   (* the second argument is evaluated first *)

(** The evaluator's stack, top first. *)
Definition ValueStack : Set := list float.

Definition pop_value (stack : ValueStack) : res (float * ValueStack) :=
  match stack with
  | [] => incorrect_expression
  | value :: stack' => Val (value, stack')
  end.

Definition unary_operation (op : float -> res float) (stack : ValueStack)
  : res (float * ValueStack) :=
  '(a, stack) <- pop_value stack ;;
  r <- op a ;;
  Val (r, stack).

Section Calculator.

(** [pow] of <cmath>. *)
Variable pow : float -> float -> float.
Variable order : ArgOrder.

Definition binary_operation (op : float -> float -> res float)
  (stack : ValueStack) : res (float * ValueStack) :=
  match order with
  | LeftToRight =>
      '(a, stack) <- pop_value stack ;;
      '(b, stack) <- pop_value stack ;;
      r <- op a b ;;
      Val (r, stack)
  | RightToLeft =>
      '(b, stack) <- pop_value stack ;;
      '(a, stack) <- pop_value stack ;;
      r <- op a b ;;
      Val (r, stack)
  end.

(** The lambda of [case calc::Operation::div]. *)
Definition div_lambda (a b : float) : res float :=
  if PrimFloat.eqb b 0%float
  then Throw "Divizion on zero is not defined"
  else Val (a / b)%float.

(** [double calculate(calc::Operation op, std::stack<double>& stack)]: the
    returned value and the stack as the call leaves it. *)
Definition calculate (op : Operation.t) (stack : ValueStack)
  : res (float * ValueStack) :=
  match op with
  | Operation.add =>
      binary_operation (fun a b => Val (a + b)%float) stack
  | Operation.sub =>
      binary_operation (fun a b => Val (a - b)%float) stack
  | Operation.mul =>
      binary_operation (fun a b => Val (a * b)%float) stack
  | Operation.div => binary_operation div_lambda stack
  | Operation.pow => binary_operation (fun a b => Val (pow a b)) stack
  | Operation.un_min => unary_operation (fun a => Val (- a)%float) stack
  | Operation.sqrt => unary_operation (fun a => Val (PrimFloat.sqrt a)) stack
  end.

(** The visitor of [calc::calculate], applied to one item. *)
Definition visit (item : Value) (stack : ValueStack) : res ValueStack :=
  match item with
  | VOperation arg =>
      '(r, stack) <- calculate arg stack ;;
      Val (r :: stack)
  | VDouble arg => Val (arg :: stack)
  | VString _ => Val stack
  end.

(** The loop of [calc::calculate] over the postfix items. *)
Fixpoint visit_all (items : list Value) (stack : ValueStack)
  : res ValueStack :=
  match items with
  | [] => Val stack
  | item :: items' =>
      stack <- visit item stack ;;
      visit_all items' stack
  end.

(** [stack.top()], undefined on an empty stack. *)
Definition top (stack : ValueStack) : res float :=
  match stack with
  | [] => Undef
  | value :: _ => Val value
  end.

(** The [try] block of [calc::calculate]. *)
Definition try_block (tokens : Tokens) : res Result :=
  '(built, builder) <- RPN_Builder_call RPN_Builder_new tokens ;;
  if negb built then Val (mkResult "Incorrect expression" 0 false)
  else
    stack <- visit_all (reverse_polish_notation builder) [] ;;
    value <- top stack ;;
    Val (mkResult "" value true).

(** What a call of [calc::calculate] does. *)
Inductive outcome : Set :=
| Returns (r : Result)
| UndefinedBehaviour
| NeverReturns.

(** [Result calc::calculate(const char *equation)]. *)
Definition calc_calculate (equation : option string) : outcome :=
  match getTokens equation with
  | None => NeverReturns
  | Some tokens =>
      match try_block tokens with
      | Val r => Returns r
      | Throw e_what => Returns (mkResult e_what 0 false)
      | Undef => UndefinedBehaviour
      end
  end.

End Calculator.

(* ================================================================== *)
(** * A sample [pow] *)
(* ================================================================== *)

(** The evaluator is stated for every function [pow].  Closed instances of
    the theorems below take this one: the power by repeated product, for an
    exponent that is a natural number.  It is the exact power whenever every
    product is exact, as for the small integers of the examples. *)
Fixpoint pow_product (fuel : nat) (a b acc : float) : float :=
  match fuel with
  | O => nan
  | S fuel' =>
      if (b =? 0)%float then acc
      else if (b <? 1)%float then nan
      else pow_product fuel' a (b - 1)%float (acc * a)%float
  end.

Definition pow_natural (a b : float) : float := pow_product 1024 a b 1%float.

(* ================================================================== *)
(** * The compiled sequences of the examples *)
(* ================================================================== *)

(** The postfix sequence [operator()] leaves for an expression, when the
    tokenizer returns and the call returns [true]. *)
Definition compiled (expression : string) : option (list Value) :=
  match getTokens (Some expression) with
  | Some tokens =>
      match RPN_Builder_call RPN_Builder_new tokens with
      | Val (true, b) => Some (reverse_polish_notation b)
      | _ => None
      end
  | None => None
  end.

(** The message [what()] gives after [operator()] returned [false]. *)
Definition rejected (expression : string) : option string :=
  match getTokens (Some expression) with
  | Some tokens =>
      match RPN_Builder_call RPN_Builder_new tokens with
      | Val (false, b) => Some (RPN_Builder_what b)
      | _ => None
      end
  | None => None
  end.

Definition success (value : float) : Result := mkResult "" value true.
Definition failure (message : string) : Result := mkResult message 0 false.

(** [calc::calculate] on a string. *)
Definition run (pow : float -> float -> float) (order : ArgOrder)
  (expression : string) : outcome :=
  calc_calculate pow order (Some expression).

(** Every character is white space. *)
Fixpoint all_spaces (s : string) : bool :=
  match s with
  | String c r => isspace c && all_spaces r
  | EmptyString => true
  end.

(** A null pointer, or a C string that is empty or white space only. *)
Definition blank (equation : option string) : bool :=
  match equation with
  | None => true
  | Some s => all_spaces (c_str s)
  end.

(** A string that holds no NUL, as every [std::string] the tokenizer
    builds. *)
Fixpoint no_nul (s : string) : bool :=
  match s with
  | String c r => negb (Ascii.eqb c NUL) && no_nul r
  | EmptyString => true
  end.

(** A token of the tokenizer: not empty, and without NUL. *)
Definition raw_token (token : string) : Prop :=
  no_nul token = true /\ token <> "".

(** The whole of [token] is the text of a number: [strtod] converts
    something and stops at the end of the token. *)
Definition whole_number (token : string) : Prop :=
  snd (strtod token) = String.length token /\ token <> "".

(** The keys of [tokens_map_]. *)
Definition keywords : list string :=
  ["("; ")"; "+"; "-"; "*"; "/"; "^"; "sqrt"].

(** The kinds [operator()] pushes on its stack that are neither parenthesis:
    those [to_operation] converts. *)
Definition is_operator (ttype : TokType.t) : bool :=
  match ttype with
  | TokType.un_min | TokType.add | TokType.sub | TokType.mul | TokType.div
  | TokType.pow | TokType.sqrt => true
  | _ => false
  end.

(** What the operator stack of [operator()] holds: open parentheses and
    the kinds [to_operation] converts. *)
Definition stack_entry (ttype : TokType.t) : bool :=
  is_operator ttype || TokType.eqb ttype TokType.open.

(** ** Counting operands and operators

    The measures behind the shape of a compiled sequence: how many items
    push a number, how many operations take two operands, in the output and
    on the operator stack. *)

Definition is_binary (op : Operation.t) : bool :=
  match op with
  | Operation.add | Operation.sub | Operation.mul | Operation.div
  | Operation.pow => true
  | Operation.un_min | Operation.sqrt => false
  end.

Definition is_binary_kind (ttype : TokType.t) : bool :=
  match ttype with
  | TokType.add | TokType.sub | TokType.mul | TokType.div | TokType.pow =>
      true
  | _ => false
  end.

Definition is_push (item : Value) : bool :=
  match item with VDouble _ => true | _ => false end.

Definition is_binary_item (item : Value) : bool :=
  match item with VOperation op => is_binary op | _ => false end.

Definition is_name (item : Value) : bool :=
  match item with VString _ => true | _ => false end.

Definition pushes (items : list Value) : nat :=
  length (filter is_push items).

Definition binaries (items : list Value) : nat :=
  length (filter is_binary_item items).

Definition pending_binaries (ops : list TokType.t) : nat :=
  length (filter is_binary_kind ops).

(** The kinds after which an operator or a close parenthesis may come. *)
Definition after_operand (ttype : TokType.t) : bool :=
  match ttype with
  | TokType.number | TokType.var | TokType.close => true
  | _ => false
  end.

(** The kinds that may come only after an operand. *)
Definition follows_operand (ttype : TokType.t) : bool :=
  is_binary_kind ttype || TokType.eqb ttype TokType.close.

(** The state of the scan accounts for every number and every binary
    operator read so far, and no name has been emitted. *)
Definition balanced (st : scan) : Prop :=
  existsb is_name (rpn st) = false
  /\ pushes (rpn st)
     = (binaries (rpn st) + pending_binaries (operations st)
        + (if after_operand (prev_ttype st) then 1 else 0))%nat
  /\ operand_count st = N.of_nat (pushes (rpn st)).

(** What a pop loop may do to the stack and the output: move operators
    from the one to the other, and nothing else. *)
Definition moved (ops : list TokType.t) (out : list Value)
  (ops' : list TokType.t) (out' : list Value) : Prop :=
  existsb is_name out' = existsb is_name out
  /\ pushes out' = pushes out
  /\ (binaries out' + pending_binaries ops')%nat
     = (binaries out + pending_binaries ops)%nat.

(** A token the classifier does not take for a variable. *)
Definition not_variable (token : string) : Prop :=
  fst (to_token_type RPN_Builder_new token 0) <> TokType.var.

(** ** Measures of the tokenizer *)

(** No character is white space. *)
Fixpoint no_space (s : string) : bool :=
  match s with
  | String c r => negb (isspace c) && no_space r
  | EmptyString => true
  end.

(** The string without its white space. *)
Fixpoint without_spaces (s : string) : string :=
  match s with
  | String c r =>
      if isspace c then without_spaces r else String c (without_spaces r)
  | EmptyString => EmptyString
  end.

(** The tokens written one after the other. *)
Definition joined (tokens : Tokens) : string :=
  fold_right String.append "" tokens.

(** Does a digit start the string? *)
Definition digit_first (s : string) : bool :=
  match s with String d _ => isdigit d | EmptyString => false end.

(** Every point of the string is followed by a digit. *)
Fixpoint points_lead_digits (s : string) : bool :=
  match s with
  | String c r =>
      (if Ascii.eqb c "." then digit_first r else true)
      && points_lead_digits r
  | EmptyString => true
  end.

(** ** Measures of the compiler's output *)

(** The kind the classifier gives a token. *)
Definition kind_of (token : string) : TokType.t :=
  fst (to_token_type RPN_Builder_new token 0).

(** The item [operator()] emits for an operand token, none for another. *)
Definition operand_item (token : string) : list Value :=
  match to_token_type RPN_Builder_new token 0 with
  | (TokType.number, number) => [VDouble number]
  | (TokType.var, _) => [VString token]
  | _ => []
  end.

Definition operands_of (tokens : Tokens) : list Value :=
  flat_map operand_item tokens.

Definition is_operand_item (item : Value) : bool :=
  match item with VOperation _ => false | _ => true end.

(** The operations a run of operator kinds converts to. *)
Definition operations_of (kinds : list TokType.t) : list Value :=
  flat_map (fun ttype => match to_operation ttype with
                         | Val op => [VOperation op]
                         | _ => []
                         end) kinds.

(** What a pop loop does: it takes a run of operators off the top of the
    stack and appends their operations to the output, in that order. *)
Definition popped (ops : list TokType.t) (out : list Value)
  (ops' : list TokType.t) (out' : list Value) : Prop :=
  exists kinds,
    ops = kinds ++ ops'
    /\ out' = out ++ operations_of kinds
    /\ forallb is_operator kinds = true.

(** How many tokens are the given text. *)
Definition occurrences (text : string) (tokens : Tokens) : nat :=
  count_occ string_dec tokens text.

(** How many open parentheses the operator stack holds. *)
Definition pending_opens (ops : list TokType.t) : nat :=
  length (filter (TokType.eqb TokType.open) ops).

(** The state of the scan accounts for the tokens read so far: the operands
    of the output are the operand tokens in their order; every token but a
    parenthesis is one item of the output or of the stack; each open
    parenthesis is on the stack or was closed. *)
Definition traced (read : Tokens) (st : scan) : Prop :=
  filter is_operand_item (rpn st) = operands_of read
  /\ (length (rpn st) + length (operations st) + 2 * occurrences ")" read)%nat
     = length read
  /\ (pending_opens (operations st) + occurrences ")" read)%nat
     = occurrences "(" read.

(** ** Operators as the user writes them *)

(** The token of an operation. *)
Definition operator_text (op : Operation.t) : string :=
  match op with
  | Operation.un_min => "-"
  | Operation.add => "+"
  | Operation.sub => "-"
  | Operation.mul => "*"
  | Operation.div => "/"
  | Operation.pow => "^"
  | Operation.sqrt => "sqrt"
  end.

(** The kind [to_operation] converts to the operation. *)
Definition kind_of_operation (op : Operation.t) : TokType.t :=
  match op with
  | Operation.un_min => TokType.un_min
  | Operation.add => TokType.add
  | Operation.sub => TokType.sub
  | Operation.mul => TokType.mul
  | Operation.div => TokType.div
  | Operation.pow => TokType.pow
  | Operation.sqrt => TokType.sqrt
  end.

(** The priority [priority] gives the operation. *)
Definition rank (op : Operation.t) : N :=
  match priority (kind_of_operation op) with
  | Val p => p
  | _ => 0%N
  end.

(** What a binary operation makes of a left and a right operand: the
    lambdas of [calculate]. *)
Definition binary_result (pow : float -> float -> float)
  (op : Operation.t) (a b : float) : res float :=
  match op with
  | Operation.add => Val (a + b)%float
  | Operation.sub => Val (a - b)%float
  | Operation.mul => Val (a * b)%float
  | Operation.div => div_lambda a b
  | Operation.pow => Val (pow a b)
  | Operation.un_min | Operation.sqrt => incorrect_expression
  end.

(** How many values an operation pops. *)
Definition arity (op : Operation.t) : nat :=
  if is_binary op then 2 else 1.

(** The account of operands and binary operators, variables included: the
    operands emitted so far are one more than the binary operators read
    after an operand, and as many after anything else. *)
Definition accounted (st : scan) : Prop :=
  length (filter is_operand_item (rpn st))
  = (binaries (rpn st) + pending_binaries (operations st)
     + (if after_operand (prev_ttype st) then 1 else 0))%nat
  /\ operand_count st = N.of_nat (length (filter is_operand_item (rpn st))).

(** ** The scan inside a pair of parentheses *)

(** [stw] is the state of a scan that read an open parenthesis before the
    tokens that led to [st]: the same output and count, the parenthesis
    under the stack, and the same previous token unless it is that
    parenthesis. *)
Definition framed (st stw : scan) : Prop :=
  rpn stw = rpn st
  /\ operations stw = operations st ++ [TokType.open]
  /\ operand_count stw = operand_count st
  /\ ((prev_ttype stw = prev_ttype st /\ prev_token stw = prev_token st)
      \/ (prev_ttype st = TokType.undefined
          /\ prev_ttype stw = TokType.open)).

(** What the evaluator makes of [x y op], with [x] pushed before [y]: the
    operation takes them in this order when the second argument of
    [binary_operation]'s call is evaluated first, and the other way round
    when the first one is. *)
Definition applied (pow : float -> float -> float) (order : ArgOrder)
  (op : Operation.t) (x y : float) : res float :=
  match order with
  | RightToLeft => binary_result pow op x y
  | LeftToRight => binary_result pow op y x
  end.

(** ** The shape of a token *)

(** No character is one of the symbols [is_symbol_token] accepts. *)
Fixpoint no_symbol (s : string) : bool :=
  match s with
  | String c r => negb (is_symbol_token c) && no_symbol r
  | EmptyString => true
  end.

(** The three kinds of token the tokenizer makes: a symbol alone; a text
    that starts with a digit or a point, which the classifier takes for a
    number; a word, which holds no symbol. *)
Definition token_shape (token : string) : Prop :=
  match token with
  | String ch r =>
      if is_symbol_token ch then r = ""
      else if isdigit ch || Ascii.eqb ch "."
           then kind_of token = TokType.number
           else no_symbol r = true
  | EmptyString => False
  end.

(** ** The depth of the evaluator's stack *)

(** The number of values on the evaluator's stack after the items, from a
    stack of [d] values; none when an operation finds fewer values than it
    pops. *)
Fixpoint depth_after (items : list Value) (d : nat) : option nat :=
  match items with
  | [] => Some d
  | VOperation op :: items' =>
      if (arity op <=? d)%nat then depth_after items' (S d - arity op)
      else None
  | VDouble _ :: items' => depth_after items' (S d)
  | VString _ :: items' => depth_after items' d
  end.

(** The output so far can be evaluated, and leaves one value for each
    binary operator that waits on the stack, and one more after an operand
    or a close parenthesis.  A unary minus finds nothing to pop: at the
    start the stack is empty, and after an open parenthesis that parenthesis
    is on top. *)
Definition well_formed (st : scan) : Prop :=
  depth_after (rpn st) 0
  = Some (pending_binaries (operations st)
          + (if after_operand (prev_ttype st) then 1 else 0))%nat
  /\ (prev_ttype st = TokType.undefined -> operations st = [])
  /\ (prev_ttype st = TokType.open ->
      exists ops, operations st = TokType.open :: ops).

(* ================================================================== *)
(** * Precedence and the power operator *)
(* ================================================================== *)

Lemma TokType_eqb_eq (a b : TokType.t) : TokType.eqb a b = true <-> a = b.
Proof. destruct a, b; simpl; split; congruence. Qed.

Lemma pow_natural_values :
  pow_natural 2 3 = 8%float /\ pow_natural 8 2 = 64%float
  /\ pow_natural 3 2 = 9%float /\ pow_natural 2 9 = 512%float.
Proof. repeat split; vm_compute; reflexivity. Qed.

(** Closed goals about the pipeline are settled by evaluation. *)
Ltac by_evaluation := intros; vm_compute; reflexivity.

Section Examples.

Variable pow : float -> float -> float.

Lemma sum_product_value (order : ArgOrder) :
  run pow order "2 + 3 * 4" = Returns (success 14).
Proof. destruct order; by_evaluation. Qed.

Lemma grouped_sum_value (order : ArgOrder) :
  run pow order "(2 + 3) * 4" = Returns (success 20).
Proof. destruct order; by_evaluation. Qed.

Lemma power_chain_compiled :
  compiled "2 ^ 3 ^ 2"
  = Some [VDouble 2; VDouble 3; VOperation Operation.pow;
          VDouble 2; VOperation Operation.pow].
Proof. by_evaluation. Qed.

Lemma power_chain_right_to_left :
  run pow RightToLeft "2 ^ 3 ^ 2" = Returns (success (pow (pow 2 3) 2)%float).
Proof. by_evaluation. Qed.

Lemma power_chain_left_to_right :
  run pow LeftToRight "2 ^ 3 ^ 2" = Returns (success (pow 2 (pow 3 2))%float).
Proof. by_evaluation. Qed.

End Examples.

(** C1.  "2 + 3 * 4" and "(2 + 3) * 4" give 14 and 20 whatever the order in
    which the two pops of [binary_operation] are evaluated.  "2 ^ 3 ^ 2" is
    compiled to [2 3 pow 2 pow], the left-associative grouping, because the
    operator loop pops on [>=].  Its value is [pow (pow 2 3) 2], that is 64,
    when the second argument of the call is evaluated first, and
    [pow 2 (pow 3 2)], that is 512, when the first argument is evaluated
    first: with that order the calculator does not return the 64 of the
    claim. *)
Theorem C1_precedence_and_power (pow : float -> float -> float) :
  (forall order, run pow order "2 + 3 * 4" = Returns (success 14))
  /\ (forall order, run pow order "(2 + 3) * 4" = Returns (success 20))
  /\ compiled "2 ^ 3 ^ 2"
     = Some [VDouble 2; VDouble 3; VOperation Operation.pow;
             VDouble 2; VOperation Operation.pow]
  /\ run pow RightToLeft "2 ^ 3 ^ 2" = Returns (success (pow (pow 2 3) 2)%float)
  /\ run pow LeftToRight "2 ^ 3 ^ 2" = Returns (success (pow 2 (pow 3 2))%float)
  /\ run pow_natural RightToLeft "2 ^ 3 ^ 2" = Returns (success 64)
  /\ run pow_natural LeftToRight "2 ^ 3 ^ 2" = Returns (success 512).
Proof.
  split; [ apply sum_product_value | ].
  split; [ apply grouped_sum_value | ].
  split; [ apply power_chain_compiled | ].
  split; [ apply power_chain_right_to_left | ].
  split; [ apply power_chain_left_to_right | ].
  split; by_evaluation.
Qed.

(* ================================================================== *)
(** * The operands of a binary operation *)
(* ================================================================== *)

Section Operands.

(** With [x] on top of [y]: evaluated first argument first, [a] is [x]. *)
Lemma binary_operation_left_to_right
  (op : float -> float -> res float) (x y : float) (stack : ValueStack) :
  binary_operation LeftToRight op (x :: y :: stack)
  = (r <- op x y ;; Val (r, stack)).
Proof. reflexivity. Qed.

(** With [x] on top of [y]: evaluated second argument first, [a] is [y]. *)
Lemma binary_operation_right_to_left
  (op : float -> float -> res float) (x y : float) (stack : ValueStack) :
  binary_operation RightToLeft op (x :: y :: stack)
  = (r <- op y x ;; Val (r, stack)).
Proof. reflexivity. Qed.

(** A binary operation needs two values, in either order. *)
Lemma binary_operation_underflow
  (order : ArgOrder) (op : float -> float -> res float) (stack : ValueStack) :
  (length stack < 2)%nat ->
  binary_operation order op stack = incorrect_expression.
Proof.
  intros Hlen.
  destruct stack as [|x [|y stack]]; simpl in Hlen; try lia;
    destruct order; reflexivity.
Qed.

End Operands.

(** C2 (as amended).  For [sub], [div] and [pow] the evaluator pops two
    values and applies the operation as [a OP b].  Which popped value is [a]
    follows the order in which the two arguments of
    [op(pop_value(stack), pop_value(stack))] are evaluated.  First argument
    first: [a] is the value pushed last, as the claim says, so the postfix
    sequence [l r sub] yields [r - l].  Second argument first: [b] is the
    value pushed last and [a] the one pushed before it, so [l r sub] yields
    [l - r].  "5 - 3" is 2 with the second order and -2 with the first. *)
Theorem C2_operand_order
  (pow : float -> float -> float) (l r : float) (stack : ValueStack) :
  (calculate pow LeftToRight Operation.sub (r :: l :: stack)
     = Val ((r - l)%float, stack)
   /\ calculate pow LeftToRight Operation.div (r :: l :: stack)
     = (q <- div_lambda r l ;; Val (q, stack))
   /\ calculate pow LeftToRight Operation.pow (r :: l :: stack)
     = Val (pow r l, stack)
   /\ visit_all pow LeftToRight
        [VDouble l; VDouble r; VOperation Operation.sub] stack
     = Val ((r - l)%float :: stack))
  /\ (calculate pow RightToLeft Operation.sub (r :: l :: stack)
     = Val ((l - r)%float, stack)
   /\ calculate pow RightToLeft Operation.div (r :: l :: stack)
     = (q <- div_lambda l r ;; Val (q, stack))
   /\ calculate pow RightToLeft Operation.pow (r :: l :: stack)
     = Val (pow l r, stack)
   /\ visit_all pow RightToLeft
        [VDouble l; VDouble r; VOperation Operation.sub] stack
     = Val ((l - r)%float :: stack))
  /\ (run pow LeftToRight "5 - 3" = Returns (success (-2))
      /\ run pow RightToLeft "5 - 3" = Returns (success 2)).
Proof.
  split; [ | split ]; repeat split;
    try by_evaluation;
    unfold calculate;
    rewrite ?binary_operation_left_to_right, ?binary_operation_right_to_left;
    reflexivity.
Qed.

(** C2 as stated fails: evaluated second argument first, [5 3 sub] leaves
    [5 - 3], whose left-hand side is the value pushed first. *)
Lemma C2_counterexample :
  ~ (forall pow order (a b : float) (stack : ValueStack),
        (* [a] on top, pushed last *)
        calculate pow order Operation.sub (a :: b :: stack)
        = Val ((a - b)%float, stack)).
Proof.
  intros H.
  specialize (H pow_natural RightToLeft 3%float 5%float []).
  unfold calculate in H. rewrite binary_operation_right_to_left in H.
  apply (f_equal (fun r => match r with
                           | Val (v, _) => PrimFloat.eqb v 2
                           | _ => false
                           end)) in H.
  vm_compute in H. discriminate H.
Qed.

(* ================================================================== *)
(** * Unary minus *)
(* ================================================================== *)

Lemma minus_kind_sub (prev : TokType.t) :
  minus_kind prev TokType.sub = TokType.un_min
  <-> prev = TokType.undefined \/ prev = TokType.open.
Proof.
  destruct prev; simpl; split; intros H; auto;
    try discriminate H; destruct H as [H|H]; discriminate H.
Qed.

Lemma minus_kind_other (prev curr : TokType.t) :
  curr <> TokType.sub -> minus_kind prev curr = curr.
Proof.
  intros Hcurr. unfold minus_kind.
  destruct (TokType.eqb curr TokType.sub) eqn:E.
  - apply TokType_eqb_eq in E. contradiction.
  - rewrite andb_false_r. reflexivity.
Qed.

(** C3 (as amended).  A [sub] token becomes [un_min] exactly when the
    previous kind is [undefined] or [open]; no other kind is changed.  Under
    this rule "-3 + 5" gives 2.  "3 - -5" is rejected: its second minus
    follows a [sub], so it stays a [sub], and the order table does not let a
    [sub] follow a [sub]; [calc::calculate] returns [ok = false]. *)
Theorem C3_unary_minus (pow : float -> float -> float) (order : ArgOrder) :
  (forall prev,
      minus_kind prev TokType.sub = TokType.un_min
      <-> prev = TokType.undefined \/ prev = TokType.open)
  /\ (forall prev curr, curr <> TokType.sub -> minus_kind prev curr = curr)
  /\ run pow order "-3 + 5" = Returns (success 2)
  /\ rejected "3 - -5"
     = Some ("Incorrect order of operands and operations in the expression."
             ++ newline
             ++ "The subtraction sign '-' cannot be after the subtraction sign '-'")%string
  /\ run pow order "3 - -5" = Returns (failure "Incorrect expression").
Proof.
  split; [ exact minus_kind_sub | ].
  split; [ exact minus_kind_other | ].
  repeat split; destruct order; by_evaluation.
Qed.

(** C3 as stated fails: "3 - -5" does not evaluate to 8. *)
Lemma C3_counterexample :
  ~ (forall pow order, run pow order "3 - -5" = Returns (success 8)).
Proof.
  intros H. specialize (H pow_natural RightToLeft).
  vm_compute in H. discriminate H.
Qed.

(* ================================================================== *)
(** * The result of the entry point *)
(* ================================================================== *)

Section EntryPoint.

Variable pow : float -> float -> float.
Variable order : ArgOrder.

(** When [operator()] returns [false] the result carries a fixed text,
    whatever [what()] holds. *)
Lemma try_block_rejected (tokens : Tokens) (b : RPN_Builder) :
  RPN_Builder_call RPN_Builder_new tokens = Val (false, b) ->
  try_block pow order tokens = Val (failure "Incorrect expression").
Proof. intros H. unfold try_block. rewrite H. reflexivity. Qed.

(** When [operator()] returns [true] the items are evaluated on an empty
    stack and its top is read, with no look at what the stack holds. *)
Lemma try_block_compiled (tokens : Tokens) (b : RPN_Builder) :
  RPN_Builder_call RPN_Builder_new tokens = Val (true, b) ->
  try_block pow order tokens
  = (stack <- visit_all pow order (rp_notation_ b) [] ;;
     value <- top stack ;;
     Val (success value)).
Proof. intros H. unfold try_block. rewrite H. reflexivity. Qed.

Lemma run_rejected (expression msg : string) :
  rejected expression = Some msg ->
  run pow order expression = Returns (failure "Incorrect expression").
Proof.
  unfold rejected, run, calc_calculate.
  destruct (getTokens (Some expression)) as [tokens|]; [ | discriminate ].
  destruct (RPN_Builder_call RPN_Builder_new tokens) as [[[|] b]| |] eqn:E;
    try discriminate.
  intros _. rewrite (try_block_rejected _ _ E). reflexivity.
Qed.

End EntryPoint.

(** C4.  Every failure comes back as a [Result] with [ok = false] and value
    0, and an exception of the evaluator comes back with its own text.  A
    failure of the compiler does not: [operator()] stores its description
    for [what()], and [calc::calculate] returns the fixed text "Incorrect
    expression" instead, so the extra-parenthesis, token-order and
    no-operands descriptions never reach the caller. *)
Theorem C4_compiler_message_is_dropped
  (pow : float -> float -> float) (order : ArgOrder) :
  (forall expression msg,
      rejected expression = Some msg ->
      run pow order expression = Returns (failure "Incorrect expression"))
  /\ (forall tokens e_what equation,
      getTokens equation = Some tokens ->
      try_block pow order tokens = Throw e_what ->
      calc_calculate pow order equation = Returns (failure e_what))
  /\ rejected "2 + 3)" = Some "Found extra close parentheses."
  /\ run pow order "2 + 3)" = Returns (failure "Incorrect expression")
  /\ rejected "+ 2"
     = Some ("Incorrect order of operands and operations in the expression."
             ++ newline
             ++ "The addition sign '+' cannot be the first in an expression.")%string
  /\ run pow order "+ 2" = Returns (failure "Incorrect expression")
  /\ rejected "" = Some "Expression does not contain any operands."
  /\ run pow order "" = Returns (failure "Incorrect expression").
Proof.
  split; [ apply run_rejected | ].
  split.
  { intros tokens e_what equation Htok Hthrow.
    unfold calc_calculate. rewrite Htok, Hthrow. reflexivity. }
  repeat split; destruct order; by_evaluation.
Qed.

(** C5.  The read of the final value is [stack.top()] with no test of the
    stack: a non-empty stack gives its top whatever lies below, and an empty
    one is read all the same.  For "x" the compiler accepts, the evaluator
    pushes nothing, and the call does not report a failure: it reads the top
    of an empty stack, which is undefined. *)
Theorem C5_final_stack_is_not_checked
  (pow : float -> float -> float) (order : ArgOrder) :
  (forall value below, top (value :: below) = Val value)
  /\ top [] = Undef
  /\ compiled "x" = Some [VString "x"]
  /\ visit_all pow order [VString "x"] [] = Val []
  /\ run pow order "x" = UndefinedBehaviour
  /\ run pow order "x" <> Returns (failure "Incorrect expression").
Proof.
  repeat split; try (destruct order; by_evaluation).
  destruct order; vm_compute; discriminate.
Qed.

(** C6.  The lambda of [div] throws before dividing whenever its second
    parameter [b] compares equal to 0.  In the postfix sequence [n d div]
    the divisor [d] is pushed last.  When the second argument of the call is
    evaluated first, [b] is [d]: a zero divisor raises the failure, and
    "5 / 0" returns the division-by-zero failure.  When the first argument
    is evaluated first, [b] is [n]: the test is made on the dividend,
    "5 / 0" returns [ok = true] with the value [0 / 5 = 0], and it is
    "0 / 5" that fails. *)
Theorem C6_division_by_zero (pow : float -> float -> float) :
  (forall a b,
      PrimFloat.eqb b 0 = true ->
      div_lambda a b = Throw "Divizion on zero is not defined")
  /\ (forall a b,
      PrimFloat.eqb b 0 = false -> div_lambda a b = Val (a / b)%float)
  /\ (forall n d stack,
      PrimFloat.eqb d 0 = true ->
      calculate pow RightToLeft Operation.div (d :: n :: stack)
      = Throw "Divizion on zero is not defined")
  /\ (forall n d stack,
      calculate pow LeftToRight Operation.div (d :: n :: stack)
      = (q <- div_lambda d n ;; Val (q, stack)))
  /\ compiled "5 / 0" = Some [VDouble 5; VDouble 0; VOperation Operation.div]
  /\ run pow RightToLeft "5 / 0"
     = Returns (failure "Divizion on zero is not defined")
  /\ run pow LeftToRight "5 / 0" = Returns (success 0)
  /\ run pow LeftToRight "0 / 5"
     = Returns (failure "Divizion on zero is not defined").
Proof.
  split; [ intros a b H; unfold div_lambda; rewrite H; reflexivity | ].
  split; [ intros a b H; unfold div_lambda; rewrite H; reflexivity | ].
  split.
  { intros n d stack H. unfold calculate.
    rewrite binary_operation_right_to_left.
    unfold div_lambda. rewrite H. reflexivity. }
  split; [ reflexivity | ].
  repeat split; by_evaluation.
Qed.

(* ================================================================== *)
(** * The tokenizer *)
(* ================================================================== *)

Lemma drop_0 (s : string) : drop 0 s = s.
Proof. destruct s; reflexivity. Qed.

Lemma drop_length_le (n : nat) (s : string) :
  (String.length (drop n s) <= String.length s)%nat.
Proof.
  revert s. induction n as [|n IH]; intros s.
  - rewrite drop_0. lia.
  - destruct s as [|c r]; simpl; [ lia | ]. specialize (IH r). lia.
Qed.

Lemma drop_length (n : nat) (s : string) :
  (n <= String.length s)%nat ->
  String.length (drop n s) = (String.length s - n)%nat.
Proof.
  revert s. induction n as [|n IH]; intros s Hn.
  - rewrite drop_0. lia.
  - destruct s as [|c r]; simpl in *; [ lia | ]. apply IH. lia.
Qed.

Lemma substring_0_length (n : nat) (s : string) :
  (String.length (substring 0 n s) <= String.length s)%nat.
Proof.
  revert s. induction n as [|n IH]; intros s.
  - destruct s; simpl; lia.
  - destruct s as [|c r]; simpl; [ lia | ]. specialize (IH r). lia.
Qed.

Lemma length_0_empty (s : string) : String.length s = 0%nat -> s = "".
Proof. destruct s; simpl; [ reflexivity | discriminate ]. Qed.

Lemma skip_spaces_drop (c : string) :
  exists k, (k <= String.length c)%nat /\ skip_spaces c = drop k c.
Proof.
  induction c as [|ch r IH].
  - exists 0%nat. split; [ simpl; lia | reflexivity ].
  - simpl. destruct (isspace ch).
    + destruct IH as (k & Hk & E). exists (S k). simpl. split; [ lia | exact E ].
    + exists 0%nat. simpl. split; [ lia | reflexivity ].
Qed.

(** One run of the inner loop leaves the pointer [k] characters further, and
    a run that does not move it leaves the token as it found it. *)
Lemma token_loop_drop (c : string) :
  forall at_start token,
    (at_start = true -> token = "") ->
    exists k,
      (k <= String.length c)%nat
      /\ snd (token_loop at_start c token) = drop k c
      /\ (k = 0%nat -> fst (token_loop at_start c token) = token).
Proof.
  induction c as [|ch r IH]; intros at_start token Hstart.
  - exists 0%nat. simpl. auto.
  - cbn [token_loop].
    destruct (at_start && is_symbol_token ch) eqn:Esym.
    { exists 1%nat. simpl. split; [ lia | ]. split; [ reflexivity | ].
      discriminate. }
    destruct (at_start && (isdigit ch || Ascii.eqb ch ".")) eqn:Enum.
    { set (tok := substring 0 (snd (strtod (String ch r))) (String ch r)).
      exists (String.length tok). cbn [fst snd].
      split; [ apply substring_0_length | ]. split; [ reflexivity | ].
      intros Hk. apply length_0_empty in Hk. rewrite Hk.
      apply andb_prop in Enum. destruct Enum as [Hs _].
      symmetry. apply Hstart. exact Hs. }
    destruct (isspace ch || is_symbol_token ch).
    { exists 0%nat. cbn [fst snd]. split; [ lia | ]. split; reflexivity. }
    destruct (IH false (push_back token ch)) as (k & Hk & Hsnd & _);
      [ discriminate | ].
    exists (S k). cbn [String.length]. split; [ lia | ].
    split; [ exact Hsnd | discriminate ].
Qed.

(** An iteration of the outer loop either shortens what is left to read, or
    changes nothing at all. *)
Lemma outer_iteration (c : string) :
  let (token, c') := token_loop true (skip_spaces c) "" in
  (String.length c' < String.length c)%nat \/ (c' = c /\ token = "").
Proof.
  destruct (token_loop true (skip_spaces c) "") as [token c'] eqn:E.
  destruct (skip_spaces_drop c) as (k1 & Hk1 & E1).
  destruct (token_loop_drop (skip_spaces c) true "" (fun _ => eq_refl))
    as (k2 & Hk2 & E2 & E3).
  rewrite E in E2, E3. cbn [fst snd] in E2, E3.
  rewrite E1 in Hk2, E2. rewrite (drop_length _ _ Hk1) in Hk2.
  assert (String.length c' = String.length c - k1 - k2)%nat as Hlen.
  { rewrite E2, drop_length; rewrite drop_length; lia. }
  destruct (Nat.eq_dec (k1 + k2) 0) as [Hz|Hnz].
  - right. assert (k1 = 0%nat) by lia. assert (k2 = 0%nat) by lia.
    subst k1 k2. rewrite !drop_0 in E2. auto.
  - left. lia.
Qed.

Lemma tokens_loop_end (fuel : nat) (tokens : Tokens) :
  tokens_loop fuel "" tokens = Some tokens.
Proof. destruct fuel; reflexivity. Qed.

Lemma tokens_loop_more_fuel (n : nat) :
  forall m c tokens r,
    (n <= m)%nat ->
    tokens_loop n c tokens = Some r -> tokens_loop m c tokens = Some r.
Proof.
  induction n as [|n IH]; intros m c tokens r Hnm H.
  - destruct c; simpl in H; [ | discriminate ].
    destruct m; exact H.
  - destruct c as [|ch rest]; [ destruct m; exact H | ].
    destruct m as [|m]; [ lia | ].
    cbn [tokens_loop] in *.
    destruct (token_loop true (skip_spaces (String ch rest)) "") as [token c'].
    apply IH; [ lia | exact H ].
Qed.

(** The fuel [getTokens] gives is enough for every loop that ends. *)
Lemma tokens_loop_enough_fuel (n : nat) :
  forall c tokens r,
    tokens_loop n c tokens = Some r ->
    tokens_loop (String.length c) c tokens = Some r.
Proof.
  induction n as [|n IH]; intros c tokens r H.
  - destruct c; simpl in H; [ exact H | discriminate ].
  - destruct c as [|ch rest]; [ exact H | ].
    pose proof (outer_iteration (String ch rest)) as Hit.
    cbn [tokens_loop] in H.
    destruct (token_loop true (skip_spaces (String ch rest)) "")
      as [token c'] eqn:E.
    destruct Hit as [Hlt | [Hc Htok]].
    + apply IH in H.
      change (String.length (String ch rest)) with (S (String.length rest)).
      cbn [tokens_loop]. rewrite E.
      apply tokens_loop_more_fuel with (n := String.length c');
        [ simpl in Hlt; lia | exact H ].
    + subst c' token. apply IH. exact H.
Qed.

(** An iteration that changes nothing is repeated for ever. *)
Lemma tokens_loop_stuck (c : string) (tokens : Tokens) :
  c <> "" ->
  token_loop true (skip_spaces c) "" = ("", c) ->
  forall fuel, tokens_loop fuel c tokens = None.
Proof.
  intros Hc E fuel. induction fuel as [|fuel IH].
  - destruct c; [ contradiction | reflexivity ].
  - destruct c as [|ch rest]; [ contradiction | ].
    cbn [tokens_loop]. rewrite E. exact IH.
Qed.

(** [getTokens] gives [None] only for a loop that no fuel ends. *)
Lemma getTokens_never_ends (s : string) :
  getTokens (Some s) = None ->
  forall fuel, tokens_loop fuel (c_str s) [] = None.
Proof.
  unfold getTokens. intros H fuel.
  destruct (tokens_loop fuel (c_str s) []) as [r|] eqn:E; [ | reflexivity ].
  apply tokens_loop_enough_fuel in E. congruence.
Qed.

(** A point that starts no number stops the tokenizer for ever. *)
Lemma lone_point_never_ends (pow : float -> float -> float) (order : ArgOrder) :
  (forall fuel, tokens_loop fuel "." [] = None)
  /\ run pow order "." = NeverReturns.
Proof.
  split; [ | by_evaluation ].
  apply tokens_loop_stuck; [ discriminate | by_evaluation ].
Qed.

Lemma all_spaces_skipped (s : string) :
  all_spaces s = true -> skip_spaces s = "".
Proof.
  induction s as [|ch r IH]; simpl; intros H; [ reflexivity | ].
  apply andb_prop in H. destruct H as [Hch Hr].
  rewrite Hch. apply IH. exact Hr.
Qed.

Lemma getTokens_blank (equation : option string) :
  blank equation = true -> getTokens equation = Some [].
Proof.
  destruct equation as [s|]; [ | reflexivity ].
  simpl. intros H. unfold getTokens.
  destruct (c_str s) as [|ch r]; [ reflexivity | ].
  change (String.length (String ch r)) with (S (String.length r)).
  cbn [tokens_loop]. rewrite (all_spaces_skipped _ H).
  cbn [token_loop empty]. apply tokens_loop_end.
Qed.

(** C8.  For a null, empty or white-space-only input the tokenizer returns
    no token, and it does return; [operator()] then returns [false] with the
    no-operands message, and [calc::calculate] returns [ok = false]. *)
Theorem C8_blank_input
  (pow : float -> float -> float) (order : ArgOrder)
  (equation : option string) :
  blank equation = true ->
  getTokens equation = Some []
  /\ (exists b,
        RPN_Builder_call RPN_Builder_new [] = Val (false, b)
        /\ RPN_Builder_what b = "Expression does not contain any operands.")
  /\ (exists r,
        calc_calculate pow order equation = Returns r /\ ok r = false).
Proof.
  intros H. pose proof (getTokens_blank _ H) as Htok.
  split; [ exact Htok | ].
  split.
  - eexists. split; [ vm_compute; reflexivity | reflexivity ].
  - exists (failure "Incorrect expression").
    unfold calc_calculate. rewrite Htok. split; reflexivity.
Qed.

(** C8 at the null pointer, the empty string and a string of a space, a tab
    and a line feed. *)
Lemma C8_blank_input_witness :
  (getTokens None = Some []
   /\ getTokens (Some "") = Some []
   /\ getTokens (Some (String " " (String "009" (String "010" "")))) = Some [])
  /\ exists r,
       calc_calculate pow_natural RightToLeft (Some "  ") = Returns r
       /\ ok r = false.
Proof.
  split.
  - split; [ | split ].
    + exact (proj1 (C8_blank_input pow_natural RightToLeft None eq_refl)).
    + exact (proj1 (C8_blank_input pow_natural RightToLeft (Some "") eq_refl)).
    + exact (proj1 (C8_blank_input pow_natural RightToLeft
                      (Some (String " " (String "009" (String "010" ""))))
                      eq_refl)).
  - exact (proj2 (proj2 (C8_blank_input pow_natural RightToLeft
                           (Some "  ") eq_refl))).
Defined.

(* ================================================================== *)
(** * What strtod consumes *)
(* ================================================================== *)

Lemma span_length (p : ascii -> bool) (s : string) :
  (length (fst (span p s)) + String.length (snd (span p s)))%nat
  = String.length s.
Proof.
  induction s as [|c r IH]; simpl; [ reflexivity | ].
  destruct (p c); [ | reflexivity ].
  destruct (span p r) as [ds r']. simpl in *. lia.
Qed.

Lemma sign_of_length (s : string) :
  let '(_, ns, r) := sign_of s in
  (ns + String.length r)%nat = String.length s.
Proof.
  destruct s as [|c r]; [ reflexivity | ].
  unfold sign_of.
  destruct c as [[] [] [] [] [] [] [] []]; reflexivity.
Qed.

Lemma exponent_part_length (mark : ascii) (s : string) :
  (snd (exponent_part mark s) <= String.length s)%nat.
Proof.
  destruct s as [|c r]; simpl; [ lia | ].
  destruct (Ascii.eqb (tolower c) mark); simpl; [ | lia ].
  pose proof (sign_of_length r) as Hs.
  destruct (sign_of r) as [[neg ns] r1].
  pose proof (span_length isdigit r1) as Hd.
  destruct (span isdigit r1) as [ds r2]. simpl in Hd.
  destruct ds; simpl in *; lia.
Qed.

Lemma mantissa_part_length (p : ascii -> bool) (s : string)
  (ip fp : list ascii) (n : nat) (r : string) :
  mantissa_part p s = Some (ip, fp, n, r) ->
  (n + String.length r)%nat = String.length s.
Proof.
  unfold mantissa_part.
  pose proof (span_length p s) as H1.
  destruct (span p s) as [ip' r1]. simpl in H1.
  assert (forall fp' pt r2,
             (pt + length fp' + String.length r2)%nat = String.length r1 ->
             match ip' ++ fp' with
             | [] => None
             | _ :: _ =>
                 Some (ip', fp', (length ip' + pt + length fp')%nat, r2)
             end = Some (ip, fp, n, r) ->
             (n + String.length r)%nat = String.length s) as Hend.
  { intros fp' pt r2 Hlen Hsome.
    destruct (ip' ++ fp'); [ discriminate | ].
    injection Hsome as <- <- <- <-. lia. }
  destruct r1 as [|c r1'].
  - apply (Hend [] 0%nat ""). reflexivity.
  - destruct (Ascii.eqb c ".") eqn:Ec.
    + apply Ascii.eqb_eq in Ec. subst c.
      pose proof (span_length p r1') as H2.
      destruct (span p r1') as [fp' r2]. simpl in H2.
      apply (Hend fp' 1%nat r2). simpl. lia.
    + assert (match c with
              | "."%char => let (fp0, r2) := span p r1' in (fp0, 1%nat, r2)
              | _ => ([], 0%nat, String c r1')
              end = ([], 0%nat, String c r1')) as ->.
      { destruct c as [[] [] [] [] [] [] [] []];
          try reflexivity; discriminate Ec. }
      apply (Hend [] 0%nat (String c r1')). reflexivity.
Qed.

Lemma decimal_subject_length (s : string) (x : float) (n : nat) :
  decimal_subject s = Some (x, n) -> (n <= String.length s)%nat.
Proof.
  unfold decimal_subject.
  destruct (mantissa_part isdigit s) as [[[[ip fp] n0] r]|] eqn:E;
    [ | discriminate ].
  apply mantissa_part_length in E.
  pose proof (exponent_part_length "e" r) as He.
  destruct (exponent_part "e" r) as [e ne]. simpl in He.
  intros H. injection H as _ <-. lia.
Qed.

Lemma hexadecimal_subject_length (s : string) (x : float) (n : nat) :
  hexadecimal_subject s = Some (x, n) -> (n <= String.length s)%nat.
Proof.
  unfold hexadecimal_subject.
  destruct s as [|c0 [|c1 r]]; try discriminate.
  - destruct c0 as [[] [] [] [] [] [] [] []]; discriminate.
  - assert (forall o : option (float * nat),
               (o = Some (x, n) -> (n <= S (S (String.length r)))%nat) ->
               match c0 with
               | "0"%char => o
               | _ => None
               end = Some (x, n) -> (n <= S (S (String.length r)))%nat) as Hc0.
    { intros o Ho. destruct c0 as [[] [] [] [] [] [] [] []];
        try discriminate; exact Ho. }
    apply Hc0. clear Hc0.
    destruct (Ascii.eqb (tolower c1) "x"); [ | discriminate ].
    destruct (mantissa_part isxdigit r) as [[[[ip fp] n0] r']|] eqn:E;
      [ | discriminate ].
    apply mantissa_part_length in E.
    pose proof (exponent_part_length "p" r') as He.
    destruct (exponent_part "p" r') as [e ne]. simpl in He.
    intros H. injection H as _ <-. lia.
Qed.

Lemma starts_with_length (w s : string) :
  starts_with w s = true -> (String.length w <= String.length s)%nat.
Proof.
  revert s. induction w as [|a w IH]; intros s H; simpl; [ lia | ].
  destruct s as [|c r]; simpl in H; [ discriminate | ].
  apply andb_prop in H. destruct H as [_ H]. apply IH in H. simpl. lia.
Qed.

Lemma infinity_subject_length (s : string) (x : float) (n : nat) :
  infinity_subject s = Some (x, n) -> (n <= String.length s)%nat.
Proof.
  unfold infinity_subject.
  destruct (starts_with "infinity" s) eqn:E1.
  - apply starts_with_length in E1. intros H. injection H as _ <-. exact E1.
  - destruct (starts_with "inf" s) eqn:E2; [ | discriminate ].
    apply starts_with_length in E2. intros H. injection H as _ <-. exact E2.
Qed.

Lemma nan_subject_length (s : string) (x : float) (n : nat) :
  nan_subject s = Some (x, n) -> (n <= String.length s)%nat.
Proof.
  unfold nan_subject.
  destruct (starts_with "nan" s) eqn:E; [ | discriminate ].
  apply starts_with_length in E. simpl in E.
  pose proof (drop_length 3 s E) as Hd.
  assert (forall o : option (float * nat),
             o = Some (nan, 3%nat) ->
             o = Some (x, n) -> (n <= String.length s)%nat) as Hnan.
  { intros o -> H. injection H as _ <-. exact E. }
  destruct (drop 3 s) as [|c r]; [ apply Hnan; reflexivity | ].
  destruct (Ascii.eqb c "(") eqn:Ec.
  - apply Ascii.eqb_eq in Ec. subst c.
    pose proof (span_length
                  (fun c => isdigit c || isalpha c || Ascii.eqb c "_") r) as Hs.
    destruct (span (fun c => isdigit c || isalpha c || Ascii.eqb c "_") r)
      as [cs r']. simpl in Hs, Hd.
    destruct r' as [|c' r'']; [ apply Hnan; reflexivity | ].
    destruct (Ascii.eqb c' ")") eqn:Ec'.
    + apply Ascii.eqb_eq in Ec'. subst c'.
      intros H. injection H as _ <-. simpl in Hs. lia.
    + assert (match c' with
              | ")"%char => Some (nan, (3 + 1 + length cs + 1)%nat)
              | _ => Some (nan, 3%nat)
              end = Some (nan, 3%nat)) as ->.
      { destruct c' as [[] [] [] [] [] [] [] []];
          try reflexivity; discriminate Ec'. }
      apply Hnan. reflexivity.
  - assert (match c with
            | "("%char =>
                let (cs, r') :=
                  span (fun c => isdigit c || isalpha c || Ascii.eqb c "_") r in
                match r' with
                | String ")" _ => Some (nan, (3 + 1 + length cs + 1)%nat)
                | _ => Some (nan, 3%nat)
                end
            | _ => Some (nan, 3%nat)
            end = Some (nan, 3%nat)) as ->.
    { destruct c as [[] [] [] [] [] [] [] []];
        try reflexivity; discriminate Ec. }
    apply Hnan. reflexivity.
Qed.

(** [endptr] never passes the end of the string. *)
Lemma strtod_consumed_le (str : string) :
  (snd (strtod str) <= String.length str)%nat.
Proof.
  unfold strtod.
  pose proof (span_length isspace str) as Hw.
  destruct (span isspace str) as [ws s0]. simpl in Hw.
  pose proof (sign_of_length s0) as Hs.
  destruct (sign_of s0) as [[neg ns] s].
  destruct (first_of (infinity_subject s)
              (first_of (nan_subject s)
                 (first_of (hexadecimal_subject s) (decimal_subject s))))
    as [[x n]|] eqn:E; simpl; [ | lia ].
  assert (n <= String.length s)%nat; [ | lia ].
  unfold first_of in E.
  destruct (infinity_subject s) as [[x1 n1]|] eqn:E1.
  { injection E as _ <-. eapply infinity_subject_length; eassumption. }
  destruct (nan_subject s) as [[x2 n2]|] eqn:E2.
  { injection E as _ <-. eapply nan_subject_length; eassumption. }
  destruct (hexadecimal_subject s) as [[x3 n3]|] eqn:E3.
  { injection E as _ <-. eapply hexadecimal_subject_length; eassumption. }
  eapply decimal_subject_length; eassumption.
Qed.

(* ================================================================== *)
(** * The token classifier *)
(* ================================================================== *)

Lemma no_nul_c_str (s : string) : no_nul s = true -> c_str s = s.
Proof.
  induction s as [|c r IH]; simpl; intros H; [ reflexivity | ].
  apply andb_prop in H. destruct H as [Hc Hr].
  destruct (Ascii.eqb c NUL); [ discriminate Hc | ].
  rewrite IH by exact Hr. reflexivity.
Qed.

Lemma c_str_no_nul (s : string) : no_nul (c_str s) = true.
Proof.
  induction s as [|c r IH]; simpl; [ reflexivity | ].
  destruct (Ascii.eqb c NUL) eqn:E; [ reflexivity | ].
  simpl. rewrite E. exact IH.
Qed.

(** In a string without NUL the terminator is read at its end only. *)
Lemma deref_drop_nul (s : string) :
  no_nul s = true ->
  forall n, (n <= String.length s)%nat ->
    Ascii.eqb (deref (drop n s)) NUL = true <-> n = String.length s.
Proof.
  induction s as [|c r IH]; intros Hs n Hn.
  - simpl in Hn. assert (n = 0%nat) by lia. subst n. simpl. tauto.
  - simpl in Hs. apply andb_prop in Hs. destruct Hs as [Hc Hr].
    destruct n as [|n].
    + simpl. apply negb_true_iff in Hc. rewrite Hc.
      split; [ discriminate | discriminate ].
    + simpl in Hn. simpl. rewrite (IH Hr n) by lia. lia.
Qed.

Lemma whole_number_dec (token : string) :
  {whole_number token} + {~ whole_number token}.
Proof.
  unfold whole_number.
  destruct (Nat.eq_dec (snd (strtod token)) (String.length token)) as [E|E];
    [ | right; tauto ].
  destruct (string_dec token "") as [E'|E']; [ right; tauto | left; tauto ].
Qed.

Lemma str_to_number_whole (str : string) (number : float) :
  no_nul str = true ->
  whole_number str ->
  str_to_number str number = (true, fst (strtod str)).
Proof.
  intros Hs [Hn Hne]. unfold str_to_number.
  destruct (strtod str) as [x n]. simpl in *.
  assert (n <> 0%nat) as Hn0.
  { intros ->. destruct str; [ contradiction | discriminate ]. }
  apply Nat.eqb_neq in Hn0. rewrite Hn0. simpl.
  assert (Ascii.eqb (deref (drop n str)) NUL = true) as ->; [ | reflexivity ].
  apply deref_drop_nul; [ exact Hs | lia | exact Hn ].
Qed.

Lemma str_to_number_not_whole (str : string) (number : float) :
  no_nul str = true ->
  ~ whole_number str ->
  str_to_number str number = (false, number).
Proof.
  intros Hs Hnot. unfold str_to_number.
  pose proof (strtod_consumed_le str) as Hle.
  unfold whole_number in Hnot.
  destruct (strtod str) as [x n]. simpl in *.
  destruct (n =? 0)%nat eqn:E0; simpl; [ reflexivity | ].
  destruct (Ascii.eqb (deref (drop n str)) NUL) eqn:E; [ | reflexivity ].
  apply deref_drop_nul in E; [ | exact Hs | exact Hle ].
  exfalso. apply Hnot. split; [ exact E | ].
  intros ->. simpl in E. subst n. discriminate E0.
Qed.

Lemma find_token_keyword (token : string) (ttype : TokType.t) :
  In (token, ttype) (tokens_map_ RPN_Builder_new) ->
  find_token (tokens_map_ RPN_Builder_new) token = Some ttype.
Proof.
  simpl. intros H.
  repeat (destruct H as [H|H];
          [ injection H as <- <-; reflexivity | ]).
  contradiction.
Qed.

Lemma find_token_other (token : string) :
  ~ In token keywords ->
  find_token (tokens_map_ RPN_Builder_new) token = None.
Proof.
  intros H. cbn [tokens_map_ RPN_Builder_new find_token].
  repeat match goal with
         | |- context [String.eqb ?k token] =>
             let E := fresh "E" in
             destruct (String.eqb k token) eqn:E;
             [ apply String.eqb_eq in E; exfalso; apply H; rewrite <- E;
               simpl; tauto | ]
         end.
  reflexivity.
Qed.

(** C9.  A token equal to one of the eight keys of [tokens_map_] gets the
    kind stored for it.  Any other token is a [number], with the value
    [strtod] gives, exactly when [strtod] converts the whole of its text;
    when [strtod] stops before the end, or converts nothing, it is a [var]:
    a token of which only a proper prefix is a number is never cut down to
    that number.  Tokens are taken without NUL, as [getTokens] builds
    them. *)
Theorem C9_token_classification (token : string) (number : float) :
  no_nul token = true ->
  (forall ttype,
      In (token, ttype)
         [("(", TokType.open); (")", TokType.close); ("+", TokType.add);
          ("-", TokType.sub); ("*", TokType.mul); ("/", TokType.div);
          ("^", TokType.pow); ("sqrt", TokType.sqrt)] ->
      fst (to_token_type RPN_Builder_new token number) = ttype)
  /\ (~ In token keywords ->
      (whole_number token ->
       to_token_type RPN_Builder_new token number
       = (TokType.number, fst (strtod token)))
      /\ (~ whole_number token ->
          to_token_type RPN_Builder_new token number = (TokType.var, number))
      /\ (fst (to_token_type RPN_Builder_new token number) = TokType.number
          <-> whole_number token)
      /\ ((0 < snd (strtod token) < String.length token)%nat ->
          fst (to_token_type RPN_Builder_new token number) = TokType.var)).
Proof.
  intros Hs. split.
  - intros ttype Hin. unfold to_token_type.
    rewrite (find_token_keyword token ttype Hin). reflexivity.
  - intros Hkey.
    assert (whole_number token ->
            to_token_type RPN_Builder_new token number
            = (TokType.number, fst (strtod token))) as Hwhole.
    { intros Hw. unfold to_token_type.
      rewrite (find_token_other _ Hkey), (no_nul_c_str _ Hs).
      rewrite (str_to_number_whole _ _ Hs Hw). reflexivity. }
    assert (~ whole_number token ->
            to_token_type RPN_Builder_new token number
            = (TokType.var, number)) as Hpart.
    { intros Hw. unfold to_token_type.
      rewrite (find_token_other _ Hkey), (no_nul_c_str _ Hs).
      rewrite (str_to_number_not_whole _ _ Hs Hw). reflexivity. }
    split; [ exact Hwhole | ]. split; [ exact Hpart | ]. split.
    + split.
      * intros Hnum. destruct (whole_number_dec token) as [Hw|Hw];
          [ exact Hw | ].
        rewrite (Hpart Hw) in Hnum. discriminate Hnum.
      * intros Hw. rewrite (Hwhole Hw). reflexivity.
    + intros [Hlo Hhi]. rewrite Hpart; [ reflexivity | ].
      intros [Hw _]. lia.
Qed.

(** C9 at the keyword "sqrt", the number "12.5e1", and "infx", of which
    [strtod] converts the prefix "inf" only. *)
Lemma C9_token_classification_witness :
  fst (to_token_type RPN_Builder_new "sqrt" 0) = TokType.sqrt
  /\ to_token_type RPN_Builder_new "12.5e1" 0 = (TokType.number, 125%float)
  /\ fst (to_token_type RPN_Builder_new "infx" 0) = TokType.var.
Proof.
  split; [ | split ].
  - apply (proj1 (C9_token_classification "sqrt" 0 eq_refl)).
    simpl. tauto.
  - refine (proj1 (proj2 (C9_token_classification "12.5e1" 0 eq_refl) _) _).
    + simpl. intros H. repeat (destruct H as [H|H]; [ discriminate H | ]).
      exact H.
    + split; [ vm_compute; reflexivity | discriminate ].
  - refine (proj2 (proj2 (proj2
              (proj2 (C9_token_classification "infx" 0 eq_refl) _))) _).
    + simpl. intros H. repeat (destruct H as [H|H]; [ discriminate H | ]).
      exact H.
    + assert (snd (strtod "infx") = 3%nat) as -> by (vm_compute; reflexivity).
      simpl. lia.
Defined.

(** ** The tokens [getTokens] builds *)

Lemma no_nul_push_back (s : string) (c : ascii) :
  no_nul s = true -> Ascii.eqb c NUL = false -> no_nul (push_back s c) = true.
Proof.
  intros Hs Hc. unfold push_back.
  induction s as [|a r IH]; simpl in *.
  - rewrite Hc. reflexivity.
  - apply andb_prop in Hs. destruct Hs as [Ha Hr].
    rewrite Ha, (IH Hr). reflexivity.
Qed.

Lemma no_nul_substring_0 (n : nat) (s : string) :
  no_nul s = true -> no_nul (substring 0 n s) = true.
Proof.
  revert s. induction n as [|n IH]; intros s Hs.
  - destruct s; reflexivity.
  - destruct s as [|c r]; simpl in *; [ reflexivity | ].
    apply andb_prop in Hs. destruct Hs as [Hc Hr].
    rewrite Hc, (IH r Hr). reflexivity.
Qed.

Lemma no_nul_drop (n : nat) (s : string) :
  no_nul s = true -> no_nul (drop n s) = true.
Proof.
  revert s. induction n as [|n IH]; intros s Hs; [ rewrite drop_0; exact Hs | ].
  destruct s as [|c r]; simpl in *; [ reflexivity | ].
  apply andb_prop in Hs. destruct Hs as [_ Hr]. apply IH. exact Hr.
Qed.

Lemma token_loop_no_nul (c : string) :
  forall at_start token,
    no_nul c = true -> no_nul token = true ->
    no_nul (fst (token_loop at_start c token)) = true.
Proof.
  induction c as [|ch r IH]; intros at_start token Hc Htok; [ exact Htok | ].
  pose proof Hc as Hc'. simpl in Hc'.
  apply andb_prop in Hc'. destruct Hc' as [Hch Hr].
  apply negb_true_iff in Hch.
  cbn [token_loop].
  destruct (at_start && is_symbol_token ch).
  { apply no_nul_push_back; assumption. }
  destruct (at_start && (isdigit ch || Ascii.eqb ch ".")).
  { apply no_nul_substring_0. exact Hc. }
  destruct (isspace ch || is_symbol_token ch); [ exact Htok | ].
  apply IH; [ exact Hr | apply no_nul_push_back; assumption ].
Qed.

Lemma tokens_loop_raw (fuel : nat) :
  forall c tokens r,
    no_nul c = true -> Forall raw_token tokens ->
    tokens_loop fuel c tokens = Some r -> Forall raw_token r.
Proof.
  induction fuel as [|fuel IH]; intros c tokens r Hc Htoks H.
  - destruct c; simpl in H; [ | discriminate ]. injection H as <-. exact Htoks.
  - destruct c as [|ch rest]; [ injection H as <-; exact Htoks | ].
    cbn [tokens_loop] in H.
    destruct (skip_spaces_drop (String ch rest)) as (k1 & _ & E1).
    pose proof (no_nul_drop k1 _ Hc) as Hc1. rewrite <- E1 in Hc1.
    destruct (token_loop_drop (skip_spaces (String ch rest)) true ""
                (fun _ => eq_refl)) as (k2 & _ & E2 & _).
    pose proof (token_loop_no_nul (skip_spaces (String ch rest)) true ""
                  Hc1 eq_refl) as Htok.
    destruct (token_loop true (skip_spaces (String ch rest)) "")
      as [token c'] eqn:E.
    cbn [fst snd] in E2, Htok.
    apply IH in H; [ exact H | rewrite E2; apply no_nul_drop; exact Hc1 | ].
    destruct token as [|a t]; [ exact Htoks | ].
    cbn [empty]. apply Forall_app. split; [ exact Htoks | ].
    constructor; [ | constructor ].
    split; [ exact Htok | discriminate ].
Qed.

(** Every token [getTokens] returns is one the classifier theorem covers. *)
Lemma getTokens_raw (expression : option string) (tokens : Tokens) :
  getTokens expression = Some tokens -> Forall raw_token tokens.
Proof.
  destruct expression as [s|]; simpl.
  - apply tokens_loop_raw; [ apply c_str_no_nul | constructor ].
  - intros H. injection H as <-. constructor.
Qed.

(** The lemma at "2 + 3". *)
Lemma getTokens_raw_witness : Forall raw_token ["2"; "+"; "3"].
Proof. exact (getTokens_raw (Some "2 + 3") ["2"; "+"; "3"] eq_refl). Defined.

(* ================================================================== *)
(** * A single variable *)
(* ================================================================== *)

Lemma single_variable_compiled (token : string) :
  fst (to_token_type RPN_Builder_new token 0) = TokType.var ->
  exists b,
    RPN_Builder_call RPN_Builder_new [token] = Val (true, b)
    /\ reverse_polish_notation b = [VString token].
Proof.
  intros Hvar. unfold RPN_Builder_call, scan_tokens, scan_token.
  destruct (to_token_type RPN_Builder_new token 0) as [ttype number].
  simpl in Hvar. subst ttype.
  eexists. split; reflexivity.
Qed.

(** C10.  An expression whose only token is a variable is accepted by the
    compiler, which emits the one item holding its name.  The evaluator
    pushes nothing for it, so the value stack is empty after the loop, and
    [calc::calculate] goes on to read [stack.top()] of that empty stack to
    build its [ok = true] result: nothing tests the stack before the read,
    and the call has undefined behaviour. *)
Theorem C10_single_variable_reads_empty_stack
  (pow : float -> float -> float) (order : ArgOrder)
  (equation : option string) (token : string) :
  getTokens equation = Some [token] ->
  fst (to_token_type RPN_Builder_new token 0) = TokType.var ->
  (exists b,
      RPN_Builder_call RPN_Builder_new [token] = Val (true, b)
      /\ reverse_polish_notation b = [VString token])
  /\ visit_all pow order [VString token] [] = Val []
  /\ top [] = Undef
  /\ try_block pow order [token] = Undef
  /\ calc_calculate pow order equation = UndefinedBehaviour.
Proof.
  intros Htok Hvar.
  destruct (single_variable_compiled token Hvar) as (b & Hb & Hrpn).
  split; [ exists b; auto | ].
  split; [ reflexivity | ]. split; [ reflexivity | ].
  assert (try_block pow order [token] = Undef) as Htry.
  { rewrite (try_block_compiled pow order _ _ Hb).
    unfold reverse_polish_notation in Hrpn. rewrite Hrpn. reflexivity. }
  split; [ exact Htry | ].
  unfold calc_calculate. rewrite Htok, Htry. reflexivity.
Qed.

(** C10 at "x". *)
Lemma C10_single_variable_witness :
  getTokens (Some "x") = Some ["x"]
  /\ fst (to_token_type RPN_Builder_new "x" 0) = TokType.var
  /\ calc_calculate pow_natural RightToLeft (Some "x") = UndefinedBehaviour.
Proof.
  split; [ reflexivity | ]. split; [ reflexivity | ].
  exact (proj2 (proj2 (proj2 (proj2
           (C10_single_variable_reads_empty_stack
              pow_natural RightToLeft (Some "x") "x" eq_refl eq_refl))))).
Defined.

(* ================================================================== *)
(** * Parentheses *)
(* ================================================================== *)

Lemma scan_tokens_app (b : RPN_Builder) (pre post : Tokens) :
  forall st st',
    scan_tokens b st pre = Val (Go st') ->
    scan_tokens b st (pre ++ post) = scan_tokens b st' post.
Proof.
  induction pre as [|token pre IH]; intros st st' H.
  - simpl in H. injection H as <-. reflexivity.
  - simpl in *.
    destruct (scan_token b st token) as [[st1|out msg]| |]; simpl in *;
      try discriminate.
    apply IH. exact H.
Qed.

Lemma scan_tokens_return_false (b : RPN_Builder) (post : Tokens)
  (st : scan) (token : string) (out : list Value) (msg : string) :
  scan_token b st token = Val (ReturnFalse out msg) ->
  scan_tokens b st (token :: post) = Val (ReturnFalse out msg).
Proof. intros H. simpl. rewrite H. reflexivity. Qed.

Lemma call_return_false (b : RPN_Builder) (tokens : Tokens)
  (out : list Value) (msg : string) :
  scan_tokens b scan_start tokens = Val (ReturnFalse out msg) ->
  exists b',
    RPN_Builder_call b tokens = Val (false, b') /\ RPN_Builder_what b' = msg.
Proof.
  intros H. unfold RPN_Builder_call. rewrite H. simpl.
  eexists. split; reflexivity.
Qed.

(** The close case: the loop left the stack empty, so the call fails. *)
Lemma close_on_empty_stack (st : scan) (out : list Value) :
  is_correct_token_order RPN_Builder_new (prev_ttype st) TokType.close
  = Val true ->
  pop_to_open (operations st) (rpn st) = Val ([], out) ->
  scan_token RPN_Builder_new st ")"
  = Val (ReturnFalse out "Found extra close parentheses.").
Proof.
  intros Horder Hpop. unfold scan_token.
  change (to_token_type RPN_Builder_new ")" 0) with (TokType.close, 0%float).
  cbv beta iota.
  assert (minus_kind (prev_ttype st) TokType.close = TokType.close) as ->
      by (apply minus_kind_other; discriminate).
  rewrite Horder. simpl. rewrite Hpop. reflexivity.
Qed.

Lemma stack_entry_converts (ttype : TokType.t) :
  stack_entry ttype = true ->
  TokType.eqb ttype TokType.open = false ->
  exists op, to_operation ttype = Val op.
Proof.
  destruct ttype; simpl; intros H1 H2; try discriminate; eexists; reflexivity.
Qed.

(** The drain loop stops at the first open parenthesis. *)
Lemma drain_open (ops : list TokType.t) :
  forall out,
    forallb stack_entry ops = true ->
    In TokType.open ops ->
    exists out',
      drain ops out = Val (ReturnFalse out' "Found extra open parentheses.").
Proof.
  induction ops as [|top ops IH]; intros out Hok Hin; [ contradiction | ].
  simpl in Hok. apply andb_prop in Hok. destruct Hok as [Htop Hops].
  simpl. destruct (TokType.eqb top TokType.open) eqn:E.
  - exists out. reflexivity.
  - destruct (stack_entry_converts top Htop E) as (op & ->). simpl.
    apply IH; [ exact Hops | ].
    destruct Hin as [Hin|Hin]; [ | exact Hin ].
    subst top. discriminate E.
Qed.

(** The drain loop ends on an empty stack only. *)
Lemma drain_leaves_empty (ops : list TokType.t) :
  forall out ops' out',
    drain ops out = Val (Go (ops', out')) -> ops' = [].
Proof.
  induction ops as [|top ops IH]; intros out ops' out' H.
  - simpl in H. injection H as <- _. reflexivity.
  - simpl in H. destruct (TokType.eqb top TokType.open); [ discriminate | ].
    destruct (to_operation top); simpl in H; try discriminate.
    eapply IH. exact H.
Qed.

Lemma pop_to_open_entries (ops : list TokType.t) :
  forall out ops' out',
    forallb stack_entry ops = true ->
    pop_to_open ops out = Val (ops', out') ->
    forallb stack_entry ops' = true.
Proof.
  induction ops as [|top ops IH]; intros out ops' out' Hok H.
  - simpl in H. injection H as <- _. reflexivity.
  - simpl in H. destruct (TokType.eqb top TokType.open).
    + injection H as <- _. exact Hok.
    + simpl in Hok. apply andb_prop in Hok. destruct Hok as [_ Hops].
      destruct (to_operation top); simpl in H; try discriminate.
      eapply IH; eassumption.
Qed.

Lemma pop_higher_entries (curr_prior : N) (ops : list TokType.t) :
  forall out ops' out',
    forallb stack_entry ops = true ->
    pop_higher curr_prior ops out = Val (ops', out') ->
    forallb stack_entry ops' = true.
Proof.
  induction ops as [|top ops IH]; intros out ops' out' Hok H.
  - simpl in H. destruct (curr_prior <=? 0)%N; [ discriminate | ].
    injection H as <- _. reflexivity.
  - simpl in H. destruct (priority top) as [top_prior| |]; simpl in H;
      try discriminate.
    destruct (curr_prior <=? top_prior)%N.
    + simpl in Hok. apply andb_prop in Hok. destruct Hok as [_ Hops].
      destruct (to_operation top); simpl in H; try discriminate.
      eapply IH; eassumption.
    + injection H as <- _. exact Hok.
Qed.

(** One token keeps the operator stack to parentheses and operators. *)
Lemma scan_token_entries (b : RPN_Builder) (st st' : scan) (token : string) :
  forallb stack_entry (operations st) = true ->
  scan_token b st token = Val (Go st') ->
  forallb stack_entry (operations st') = true.
Proof.
  intros Hok H. unfold scan_token in H.
  destruct (to_token_type b token 0) as [ttype number].
  destruct (is_correct_token_order b (prev_ttype st)
              (minus_kind (prev_ttype st) ttype)) as [[|]| |];
    simpl in H; try discriminate.
  - destruct (minus_kind (prev_ttype st) ttype) eqn:Ekind;
      simpl in H; try discriminate;
      try (injection H as <-; simpl; exact Hok);
      try (destruct (pop_higher _ (operations st) (rpn st))
             as [[ops out]| |] eqn:Epop; simpl in H; try discriminate;
           injection H as <-; simpl;
           eapply pop_higher_entries; eassumption).
    destruct (pop_to_open (operations st) (rpn st))
      as [[ops out]| |] eqn:Epop; simpl in H; try discriminate.
    destruct ops as [|top ops]; [ discriminate | ].
    injection H as <-. simpl.
    apply pop_to_open_entries in Epop; [ | exact Hok ].
    simpl in Epop. apply andb_prop in Epop. tauto.
  - destruct (incorrect_token_order_happened _ _ _ _); discriminate.
Qed.

Lemma scan_tokens_entries (b : RPN_Builder) (tokens : Tokens) :
  forall st st',
    forallb stack_entry (operations st) = true ->
    scan_tokens b st tokens = Val (Go st') ->
    forallb stack_entry (operations st') = true.
Proof.
  induction tokens as [|token tokens IH]; intros st st' Hok H.
  - simpl in H. injection H as <-. exact Hok.
  - simpl in H.
    destruct (scan_token b st token) as [[st1|out msg]| |] eqn:E;
      simpl in H; try discriminate.
    eapply IH; [ | exact H ].
    eapply scan_token_entries; eassumption.
Qed.

Lemma open_left_on_stack (tokens : Tokens) (st : scan) :
  scan_tokens RPN_Builder_new scan_start tokens = Val (Go st) ->
  operand_count st <> 0%N ->
  In TokType.open (operations st) ->
  exists b,
    RPN_Builder_call RPN_Builder_new tokens = Val (false, b)
    /\ RPN_Builder_what b = "Found extra open parentheses.".
Proof.
  intros Hscan Hcount Hin.
  pose proof (scan_tokens_entries _ _ scan_start st eq_refl Hscan) as Hok.
  destruct (drain_open (operations st) (rpn st) Hok Hin) as (out' & Hdrain).
  unfold RPN_Builder_call. rewrite Hscan. simpl. unfold finish.
  apply N.eqb_neq in Hcount. rewrite Hcount, Hdrain. simpl.
  eexists. split; reflexivity.
Qed.

Lemma close_without_open (pre post : Tokens) (st : scan) (out : list Value) :
  scan_tokens RPN_Builder_new scan_start pre = Val (Go st) ->
  is_correct_token_order RPN_Builder_new (prev_ttype st) TokType.close
  = Val true ->
  pop_to_open (operations st) (rpn st) = Val ([], out) ->
  exists b,
    RPN_Builder_call RPN_Builder_new (pre ++ ")" :: post) = Val (false, b)
    /\ RPN_Builder_what b = "Found extra close parentheses.".
Proof.
  intros Hscan Horder Hpop.
  apply call_return_false with (out := out).
  rewrite (scan_tokens_app _ _ _ _ _ Hscan).
  apply scan_tokens_return_false.
  apply close_on_empty_stack; assumption.
Qed.

Lemma compiled_stack_empty (tokens : Tokens) (b : RPN_Builder) :
  RPN_Builder_call RPN_Builder_new tokens = Val (true, b) ->
  exists st,
    scan_tokens RPN_Builder_new scan_start tokens = Val (Go st)
    /\ finish st = Val (Go ([], rp_notation_ b)).
Proof.
  unfold RPN_Builder_call. intros H.
  destruct (scan_tokens RPN_Builder_new scan_start tokens)
    as [[st|out msg]| |]; simpl in H; try discriminate.
  exists st. split; [ reflexivity | ].
  destruct (finish st) as [[[ops out]|out msg]| |] eqn:E;
    simpl in H; try discriminate.
  injection H as <-. simpl.
  unfold finish in E.
  destruct (operand_count st =? 0)%N; [ discriminate | ].
  rewrite (drain_leaves_empty _ _ _ _ E). reflexivity.
Qed.

(** C7 (as amended).  A close parenthesis whose pop loop empties the
    operator stack without meeting an open parenthesis makes [operator()]
    fail with the extra-close message, as for "2 + 3)".  After the scan, when
    at least one operand was counted and an open parenthesis is still on the
    operator stack, [operator()] fails with the extra-open message, as for
    "(2 + 3".  The two messages differ, and in both examples
    [calc::calculate] returns [ok = false].  When no operand was counted the
    failure is the no-operands one, whatever the operator stack holds, as
    for "(".  When [operator()] succeeds the operator stack, empty at the
    start, is empty at the end. *)
Theorem C7_parenthesis_mismatch :
  (forall pre post st out,
      scan_tokens RPN_Builder_new scan_start pre = Val (Go st) ->
      is_correct_token_order RPN_Builder_new (prev_ttype st) TokType.close
      = Val true ->
      pop_to_open (operations st) (rpn st) = Val ([], out) ->
      exists b,
        RPN_Builder_call RPN_Builder_new (pre ++ ")" :: post) = Val (false, b)
        /\ RPN_Builder_what b = "Found extra close parentheses.")
  /\ (forall tokens st,
      scan_tokens RPN_Builder_new scan_start tokens = Val (Go st) ->
      operand_count st <> 0%N ->
      In TokType.open (operations st) ->
      exists b,
        RPN_Builder_call RPN_Builder_new tokens = Val (false, b)
        /\ RPN_Builder_what b = "Found extra open parentheses.")
  /\ (forall st,
      operand_count st = 0%N ->
      finish st
      = Val (ReturnFalse (rpn st) "Expression does not contain any operands."))
  /\ rejected "(" = Some "Expression does not contain any operands."
  /\ (operations scan_start = []
      /\ forall tokens b,
        RPN_Builder_call RPN_Builder_new tokens = Val (true, b) ->
        exists st,
          scan_tokens RPN_Builder_new scan_start tokens = Val (Go st)
          /\ finish st = Val (Go ([], rp_notation_ b)))
  /\ (rejected "2 + 3)" = Some "Found extra close parentheses."
      /\ rejected "(2 + 3" = Some "Found extra open parentheses."
      /\ forall pow order,
        run pow order "2 + 3)" = Returns (failure "Incorrect expression")
        /\ run pow order "(2 + 3" = Returns (failure "Incorrect expression")).
Proof.
  split; [ exact close_without_open | ].
  split; [ exact open_left_on_stack | ].
  split; [ intros st H; unfold finish; rewrite H; reflexivity | ].
  split; [ by_evaluation | ].
  split; [ split; [ reflexivity | exact compiled_stack_empty ] | ].
  split; [ by_evaluation | ]. split; [ by_evaluation | ].
  intros pow order. split; destruct order; by_evaluation.
Qed.

(** C7 as stated fails: after "(" an open parenthesis is left on the
    operator stack, and the failure is the no-operands one, because the
    operand count is tested before the stack is drained. *)
Lemma C7_counterexample :
  ~ (forall tokens st,
        scan_tokens RPN_Builder_new scan_start tokens = Val (Go st) ->
        In TokType.open (operations st) ->
        exists b,
          RPN_Builder_call RPN_Builder_new tokens = Val (false, b)
          /\ RPN_Builder_what b = "Found extra open parentheses.").
Proof.
  intros H.
  destruct (H ["("] (mkScan [] "(" TokType.open [TokType.open] 0%N)
              eq_refl (or_introl eq_refl)) as (b & Hcall & Hwhat).
  vm_compute in Hcall. injection Hcall as <-.
  vm_compute in Hwhat. discriminate Hwhat.
Qed.

(** C7 at "2 + 3)", at "(2 + 3" and at "2". *)
Lemma C7_parenthesis_mismatch_witness :
  (exists b,
      RPN_Builder_call RPN_Builder_new ["2"; "+"; "3"; ")"] = Val (false, b)
      /\ RPN_Builder_what b = "Found extra close parentheses.")
  /\ (exists b,
      RPN_Builder_call RPN_Builder_new ["("; "2"; "+"; "3"] = Val (false, b)
      /\ RPN_Builder_what b = "Found extra open parentheses.")
  /\ (exists st,
      scan_tokens RPN_Builder_new scan_start ["2"] = Val (Go st)
      /\ finish st = Val (Go ([], [VDouble 2]))).
Proof.
  split; [ | split ].
  - exact (proj1 C7_parenthesis_mismatch ["2"; "+"; "3"] []
             (mkScan [VDouble 2; VDouble 3] "3" TokType.number
                     [TokType.add] 2%N)
             [VDouble 2; VDouble 3; VOperation Operation.add]
             eq_refl eq_refl eq_refl).
  - refine (proj1 (proj2 C7_parenthesis_mismatch) ["("; "2"; "+"; "3"]
              (mkScan [VDouble 2; VDouble 3] "3" TokType.number
                      [TokType.add; TokType.open] 2%N)
              eq_refl _ _).
    + discriminate.
    + simpl. tauto.
  - exact (proj2 (proj1 (proj2 (proj2 (proj2 (proj2
                    C7_parenthesis_mismatch)))))
             ["2"]
             (mkBuilder [VDouble 2] (tokens_map_ RPN_Builder_new)
                        (prev_curr_token_map_ RPN_Builder_new) "")
             eq_refl).
Defined.

(* ================================================================== *)
(** * The value stack after a variable-free expression *)
(* ================================================================== *)

Lemma pushes_app (xs ys : list Value) :
  pushes (xs ++ ys) = (pushes xs + pushes ys)%nat.
Proof. unfold pushes. rewrite filter_app, length_app. reflexivity. Qed.

Lemma binaries_app (xs ys : list Value) :
  binaries (xs ++ ys) = (binaries xs + binaries ys)%nat.
Proof. unfold binaries. rewrite filter_app, length_app. reflexivity. Qed.

Lemma to_operation_binary (ttype : TokType.t) (op : Operation.t) :
  to_operation ttype = Val op -> is_binary op = is_binary_kind ttype.
Proof.
  destruct ttype; simpl; intros H; try discriminate;
    injection H as <-; reflexivity.
Qed.

(** What moving one operator from the stack to the output does to the
    measures. *)
Lemma move_operator (top : TokType.t) (op : Operation.t)
  (ops : list TokType.t) (out : list Value) :
  to_operation top = Val op ->
  existsb is_name (out ++ [VOperation op]) = existsb is_name out
  /\ pushes (out ++ [VOperation op]) = pushes out
  /\ (binaries (out ++ [VOperation op]) + pending_binaries ops)%nat
     = (binaries out + pending_binaries (top :: ops))%nat.
Proof.
  intros Hop. apply to_operation_binary in Hop.
  rewrite existsb_app, pushes_app, binaries_app. simpl.
  unfold pending_binaries. simpl. rewrite <- Hop.
  split; [ rewrite orb_false_r; reflexivity | ].
  split; [ unfold pushes; simpl; lia | ].
  unfold binaries. simpl. destruct (is_binary op); simpl; lia.
Qed.

Lemma moved_refl (ops : list TokType.t) (out : list Value) :
  moved ops out ops out.
Proof. repeat split. Qed.

Lemma moved_step (top : TokType.t) (op : Operation.t)
  (ops ops' : list TokType.t) (out out' : list Value) :
  to_operation top = Val op ->
  moved ops (out ++ [VOperation op]) ops' out' ->
  moved (top :: ops) out ops' out'.
Proof.
  intros Hop (H1 & H2 & H3).
  destruct (move_operator top op ops out Hop) as (M1 & M2 & M3).
  unfold moved. rewrite H1, H2, H3, M1, M2, M3. repeat split.
Qed.

Lemma pop_to_open_moved (ops : list TokType.t) :
  forall out ops' out',
    pop_to_open ops out = Val (ops', out') -> moved ops out ops' out'.
Proof.
  induction ops as [|top ops IH]; intros out ops' out' H.
  - simpl in H. injection H as <- <-. apply moved_refl.
  - simpl in H. destruct (TokType.eqb top TokType.open).
    + injection H as <- <-. apply moved_refl.
    + destruct (to_operation top) as [op| |] eqn:Eop; simpl in H;
        try discriminate.
      eapply moved_step; [ exact Eop | apply IH; exact H ].
Qed.

Lemma pop_higher_moved (curr_prior : N) (ops : list TokType.t) :
  forall out ops' out',
    pop_higher curr_prior ops out = Val (ops', out') ->
    moved ops out ops' out'.
Proof.
  induction ops as [|top ops IH]; intros out ops' out' H.
  - simpl in H. destruct (curr_prior <=? 0)%N; [ discriminate | ].
    injection H as <- <-. apply moved_refl.
  - simpl in H. destruct (priority top) as [top_prior| |]; simpl in H;
      try discriminate.
    destruct (curr_prior <=? top_prior)%N.
    + destruct (to_operation top) as [op| |] eqn:Eop; simpl in H;
        try discriminate.
      eapply moved_step; [ exact Eop | apply IH; exact H ].
    + injection H as <- <-. apply moved_refl.
Qed.

Lemma drain_moved (ops : list TokType.t) :
  forall out ops' out',
    drain ops out = Val (Go (ops', out')) -> moved ops out ops' out'.
Proof.
  induction ops as [|top ops IH]; intros out ops' out' H.
  - simpl in H. injection H as <- <-. apply moved_refl.
  - simpl in H. destruct (TokType.eqb top TokType.open); [ discriminate | ].
    destruct (to_operation top) as [op| |] eqn:Eop; simpl in H;
      try discriminate.
    eapply moved_step; [ exact Eop | apply IH; exact H ].
Qed.

(** The order table: what may follow an operand follows nothing else. *)
Lemma order_table (prev curr : TokType.t) :
  is_correct_token_order RPN_Builder_new prev curr = Val true ->
  after_operand prev = follows_operand curr.
Proof.
  destruct prev, curr; intros H; try reflexivity;
    vm_compute in H; discriminate H.
Qed.

(** Every kind is a key of the order table: the lookup never throws. *)
Lemma order_table_total (prev curr : TokType.t) :
  curr <> TokType.undefined ->
  exists correct,
    is_correct_token_order RPN_Builder_new prev curr = Val correct.
Proof.
  intros Hcurr.
  destruct prev, curr; try contradiction; eexists; vm_compute; reflexivity.
Qed.

Lemma minus_kind_var (prev curr : TokType.t) :
  minus_kind prev curr = TokType.var -> curr = TokType.var.
Proof.
  unfold minus_kind.
  destruct ((TokType.eqb prev TokType.undefined
             || TokType.eqb prev TokType.open)
            && TokType.eqb curr TokType.sub); [ discriminate | auto ].
Qed.

Lemma pop_to_open_top (ops : list TokType.t) :
  forall out top ops' out',
    pop_to_open ops out = Val (top :: ops', out') -> top = TokType.open.
Proof.
  induction ops as [|t ops IH]; intros out top ops' out' H.
  - simpl in H. discriminate H.
  - simpl in H. destruct (TokType.eqb t TokType.open) eqn:E.
    + injection H as <- _ _. apply TokType_eqb_eq. exact E.
    + destruct (to_operation t); simpl in H; try discriminate.
      eapply IH. exact H.
Qed.

(** The operator cases of [scan_token]: the loop moves operators to the
    output and the current one is pushed. *)
Ltac operator_case H Hname Hcount Heq :=
  match type of H with
  | context [pop_higher ?p ?ops ?out] =>
      let Epop := fresh "Epop" in
      destruct (pop_higher p ops out) as [[? ?]| |] eqn:Epop;
      simpl in H; try discriminate H;
      injection H as <-;
      apply pop_higher_moved in Epop;
      destruct Epop as (? & ? & ?);
      unfold balanced, pending_binaries in *; simpl in *;
      repeat split; try congruence; try lia
  end.

(** Reading a token that is not a variable keeps the account. *)
Lemma scan_token_balanced (st st' : scan) (token : string) :
  balanced st ->
  not_variable token ->
  scan_token RPN_Builder_new st token = Val (Go st') ->
  balanced st'.
Proof.
  intros (Hname & Heq & Hcount) Hnv H.
  unfold scan_token in H. unfold not_variable in Hnv.
  destruct (to_token_type RPN_Builder_new token 0) as [ttype number].
  simpl in Hnv.
  destruct (is_correct_token_order RPN_Builder_new (prev_ttype st)
              (minus_kind (prev_ttype st) ttype)) as [[|]| |] eqn:Eord;
    simpl in H; try discriminate;
    [ | destruct (incorrect_token_order_happened _ _ _ _); discriminate ].
  apply order_table in Eord. rewrite Eord in Heq.
  destruct (minus_kind (prev_ttype st) ttype) eqn:Ekind;
    simpl in H, Heq; try discriminate;
    try (operator_case H Hname Hcount Heq; fail).
  - (* number *)
    injection H as <-. unfold balanced. simpl.
    rewrite existsb_app, pushes_app, binaries_app, Hname, Hcount, Heq.
    unfold pushes, binaries. simpl.
    repeat split; lia.
  - (* var *)
    apply minus_kind_var in Ekind. contradiction.
  - (* open *)
    injection H as <-.
    unfold balanced, pending_binaries in *; simpl in *.
    repeat split; try assumption; lia.
  - (* close *)
    destruct (pop_to_open (operations st) (rpn st))
      as [[ops out]| |] eqn:Epop; simpl in H; try discriminate.
    destruct ops as [|top ops]; [ discriminate | ].
    injection H as <-.
    pose proof (pop_to_open_top _ _ _ _ _ Epop). subst top.
    apply pop_to_open_moved in Epop. destruct Epop as (M1 & M2 & M3).
    unfold balanced, pending_binaries in *; simpl in *.
    repeat split; try congruence; lia.
  - (* sqrt *)
    injection H as <-.
    unfold balanced, pending_binaries in *; simpl in *.
    repeat split; try assumption; lia.
Qed.

Lemma scan_tokens_balanced (tokens : Tokens) :
  forall st st',
    balanced st ->
    Forall not_variable tokens ->
    scan_tokens RPN_Builder_new st tokens = Val (Go st') ->
    balanced st'.
Proof.
  induction tokens as [|token tokens IH]; intros st st' Hst Hnv H.
  - simpl in H. injection H as <-. exact Hst.
  - simpl in H. inversion Hnv as [|? ? Htoken Hrest]; subst.
    destruct (scan_token RPN_Builder_new st token) as [[st1|out msg]| |] eqn:E;
      simpl in H; try discriminate.
    eapply IH; [ | exact Hrest | exact H ].
    eapply scan_token_balanced; eassumption.
Qed.

Section Depth.

Variable pow : float -> float -> float.
Variable order : ArgOrder.

Lemma binary_operation_depth (op : float -> float -> res float)
  (stack stack' : ValueStack) (r : float) :
  binary_operation order op stack = Val (r, stack') ->
  length stack = S (S (length stack')).
Proof.
  destruct stack as [|x [|y stack]];
    destruct order; simpl; try discriminate;
    destruct (op _ _); simpl; intros H; try discriminate;
    injection H as _ <-; reflexivity.
Qed.

Lemma unary_operation_depth (op : float -> res float)
  (stack stack' : ValueStack) (r : float) :
  unary_operation op stack = Val (r, stack') ->
  length stack = S (length stack').
Proof.
  unfold unary_operation.
  destruct stack as [|x stack]; simpl; try discriminate.
  destruct (op x); simpl; intros H; try discriminate.
  injection H as _ <-. reflexivity.
Qed.

(** An operation takes its operands from the stack; its result is pushed
    by the caller. *)
Lemma calculate_depth (op : Operation.t) (stack stack' : ValueStack)
  (r : float) :
  calculate pow order op stack = Val (r, stack') ->
  length stack
  = (if is_binary op then S (S (length stack')) else S (length stack')).
Proof.
  destruct op; simpl; intros H;
    first [ eapply binary_operation_depth; exact H
          | eapply unary_operation_depth; exact H ].
Qed.

(** The depth of the stack after a sequence that raised nothing. *)
Lemma visit_all_depth (items : list Value) :
  forall stack stack',
    visit_all pow order items stack = Val stack' ->
    (length stack' + binaries items)%nat = (length stack + pushes items)%nat.
Proof.
  induction items as [|item items IH]; intros stack stack' H.
  - simpl in H. injection H as <-. reflexivity.
  - simpl in H.
    destruct (visit pow order item stack) as [stack1| |] eqn:E;
      simpl in H; try discriminate.
    apply IH in H. unfold pushes, binaries in *.
    destruct item as [op|name|d]; simpl in E |- *.
    + destruct (calculate pow order op stack) as [[r s]| |] eqn:Ec;
        simpl in E; try discriminate.
      injection E as <-. apply calculate_depth in Ec.
      destruct (is_binary op); simpl in *; lia.
    + injection E as <-. lia.
    + injection E as <-. simpl in *. lia.
Qed.

(** A sequence without names that is not empty leaves a value. *)
Lemma visit_all_leaves_value (items : list Value) :
  forall stack stack',
    existsb is_name items = false ->
    items <> [] ->
    visit_all pow order items stack = Val stack' ->
    stack' <> [].
Proof.
  induction items as [|item items IH]; intros stack stack' Hname Hne H;
    [ contradiction | ].
  simpl in H, Hname. apply orb_false_elim in Hname.
  destruct Hname as [Hitem Hitems].
  destruct (visit pow order item stack) as [stack1| |] eqn:E;
    simpl in H; try discriminate.
  destruct items as [|item' items].
  - simpl in H. injection H as <-.
    destruct item as [op|name|d]; simpl in E, Hitem; try discriminate.
    + destruct (calculate pow order op stack) as [[r s]| |];
        simpl in E; try discriminate.
      injection E as <-. discriminate.
    + injection E as <-. discriminate.
  - eapply IH; [ exact Hitems | discriminate | exact H ].
Qed.

End Depth.

Lemma Returns_ok (r r' : Result) : Returns r = Returns r' -> ok r = ok r'.
Proof.
  intros H.
  apply (f_equal (fun o => match o with Returns x => ok x | _ => true end)) in H.
  exact H.
Qed.

Lemma scan_start_balanced : balanced scan_start.
Proof. repeat split. Qed.

Lemma length_1 {A : Type} (l : list A) : length l = 1%nat -> exists x, l = [x].
Proof.
  destruct l as [|x [|y l]]; simpl; intros H; try discriminate.
  exists x. reflexivity.
Qed.

(** Compiled without a variable and evaluated without an exception, a
    sequence leaves exactly one value. *)
Lemma variable_free_depth
  (pow : float -> float -> float) (order : ArgOrder)
  (tokens : Tokens) (b : RPN_Builder) (stack : ValueStack) :
  Forall not_variable tokens ->
  RPN_Builder_call RPN_Builder_new tokens = Val (true, b) ->
  visit_all pow order (rp_notation_ b) [] = Val stack ->
  length stack = 1%nat.
Proof.
  intros Hnv Hcall Heval.
  destruct (compiled_stack_empty tokens b Hcall) as (st & Hscan & Hfinish).
  pose proof (scan_tokens_balanced tokens _ _ scan_start_balanced Hnv Hscan)
    as (Hname & Heq & Hcount).
  unfold finish in Hfinish.
  destruct (operand_count st =? 0)%N eqn:Ezero; [ discriminate | ].
  apply N.eqb_neq in Ezero.
  apply drain_moved in Hfinish. destruct Hfinish as (M1 & M2 & M3).
  unfold pending_binaries at 1 in M3. simpl in M3.
  pose proof (visit_all_depth pow order _ _ _ Heval) as Hdepth.
  simpl in Hdepth.
  assert (rp_notation_ b <> []) as Hne.
  { intros Hnil. rewrite Hnil in M2. unfold pushes at 1 in M2. simpl in M2.
    rewrite <- M2 in Hcount. simpl in Hcount. contradiction. }
  assert (stack <> []) as Hstack.
  { eapply visit_all_leaves_value; [ | exact Hne | exact Heval ].
    rewrite M1. exact Hname. }
  destruct stack as [|value stack]; [ contradiction | ].
  simpl in *. destruct (after_operand (prev_ttype st)); lia.
Qed.

(** For an expression without a variable token, [ok = true] means that the
    evaluator ended with exactly one value on its stack, and that value is
    the result. *)
Theorem variable_free_success_has_one_value
  (pow : float -> float -> float) (order : ArgOrder)
  (equation : option string) (tokens : Tokens) (r : Result) :
  getTokens equation = Some tokens ->
  Forall not_variable tokens ->
  calc_calculate pow order equation = Returns r ->
  ok r = true ->
  exists b value,
    RPN_Builder_call RPN_Builder_new tokens = Val (true, b)
    /\ visit_all pow order (reverse_polish_notation b) [] = Val [value]
    /\ r = success value.
Proof.
  intros Htok Hnv Hret Hok.
  unfold calc_calculate in Hret. rewrite Htok in Hret.
  destruct (RPN_Builder_call RPN_Builder_new tokens) as [[[|] b]| |] eqn:Ecall.
  - rewrite (try_block_compiled pow order _ _ Ecall) in Hret.
    destruct (visit_all pow order (rp_notation_ b) []) as [stack| |] eqn:Eval;
      simpl in Hret.
    + pose proof (variable_free_depth pow order _ _ _ Hnv Ecall Eval) as Hlen.
      destruct (length_1 _ Hlen) as (value & ->).
      simpl in Hret. exists b, value.
      split; [ reflexivity | ]. split; [ exact Eval | ].
      congruence.
    + apply Returns_ok in Hret. simpl in Hret. congruence.
    + discriminate Hret.
  - rewrite (try_block_rejected pow order _ _ Ecall) in Hret.
    apply Returns_ok in Hret. simpl in Hret. congruence.
  - unfold try_block in Hret. rewrite Ecall in Hret.
    apply Returns_ok in Hret. simpl in Hret. congruence.
  - unfold try_block in Hret. rewrite Ecall in Hret. discriminate Hret.
Qed.

(** The theorem at "2 + 3 * 4". *)
Lemma variable_free_success_witness :
  exists b value,
    RPN_Builder_call RPN_Builder_new ["2"; "+"; "3"; "*"; "4"] = Val (true, b)
    /\ visit_all pow_natural RightToLeft (reverse_polish_notation b) []
       = Val [value]
    /\ success 14 = success value.
Proof.
  refine (variable_free_success_has_one_value pow_natural RightToLeft
            (Some "2 + 3 * 4") ["2"; "+"; "3"; "*"; "4"] (success 14)
            eq_refl _ eq_refl eq_refl).
  repeat constructor; discriminate.
Defined.

(* ================================================================== *)
(** * Further examples of the specification *)
(* ================================================================== *)

(** The square root of a parenthesised argument, and the two token-order
    failures: an operator that comes first, and a number after a number. *)
Lemma square_root_and_order_examples
  (pow : float -> float -> float) (order : ArgOrder) :
  run pow order "sqrt(16)" = Returns (success 4)
  /\ run pow order "sqrt(2+2)" = Returns (success 2)
  /\ rejected "+ 2"
     = Some ("Incorrect order of operands and operations in the expression."
             ++ newline
             ++ "The addition sign '+' cannot be the first in an expression.")%string
  /\ rejected "2 3"
     = Some ("Incorrect order of operands and operations in the expression."
             ++ newline
             ++ "The number 3 cannot be after the number 2")%string
  /\ run pow order "+ 2" = Returns (failure "Incorrect expression")
  /\ run pow order "2 3" = Returns (failure "Incorrect expression").
Proof. repeat split; destruct order; by_evaluation. Qed.

(* ================================================================== *)
(** * What operator() never does *)
(* ================================================================== *)

(** The classifier gives one of ten kinds: never [un_min], which only the
    scan introduces, and never [undefined]. *)
Lemma to_token_type_kinds (token : string) (number : float) :
  In (fst (to_token_type RPN_Builder_new token number))
     [TokType.open; TokType.close; TokType.add; TokType.sub; TokType.mul;
      TokType.div; TokType.pow; TokType.sqrt; TokType.number; TokType.var].
Proof.
  unfold to_token_type. cbn [tokens_map_ RPN_Builder_new find_token].
  repeat match goal with
         | |- context [String.eqb ?k token] =>
             destruct (String.eqb k token); [ simpl; tauto | ]
         end.
  destruct (str_to_number (c_str token) number) as [[|] x]; simpl; tauto.
Qed.

Lemma minus_kind_defined (prev curr : TokType.t) :
  curr <> TokType.undefined -> minus_kind prev curr <> TokType.undefined.
Proof.
  unfold minus_kind. intros H.
  destruct ((TokType.eqb prev TokType.undefined
             || TokType.eqb prev TokType.open)
            && TokType.eqb curr TokType.sub); [ discriminate | exact H ].
Qed.

Lemma pop_to_open_returns (ops : list TokType.t) :
  forall out,
    forallb stack_entry ops = true ->
    exists r, pop_to_open ops out = Val r.
Proof.
  induction ops as [|top ops IH]; intros out Hok; [ eexists; reflexivity | ].
  simpl in Hok. apply andb_prop in Hok. destruct Hok as [Htop Hops].
  simpl. destruct (TokType.eqb top TokType.open) eqn:E;
    [ eexists; reflexivity | ].
  destruct (stack_entry_converts top Htop E) as (op & ->). simpl.
  apply IH. exact Hops.
Qed.

Lemma stack_entry_priority (ttype : TokType.t) :
  stack_entry ttype = true -> exists p, priority ttype = Val p.
Proof. destruct ttype; simpl; intros H; try discriminate; eexists; reflexivity. Qed.

(** With a current priority above 0 the loop stops at an open parenthesis
    or at the bottom of the stack: it never looks at the top of an empty
    stack, and never converts a parenthesis. *)
Lemma pop_higher_returns (curr_prior : N) (ops : list TokType.t) :
  forall out,
    (0 < curr_prior)%N ->
    forallb stack_entry ops = true ->
    exists r, pop_higher curr_prior ops out = Val r.
Proof.
  induction ops as [|top ops IH]; intros out Hprior Hok.
  - simpl. apply N.leb_gt in Hprior. rewrite Hprior. eexists; reflexivity.
  - simpl in Hok. apply andb_prop in Hok. destruct Hok as [Htop Hops].
    simpl. destruct (stack_entry_priority top Htop) as (p & Hp).
    rewrite Hp. simpl.
    destruct (curr_prior <=? p)%N eqn:Ele; [ | eexists; reflexivity ].
    destruct (TokType.eqb top TokType.open) eqn:E.
    + apply TokType_eqb_eq in E. subst top. simpl in Hp.
      injection Hp as <-. apply N.leb_le in Ele. lia.
    + destruct (stack_entry_converts top Htop E) as (op & ->). simpl.
      apply IH; assumption.
Qed.

Lemma scan_token_returns (st : scan) (token : string) :
  forallb stack_entry (operations st) = true ->
  exists r, scan_token RPN_Builder_new st token = Val r.
Proof.
  intros Hok. unfold scan_token.
  pose proof (to_token_type_kinds token 0) as Hkind.
  destruct (to_token_type RPN_Builder_new token 0) as [ttype number].
  cbn [fst] in Hkind.
  assert (ttype <> TokType.undefined) as Hdef.
  { intros ->. simpl in Hkind. intuition discriminate. }
  pose proof (minus_kind_defined (prev_ttype st) ttype Hdef) as Hcurr.
  destruct (order_table_total (prev_ttype st) _ Hcurr) as (correct & ->).
  simpl. destruct correct; simpl.
  - destruct (minus_kind (prev_ttype st) ttype) eqn:Ekind;
      try (eexists; reflexivity); try contradiction;
      try (simpl;
           match goal with
           | |- context [pop_higher ?p ?ops ?out] =>
               destruct (pop_higher_returns p ops out) as ([ops' out'] & ->);
               [ lia | exact Hok | simpl; eexists; reflexivity ]
           end).
    destruct (pop_to_open_returns (operations st) (rpn st) Hok)
      as ([ops' out'] & ->).
    simpl. destruct ops'; eexists; reflexivity.
  - unfold incorrect_token_order_happened.
    destruct (TokType.eqb (minus_kind (prev_ttype st) ttype)
                TokType.undefined) eqn:E.
    + apply TokType_eqb_eq in E. contradiction.
    + simpl. eexists; reflexivity.
Qed.

Lemma scan_tokens_returns (tokens : Tokens) :
  forall st,
    forallb stack_entry (operations st) = true ->
    exists r, scan_tokens RPN_Builder_new st tokens = Val r.
Proof.
  induction tokens as [|token tokens IH]; intros st Hok;
    [ eexists; reflexivity | ].
  simpl. destruct (scan_token_returns st token Hok) as ([st'|out msg] & E);
    rewrite E; simpl; [ | eexists; reflexivity ].
  apply IH. eapply scan_token_entries; eassumption.
Qed.

Lemma drain_returns (ops : list TokType.t) :
  forall out,
    forallb stack_entry ops = true -> exists r, drain ops out = Val r.
Proof.
  induction ops as [|top ops IH]; intros out Hok; [ eexists; reflexivity | ].
  simpl in Hok. apply andb_prop in Hok. destruct Hok as [Htop Hops].
  simpl. destruct (TokType.eqb top TokType.open) eqn:E;
    [ eexists; reflexivity | ].
  destruct (stack_entry_converts top Htop E) as (op & ->). simpl.
  apply IH. exact Hops.
Qed.

(** The call of [operator()] ends with a flag. *)
Lemma call_returns (tokens : Tokens) :
  exists flag b, RPN_Builder_call RPN_Builder_new tokens = Val (flag, b).
Proof.
  unfold RPN_Builder_call.
  destruct (scan_tokens_returns tokens scan_start eq_refl) as ([st|out msg] & E);
    rewrite E; simpl; [ | eexists; eexists; reflexivity ].
  pose proof (scan_tokens_entries _ _ scan_start st eq_refl E) as Hok.
  unfold finish. destruct (operand_count st =? 0)%N;
    [ simpl; eexists; eexists; reflexivity | ].
  destruct (drain_returns (operations st) (rpn st) Hok) as ([[ops out]|out msg] & ->);
    simpl; eexists; eexists; reflexivity.
Qed.

(** [operator()] returns for every list of tokens: none of its defensive
    [throw]s is reached ([to_operation], [priority], the [undefined] case,
    the lookup in the order table), and [operations.top()] is never read on
    an empty stack. *)
Theorem operator_call_returns (tokens : Tokens) :
  exists flag b, RPN_Builder_call RPN_Builder_new tokens = Val (flag, b).
Proof. exact (call_returns tokens). Qed.

(* ================================================================== *)
(** * What calc::calculate can return *)
(* ================================================================== *)

Section Outcomes.

Variable pow : float -> float -> float.
Variable order : ArgOrder.

(** The evaluator throws two texts only, and has no undefined step. *)
Lemma calculate_outcomes (op : Operation.t) (stack : ValueStack) :
  (exists r, calculate pow order op stack = Val r)
  \/ calculate pow order op stack = Throw "Incorrect expression"
  \/ calculate pow order op stack = Throw "Divizion on zero is not defined".
Proof.
  destruct op, order, stack as [|x [|y stack]]; simpl; auto;
    try (left; eexists; reflexivity);
    unfold div_lambda;
    match goal with
    | |- context [PrimFloat.eqb ?b 0] => destruct (PrimFloat.eqb b 0)
    end; simpl; auto; left; eexists; reflexivity.
Qed.

Lemma visit_all_outcomes (items : list Value) :
  forall stack,
    (exists stack', visit_all pow order items stack = Val stack')
    \/ visit_all pow order items stack = Throw "Incorrect expression"
    \/ visit_all pow order items stack
       = Throw "Divizion on zero is not defined".
Proof.
  induction items as [|item items IH]; intros stack;
    [ left; eexists; reflexivity | ].
  simpl. destruct item as [op|name|d]; simpl; try apply IH.
  destruct (calculate_outcomes op stack) as [([r s] & ->)|[-> | ->]];
    simpl; auto.
Qed.

(** The loop over the items composes: a sequence in two parts is the second
    part run on the stack the first part leaves. *)
Lemma visit_all_app (xs ys : list Value) :
  forall stack,
    visit_all pow order (xs ++ ys) stack
    = (stack' <- visit_all pow order xs stack ;; visit_all pow order ys stack').
Proof.
  induction xs as [|x xs IH]; intros stack; [ reflexivity | ].
  simpl. destruct (visit pow order x stack); simpl; auto.
Qed.

(** Once the stack holds a value it is never empty again. *)
Lemma visit_all_stays_nonempty (items : list Value) :
  forall stack stack',
    stack <> [] ->
    visit_all pow order items stack = Val stack' ->
    stack' <> [].
Proof.
  induction items as [|item items IH]; intros stack stack' Hne H.
  - simpl in H. injection H as <-. exact Hne.
  - simpl in H.
    destruct (visit pow order item stack) as [stack1| |] eqn:E;
      simpl in H; try discriminate.
    eapply IH; [ | exact H ].
    destruct item as [op|name|d]; simpl in E.
    + destruct (calculate pow order op stack) as [[r s]| |];
        simpl in E; try discriminate.
      injection E as <-. discriminate.
    + injection E as <-. exact Hne.
    + injection E as <-. discriminate.
Qed.

(** The stack is empty at the end exactly for a sequence of names. *)
Lemma visit_all_empty_iff (items : list Value) :
  visit_all pow order items [] = Val [] <-> forallb is_name items = true.
Proof.
  induction items as [|item items IH]; [ simpl; tauto | ].
  simpl. destruct item as [op|name|d]; simpl.
  - split; [ | discriminate ].
    intros H.
    destruct (calculate pow order op []) as [[r s]| |] eqn:E;
      simpl in H; try discriminate.
    exfalso. destruct op, order; discriminate E.
  - exact IH.
  - split; [ | discriminate ].
    intros H. exfalso.
    apply (visit_all_stays_nonempty items [d] []);
      [ discriminate | exact H | reflexivity ].
Qed.

End Outcomes.

(** Every result [calc::calculate] returns is a success with an empty
    message, or a failure with value 0 and one of two texts: "Incorrect
    expression" (a rejected expression, or a pop from an empty stack) or the
    division-by-zero text.  The texts [operator()] composes and "Something
    went wrong" are never returned. *)
Theorem returned_results
  (pow : float -> float -> float) (order : ArgOrder)
  (equation : option string) (r : Result) :
  calc_calculate pow order equation = Returns r ->
  r = success (result r)
  \/ r = failure "Incorrect expression"
  \/ r = failure "Divizion on zero is not defined".
Proof.
  unfold calc_calculate.
  destruct (getTokens equation) as [tokens|]; [ | discriminate ].
  unfold try_block.
  destruct (call_returns tokens) as ([|] & b & ->); simpl.
  - destruct (visit_all_outcomes pow order (reverse_polish_notation b) [])
      as [(stack & ->)|[-> | ->]]; simpl.
    + destruct stack as [|value stack]; simpl; [ discriminate | ].
      intros H. injection H as <-. left. reflexivity.
    + intros H. injection H as <-. right. left. reflexivity.
    + intros H. injection H as <-. right. right. reflexivity.
  - intros H. injection H as <-. right. left. reflexivity.
Qed.

(** The theorem at "2 + 3 * 4", "2 +" and "(". *)
Lemma returned_results_witness :
  (success 14 = success (result (success 14))
   \/ success 14 = failure "Incorrect expression"
   \/ success 14 = failure "Divizion on zero is not defined")
  /\ calc_calculate pow_natural RightToLeft (Some "2 +")
     = Returns (failure "Incorrect expression").
Proof.
  split.
  - exact (returned_results pow_natural RightToLeft (Some "2 + 3 * 4")
             (success 14) eq_refl).
  - reflexivity.
Defined.

(** [calc::calculate] reads the top of an empty stack exactly when the
    compiler succeeds and its output holds variable names only. *)
Theorem undefined_read_iff
  (pow : float -> float -> float) (order : ArgOrder)
  (equation : option string) :
  calc_calculate pow order equation = UndefinedBehaviour
  <-> exists tokens b,
        getTokens equation = Some tokens
        /\ RPN_Builder_call RPN_Builder_new tokens = Val (true, b)
        /\ forallb is_name (reverse_polish_notation b) = true.
Proof.
  unfold calc_calculate. split.
  - destruct (getTokens equation) as [tokens|]; [ | discriminate ].
    unfold try_block.
    destruct (call_returns tokens) as ([|] & b & E); rewrite E; simpl;
      [ | discriminate ].
    destruct (visit_all_outcomes pow order (reverse_polish_notation b) [])
      as [(stack & Ev)|[Ev | Ev]]; rewrite Ev; simpl; try discriminate.
    destruct stack as [|value stack]; simpl; [ | discriminate ].
    intros _. exists tokens, b.
    split; [ reflexivity | ]. split; [ exact E | ].
    apply (visit_all_empty_iff pow order). exact Ev.
  - intros (tokens & b & -> & Ecall & Hnames).
    unfold try_block. rewrite Ecall. simpl.
    apply (visit_all_empty_iff pow order) in Hnames. rewrite Hnames.
    reflexivity.
Qed.

(** Without a variable token the behaviour of [calc::calculate] is
    defined. *)
Theorem variable_free_is_defined
  (pow : float -> float -> float) (order : ArgOrder)
  (equation : option string) (tokens : Tokens) :
  getTokens equation = Some tokens ->
  Forall not_variable tokens ->
  exists r, calc_calculate pow order equation = Returns r.
Proof.
  intros Htok Hnv. unfold calc_calculate. rewrite Htok.
  unfold try_block.
  destruct (call_returns tokens) as ([|] & b & E); rewrite E; simpl;
    [ | eexists; reflexivity ].
  destruct (visit_all_outcomes pow order (reverse_polish_notation b) [])
    as [(stack & Ev)|[Ev | Ev]]; rewrite Ev; simpl;
    try (eexists; reflexivity).
  pose proof (variable_free_depth pow order tokens b stack Hnv E Ev) as Hlen.
  destruct stack as [|value stack]; [ discriminate Hlen | ].
  simpl. eexists; reflexivity.
Qed.

(** The theorem at "5 / 0". *)
Lemma variable_free_is_defined_witness :
  exists r, calc_calculate pow_natural RightToLeft (Some "5 / 0") = Returns r.
Proof.
  refine (variable_free_is_defined pow_natural RightToLeft (Some "5 / 0")
            ["5"; "/"; "0"] eq_refl _).
  repeat constructor; discriminate.
Defined.

(* ================================================================== *)
(** * strtod at the start of a number *)
(* ================================================================== *)

(** Where the tokenizer calls it, on a digit or a point, [strtod] skips
    nothing and reads no sign, infinity or NaN: the subject is a hexadecimal
    or a decimal number. *)
Lemma strtod_numeric_start (ch : ascii) (r : string) :
  isdigit ch || Ascii.eqb ch "." = true ->
  strtod (String ch r)
  = match first_of (hexadecimal_subject (String ch r))
            (decimal_subject (String ch r)) with
    | Some (x, n) => (x, n)
    | None => (0%float, 0%nat)
    end.
Proof.
  intros H.
  destruct ch as [[] [] [] [] [] [] [] []]; try discriminate H;
    unfold strtod; cbn [span isspace nat_of_ascii];
    reflexivity.
Qed.

(** A character decided by its eight bits. *)
Ltac by_bits c := destruct c as [[] [] [] [] [] [] [] []].

Lemma isdigit_no_space (c : ascii) : isdigit c = true -> isspace c = false.
Proof. intros H. by_bits c; try discriminate H; reflexivity. Qed.

Lemma isxdigit_no_space (c : ascii) : isxdigit c = true -> isspace c = false.
Proof. intros H. by_bits c; try discriminate H; reflexivity. Qed.

Lemma is_symbol_no_space (c : ascii) :
  is_symbol_token c = true -> isspace c = false.
Proof. intros H. by_bits c; try discriminate H; reflexivity. Qed.

Lemma isspace_tolower (c : ascii) : isspace c = true -> tolower c = c.
Proof. intros H. by_bits c; try discriminate H; reflexivity. Qed.

Lemma drop_add (n m : nat) (s : string) : drop (n + m) s = drop m (drop n s).
Proof.
  revert s. induction n as [|n IH]; intros s; [ reflexivity | ].
  destruct s as [|c r]; simpl; [ destruct m; reflexivity | apply IH ].
Qed.

Lemma no_space_substring_add (n m : nat) (s : string) :
  no_space (substring 0 n s) = true ->
  no_space (substring 0 m (drop n s)) = true ->
  no_space (substring 0 (n + m) s) = true.
Proof.
  revert s. induction n as [|n IH]; intros s H1 H2; [ exact H2 | ].
  destruct s as [|c r]; [ reflexivity | ].
  simpl in *. apply andb_prop in H1. destruct H1 as [Hc Hr].
  rewrite Hc. simpl. apply IH; assumption.
Qed.

(** What [span] takes off the front of a string. *)
Lemma span_consumed (p : ascii -> bool) (s : string) :
  (forall c, p c = true -> isspace c = false) ->
  no_space (substring 0 (length (fst (span p s))) s) = true
  /\ drop (length (fst (span p s))) s = snd (span p s).
Proof.
  intros Hp. induction s as [|c r IH]; [ split; reflexivity | ].
  simpl. destruct (p c) eqn:E; [ | split; reflexivity ].
  destruct (span p r) as [ds r']. simpl in *.
  rewrite (Hp c E). simpl. exact IH.
Qed.

Lemma sign_of_consumed (s : string) :
  let '(_, ns, r) := sign_of s in
  no_space (substring 0 ns s) = true /\ drop ns s = r.
Proof.
  destruct s as [|c r]; [ split; reflexivity | ].
  unfold sign_of. by_bits c; split; try reflexivity;
    simpl; destruct r; reflexivity.
Qed.

Lemma exponent_part_consumed (mark : ascii) (s : string) :
  isspace mark = false ->
  no_space (substring 0 (snd (exponent_part mark s)) s) = true.
Proof.
  intros Hmark. destruct s as [|c r]; [ reflexivity | ].
  simpl. destruct (Ascii.eqb (tolower c) mark) eqn:E;
    [ | reflexivity ].
  assert (isspace c = false) as Hc.
  { destruct (isspace c) eqn:Hs; [ | reflexivity ].
    rewrite (isspace_tolower c Hs) in E. apply Ascii.eqb_eq in E.
    subst c. congruence. }
  pose proof (sign_of_consumed r) as Hsign.
  destruct (sign_of r) as [[neg ns] r1]. destruct Hsign as [Hs1 Hs2].
  pose proof (span_consumed isdigit r1 isdigit_no_space) as [Hd _].
  destruct (span isdigit r1) as [ds r2]. simpl in Hd.
  destruct ds as [|d ds]; [ reflexivity | ].
  cbn [snd]. change (1 + ns + length (d :: ds))%nat
    with (S (ns + length (d :: ds))).
  cbn [substring no_space]. rewrite Hc. simpl negb. cbn [andb].
  apply no_space_substring_add; [ exact Hs1 | ].
  rewrite Hs2. exact Hd.
Qed.

Lemma mantissa_part_consumed (p : ascii -> bool) (s : string)
  (ip fp : list ascii) (n : nat) (r : string) :
  (forall c, p c = true -> isspace c = false) ->
  mantissa_part p s = Some (ip, fp, n, r) ->
  no_space (substring 0 n s) = true /\ drop n s = r.
Proof.
  intros Hp. unfold mantissa_part.
  pose proof (span_consumed p s Hp) as [H1 H2].
  destruct (span p s) as [ip' r1]. simpl in H1, H2.
  assert (forall fp' pt r2,
             no_space (substring 0 (pt + length fp') r1) = true ->
             drop (pt + length fp') r1 = r2 ->
             match ip' ++ fp' with
             | [] => None
             | _ :: _ =>
                 Some (ip', fp', (length ip' + pt + length fp')%nat, r2)
             end = Some (ip, fp, n, r) ->
             no_space (substring 0 n s) = true /\ drop n s = r) as Hend.
  { intros fp' pt r2 Hns Hdrop Hsome.
    destruct (ip' ++ fp'); [ discriminate | ].
    injection Hsome as <- <- <- <-.
    rewrite <- Nat.add_assoc. split.
    - apply no_space_substring_add; [ exact H1 | rewrite H2; exact Hns ].
    - rewrite drop_add, H2. exact Hdrop. }
  destruct r1 as [|c r1'].
  - apply (Hend [] 0%nat ""); reflexivity.
  - destruct (Ascii.eqb c ".") eqn:Ec.
    + apply Ascii.eqb_eq in Ec. subst c.
      pose proof (span_consumed p r1' Hp) as [H3 H4].
      destruct (span p r1') as [fp' r2]. simpl in H3, H4.
      apply (Hend fp' 1%nat r2); simpl; assumption.
    + assert (match c with
              | "."%char => let (fp0, r2) := span p r1' in (fp0, 1%nat, r2)
              | _ => ([], 0%nat, String c r1')
              end = ([], 0%nat, String c r1')) as ->.
      { by_bits c; try reflexivity; discriminate Ec. }
      apply (Hend [] 0%nat (String c r1')); reflexivity.
Qed.

Lemma decimal_subject_consumed (s : string) (x : float) (n : nat) :
  decimal_subject s = Some (x, n) ->
  no_space (substring 0 n s) = true.
Proof.
  unfold decimal_subject.
  destruct (mantissa_part isdigit s) as [[[[ip fp] n0] r]|] eqn:E;
    [ | discriminate ].
  apply (mantissa_part_consumed _ _ _ _ _ _ isdigit_no_space) in E.
  destruct E as [E1 E2].
  pose proof (exponent_part_consumed "e" r eq_refl) as He.
  destruct (exponent_part "e" r) as [e ne]. simpl in He.
  intros H. injection H as _ <-.
  apply no_space_substring_add; [ exact E1 | rewrite E2; exact He ].
Qed.

Lemma hexadecimal_subject_consumed (s : string) (x : float) (n : nat) :
  hexadecimal_subject s = Some (x, n) ->
  no_space (substring 0 n s) = true.
Proof.
  unfold hexadecimal_subject.
  destruct s as [|c0 [|c1 r]]; try discriminate.
  - by_bits c0; discriminate.
  - assert (forall o : option (float * nat),
               (o = Some (x, n) ->
                no_space (substring 0 n (String "0" (String c1 r))) = true) ->
               match c0 with
               | "0"%char => o
               | _ => None
               end = Some (x, n) ->
               no_space (substring 0 n (String c0 (String c1 r))) = true)
      as Hc0.
    { intros o Ho. by_bits c0; try discriminate; exact Ho. }
    apply Hc0. clear Hc0.
    destruct (Ascii.eqb (tolower c1) "x") eqn:Ex; [ | discriminate ].
    assert (isspace c1 = false) as Hc1.
    { destruct (isspace c1) eqn:Hs; [ | reflexivity ].
      rewrite (isspace_tolower c1 Hs) in Ex. apply Ascii.eqb_eq in Ex.
      subst c1. discriminate Hs. }
    destruct (mantissa_part isxdigit r) as [[[[ip fp] n0] r']|] eqn:E;
      [ | discriminate ].
    apply (mantissa_part_consumed _ _ _ _ _ _ isxdigit_no_space) in E.
    destruct E as [E1 E2].
    pose proof (exponent_part_consumed "p" r' eq_refl) as He.
    destruct (exponent_part "p" r') as [e ne]. simpl in He.
    intros H. injection H as _ <-.
    change (2 + n0 + ne)%nat with (S (S (n0 + ne))).
    cbn [substring no_space]. rewrite Hc1. simpl negb. cbn [andb].
    apply no_space_substring_add; [ exact E1 | rewrite E2; exact He ].
Qed.

(** The text [strtod] takes for a token holds no white space. *)
Lemma strtod_token_no_space (ch : ascii) (r : string) :
  isdigit ch || Ascii.eqb ch "." = true ->
  no_space (substring 0 (snd (strtod (String ch r))) (String ch r)) = true.
Proof.
  intros H. rewrite (strtod_numeric_start ch r H).
  unfold first_of.
  destruct (hexadecimal_subject (String ch r)) as [[x n]|] eqn:Eh.
  { eapply hexadecimal_subject_consumed. exact Eh. }
  destruct (decimal_subject (String ch r)) as [[x n]|] eqn:Ed;
    [ | reflexivity ].
  eapply decimal_subject_consumed. exact Ed.
Qed.

(* ================================================================== *)
(** * The tokens and the text *)
(* ================================================================== *)

Lemma append_empty_r (s : string) : (s ++ "")%string = s.
Proof. induction s as [|c r IH]; simpl; [ | rewrite IH ]; reflexivity. Qed.

Lemma append_assoc (a b c : string) :
  ((a ++ b) ++ c)%string = (a ++ (b ++ c))%string.
Proof. induction a as [|x a IH]; simpl; [ | rewrite IH ]; reflexivity. Qed.

Lemma substring_drop (n : nat) (s : string) :
  (substring 0 n s ++ drop (String.length (substring 0 n s)) s)%string = s.
Proof.
  revert s. induction n as [|n IH]; intros s.
  - destruct s; reflexivity.
  - destruct s as [|c r]; simpl; [ reflexivity | ]. rewrite IH. reflexivity.
Qed.

Lemma no_space_append (a b : string) :
  no_space (a ++ b) = no_space a && no_space b.
Proof.
  induction a as [|c a IH]; simpl; [ reflexivity | ].
  rewrite IH, andb_assoc. reflexivity.
Qed.

Lemma without_spaces_append (a b : string) :
  without_spaces (a ++ b)
  = (without_spaces a ++ without_spaces b)%string.
Proof.
  induction a as [|c a IH]; simpl; [ reflexivity | ].
  destruct (isspace c); simpl; rewrite IH; reflexivity.
Qed.

Lemma without_spaces_no_space (s : string) :
  no_space s = true -> without_spaces s = s.
Proof.
  induction s as [|c r IH]; simpl; intros H; [ reflexivity | ].
  apply andb_prop in H. destruct H as [Hc Hr].
  apply negb_true_iff in Hc. rewrite Hc, (IH Hr). reflexivity.
Qed.

Lemma without_spaces_skip (c : string) :
  without_spaces (skip_spaces c) = without_spaces c.
Proof.
  induction c as [|ch r IH]; simpl; [ reflexivity | ].
  destruct (isspace ch) eqn:E; [ exact IH | ].
  simpl. rewrite E. reflexivity.
Qed.

Lemma joined_app (xs ys : Tokens) :
  joined (xs ++ ys) = (joined xs ++ joined ys)%string.
Proof.
  induction xs as [|x xs IH]; simpl; [ reflexivity | ].
  unfold joined in *. simpl. rewrite IH, append_assoc. reflexivity.
Qed.

(** One run of the inner loop: the token is the old token and the
    characters read, which hold no white space. *)
Lemma token_loop_split (c : string) :
  forall at_start token,
    (at_start = true -> token = "") ->
    exists consumed,
      fst (token_loop at_start c token) = (token ++ consumed)%string
      /\ c = (consumed ++ snd (token_loop at_start c token))%string
      /\ no_space consumed = true.
Proof.
  induction c as [|ch r IH]; intros at_start token Hstart.
  - exists "". simpl. rewrite append_empty_r. auto.
  - cbn [token_loop].
    destruct (at_start && is_symbol_token ch) eqn:Esym.
    { apply andb_prop in Esym. destruct Esym as [_ Hsym].
      exists (String ch ""). cbn [fst snd]. unfold push_back.
      split; [ reflexivity | ]. split; [ reflexivity | ].
      simpl. rewrite (is_symbol_no_space ch Hsym). reflexivity. }
    destruct (at_start && (isdigit ch || Ascii.eqb ch ".")) eqn:Enum.
    { apply andb_prop in Enum. destruct Enum as [Hs Hnum].
      rewrite (Hstart Hs).
      exists (substring 0 (snd (strtod (String ch r))) (String ch r)).
      cbn [fst snd].
      split; [ reflexivity | ].
      split; [ symmetry; apply substring_drop | ].
      apply strtod_token_no_space. exact Hnum. }
    destruct (isspace ch || is_symbol_token ch) eqn:Estop.
    { exists "". cbn [fst snd]. rewrite append_empty_r. auto. }
    apply orb_false_elim in Estop. destruct Estop as [Hsp _].
    destruct (IH false (push_back token ch)) as (consumed & H1 & H2 & H3);
      [ discriminate | ].
    exists (String ch consumed).
    split; [ | split ].
    + rewrite H1. unfold push_back. rewrite append_assoc. reflexivity.
    + simpl. rewrite <- H2. reflexivity.
    + simpl. rewrite Hsp, H3. reflexivity.
Qed.

Lemma tokens_loop_joined (fuel : nat) :
  forall c tokens r,
    Forall (fun t => no_space t = true) tokens ->
    tokens_loop fuel c tokens = Some r ->
    joined r = (joined tokens ++ without_spaces c)%string
    /\ Forall (fun t => no_space t = true) r.
Proof.
  induction fuel as [|fuel IH]; intros c tokens r Hok H.
  - destruct c; simpl in H; [ | discriminate ]. injection H as <-.
    simpl. rewrite append_empty_r. auto.
  - destruct c as [|ch rest].
    { injection H as <-. simpl. rewrite append_empty_r. auto. }
    cbn [tokens_loop] in H.
    destruct (token_loop_split (skip_spaces (String ch rest)) true ""
                (fun _ => eq_refl)) as (consumed & H1 & H2 & H3).
    destruct (token_loop true (skip_spaces (String ch rest)) "")
      as [token c'] eqn:E.
    cbn [fst snd] in H1, H2. simpl in H1. subst token.
    rewrite <- (without_spaces_skip (String ch rest)), H2.
    rewrite without_spaces_append, (without_spaces_no_space _ H3).
    destruct consumed as [|a t].
    + apply IH in H; [ | exact Hok ]. exact H.
    + cbn [empty] in H. apply IH in H.
      * destruct H as [Hj Hf]. split; [ | exact Hf ].
        rewrite Hj, joined_app. unfold joined at 2. simpl.
        rewrite append_empty_r, append_assoc. reflexivity.
      * apply Forall_app. split; [ exact Hok | ].
        constructor; [ exact H3 | constructor ].
Qed.

(** The tokens [getTokens] returns, written one after the other, are the
    text without its white space: the tokenizer drops white space and
    nothing else, and adds nothing.  No token holds white space. *)
Theorem getTokens_joined (s : string) (tokens : Tokens) :
  getTokens (Some s) = Some tokens ->
  joined tokens = without_spaces (c_str s)
  /\ Forall (fun t => no_space t = true) tokens.
Proof.
  unfold getTokens. intros H.
  apply tokens_loop_joined in H; [ exact H | constructor ].
Qed.

(** The theorem at " sqrt( 1.5e3+x ) ". *)
Lemma getTokens_joined_witness :
  joined ["sqrt"; "("; "1.5e3"; "+"; "x"; ")"] = "sqrt(1.5e3+x)"
  /\ Forall (fun t => no_space t = true)
            ["sqrt"; "("; "1.5e3"; "+"; "x"; ")"].
Proof.
  exact (getTokens_joined " sqrt( 1.5e3+x ) "
           ["sqrt"; "("; "1.5e3"; "+"; "x"; ")"] eq_refl).
Defined.

(* ================================================================== *)
(** * When the tokenizer returns *)
(* ================================================================== *)

Lemma hexadecimal_subject_two (s : string) (x : float) (n : nat) :
  hexadecimal_subject s = Some (x, n) -> (2 <= n)%nat.
Proof.
  unfold hexadecimal_subject.
  destruct s as [|c0 [|c1 r]]; try discriminate.
  - by_bits c0; discriminate.
  - assert (forall o : option (float * nat),
               (o = Some (x, n) -> (2 <= n)%nat) ->
               match c0 with
               | "0"%char => o
               | _ => None
               end = Some (x, n) -> (2 <= n)%nat) as Hc0.
    { intros o Ho. by_bits c0; try discriminate; exact Ho. }
    apply Hc0. clear Hc0.
    destruct (Ascii.eqb (tolower c1) "x"); [ | discriminate ].
    destruct (mantissa_part isxdigit r) as [[[[ip fp] n0] r']|];
      [ | discriminate ].
    destruct (exponent_part "p" r') as [e ne].
    intros H. injection H as _ <-. lia.
Qed.

Lemma decimal_subject_digit (ch : ascii) (r : string) :
  isdigit ch = true ->
  exists x n, decimal_subject (String ch r) = Some (x, n) /\ (1 <= n)%nat.
Proof.
  intros Hd. unfold decimal_subject, mantissa_part.
  cbn [span]. rewrite Hd.
  destruct (span isdigit r) as [ds r1].
  destruct (match r1 with
            | String "." r0 => let (fp, r2) := span isdigit r0 in (fp, 1%nat, r2)
            | _ => ([], 0%nat, r1)
            end) as [[fp pt] r2].
  cbn [app]. destruct (exponent_part "e" r2) as [e ne].
  eexists. eexists. split; [ reflexivity | simpl; lia ].
Qed.

(** On a digit [strtod] converts at least that digit. *)
Lemma strtod_digit (ch : ascii) (r : string) :
  isdigit ch = true -> (1 <= snd (strtod (String ch r)))%nat.
Proof.
  intros Hd. rewrite strtod_numeric_start by (rewrite Hd; reflexivity).
  unfold first_of.
  destruct (hexadecimal_subject (String ch r)) as [[x n]|] eqn:Eh.
  { apply hexadecimal_subject_two in Eh. simpl. lia. }
  destruct (decimal_subject_digit ch r Hd) as (x & n & -> & Hn). exact Hn.
Qed.

Lemma mantissa_part_point (r : string) :
  mantissa_part isdigit (String "." r)
  = let (fp, r2) := span isdigit r in
    match fp with
    | [] => None
    | _ :: _ => Some ([], fp, S (length fp), r2)
    end.
Proof.
  unfold mantissa_part.
  change (span isdigit (String "." r)) with (@nil ascii, String "." r).
  cbv beta iota. destruct (span isdigit r) as [fp r2].
  destruct fp; reflexivity.
Qed.

(** On a point before a digit [strtod] converts at least the two. *)
Lemma strtod_point_digit (r : string) :
  digit_first r = true -> (1 <= snd (strtod (String "." r)))%nat.
Proof.
  intros Hd. rewrite strtod_numeric_start by reflexivity.
  change (hexadecimal_subject (String "." r)) with (@None (float * nat)).
  unfold first_of, decimal_subject. rewrite mantissa_part_point.
  destruct r as [|d r]; [ discriminate Hd | ]. simpl in Hd.
  cbn [span]. rewrite Hd.
  destruct (span isdigit r) as [ds r1].
  destruct (exponent_part "e" r1) as [e ne]. simpl. lia.
Qed.

(** On a point that no digit follows [strtod] converts nothing. *)
Lemma strtod_point_alone (r : string) :
  digit_first r = false -> snd (strtod (String "." r)) = 0%nat.
Proof.
  intros Hd. rewrite strtod_numeric_start by reflexivity.
  change (hexadecimal_subject (String "." r)) with (@None (float * nat)).
  unfold first_of, decimal_subject. rewrite mantissa_part_point.
  destruct r as [|d r]; [ reflexivity | ].
  simpl in Hd. cbn [span]. rewrite Hd. reflexivity.
Qed.

Lemma substring_0_S_nonempty (n : nat) (c : ascii) (r : string) :
  (1 <= n)%nat -> substring 0 n (String c r) <> "".
Proof. destruct n; [ lia | ]. simpl. discriminate. Qed.

Lemma append_nonempty (a b : string) : a <> "" -> (a ++ b)%string <> "".
Proof. destruct a; [ contradiction | discriminate ]. Qed.

(** A token that starts on a character other than white space is not
    empty, unless it starts on a point that no digit follows. *)
Lemma first_token_nonempty (ch : ascii) (r : string) :
  isspace ch = false ->
  (Ascii.eqb ch "." = true -> digit_first r = true) ->
  fst (token_loop true (String ch r) "") <> "".
Proof.
  intros Hsp Hpoint. cbn [token_loop andb].
  destruct (is_symbol_token ch) eqn:Esym; [ discriminate | ].
  destruct (isdigit ch || Ascii.eqb ch ".") eqn:Enum.
  - cbn [fst]. apply substring_0_S_nonempty.
    destruct (isdigit ch) eqn:Ed; [ apply strtod_digit; exact Ed | ].
    simpl in Enum. pose proof (Hpoint Enum) as Hd.
    apply Ascii.eqb_eq in Enum. subst ch.
    apply strtod_point_digit. exact Hd.
  - rewrite Hsp. cbn [orb].
    destruct (token_loop_split r false (push_back "" ch))
      as (consumed & H1 & _); [ discriminate | ].
    rewrite H1. apply append_nonempty. discriminate.
Qed.

Lemma skip_spaces_first (c : string) :
  match skip_spaces c with
  | String ch _ => isspace ch = false
  | EmptyString => True
  end.
Proof.
  induction c as [|ch r IH]; simpl; [ exact I | ].
  destruct (isspace ch) eqn:E; [ exact IH | exact E ].
Qed.

Lemma points_lead_digits_drop (k : nat) (c : string) :
  points_lead_digits c = true -> points_lead_digits (drop k c) = true.
Proof.
  revert c. induction k as [|k IH]; intros c H; [ exact H | ].
  destruct c as [|ch r]; [ reflexivity | ].
  simpl in H. apply andb_prop in H. destruct H as [_ H]. simpl.
  apply IH. exact H.
Qed.

(** When every point is followed by a digit, an iteration of the outer loop
    shortens what is left to read. *)
Lemma outer_iteration_advances (c : string) :
  c <> "" ->
  points_lead_digits c = true ->
  let (token, c') := token_loop true (skip_spaces c) "" in
  (String.length c' < String.length c)%nat
  /\ points_lead_digits c' = true.
Proof.
  intros Hne Hpts.
  pose proof (outer_iteration c) as Hit.
  pose proof (skip_spaces_first c) as Hfirst.
  destruct (skip_spaces_drop c) as (k1 & _ & E1).
  destruct (token_loop_drop (skip_spaces c) true "" (fun _ => eq_refl))
    as (k2 & _ & E2 & _).
  pose proof (points_lead_digits_drop k1 c Hpts) as Hpts1.
  rewrite <- E1 in Hpts1.
  destruct (token_loop true (skip_spaces c) "") as [token c'] eqn:E.
  cbn [snd] in E2.
  split; [ | rewrite E2; apply points_lead_digits_drop; exact Hpts1 ].
  destruct Hit as [Hlt | [Hc Htok]]; [ exact Hlt | exfalso ].
  subst c' token.
  assert (skip_spaces c = c) as Hskip.
  { destruct (token_loop_split (skip_spaces c) true "" (fun _ => eq_refl))
      as (consumed & H1 & H2 & _).
    rewrite E in H1, H2. cbn [fst snd] in H1, H2. simpl in H1.
    subst consumed. exact H2. }
  rewrite Hskip in *.
  destruct c as [|ch r]; [ contradiction | ].
  apply (first_token_nonempty ch r Hfirst).
  - intros Hp. simpl in Hpts. rewrite Hp in Hpts.
    apply andb_prop in Hpts. tauto.
  - rewrite E. reflexivity.
Qed.

Lemma tokens_loop_returns (fuel : nat) :
  forall c tokens,
    points_lead_digits c = true ->
    (String.length c <= fuel)%nat ->
    exists r, tokens_loop fuel c tokens = Some r.
Proof.
  induction fuel as [|fuel IH]; intros c tokens Hpts Hlen.
  - destruct c; simpl in Hlen; [ eexists; reflexivity | lia ].
  - destruct c as [|ch rest]; [ eexists; reflexivity | ].
    cbn [tokens_loop].
    pose proof (outer_iteration_advances (String ch rest)
                  ltac:(discriminate) Hpts) as Hadv.
    destruct (token_loop true (skip_spaces (String ch rest)) "")
      as [token c'].
    destruct Hadv as [Hlt Hpts'].
    apply IH; [ exact Hpts' | simpl in Hlen, Hlt; lia ].
Qed.

(** [getTokens] returns for every text in which each point is followed by
    a digit; in particular for every text without a point. *)
Theorem getTokens_returns (s : string) :
  points_lead_digits (c_str s) = true ->
  exists tokens, getTokens (Some s) = Some tokens.
Proof.
  intros H. unfold getTokens. apply tokens_loop_returns; [ exact H | lia ].
Qed.

(** The theorem at "a.5 + .25 * 0x1.8". *)
Lemma getTokens_returns_witness :
  exists tokens, getTokens (Some "a.5 + .25 * 0x1.8") = Some tokens.
Proof. exact (getTokens_returns "a.5 + .25 * 0x1.8" eq_refl). Defined.

(** A text whose first character after the leading white space is a point
    that no digit follows stops the tokenizer for ever: [strtod] converts
    nothing, no token is stored, the pointer stays, and [calc::calculate]
    never returns. *)
Theorem leading_point_never_ends
  (pow : float -> float -> float) (order : ArgOrder) (s r : string) :
  skip_spaces (c_str s) = String "." r ->
  digit_first r = false ->
  getTokens (Some s) = None
  /\ calc_calculate pow order (Some s) = NeverReturns.
Proof.
  intros Hskip Hd.
  assert (getTokens (Some s) = None) as Hnone.
  { unfold getTokens.
    assert (token_loop true (String "." r) "" = ("", String "." r)) as Hstuck.
    { cbn [token_loop andb]. change (is_symbol_token ".") with false.
      change (isdigit "." || Ascii.eqb "." ".") with true. cbv iota.
      rewrite (strtod_point_alone r Hd). reflexivity. }
    destruct (c_str s) as [|ch rest] eqn:Ec; [ discriminate Hskip | ].
    change (String.length (String ch rest)) with (S (String.length rest)).
    cbn [tokens_loop]. rewrite Hskip, Hstuck. cbn [empty].
    apply tokens_loop_stuck; [ discriminate | ].
    assert (skip_spaces (String "." r) = String "." r) as -> by reflexivity.
    exact Hstuck. }
  split; [ exact Hnone | ].
  unfold calc_calculate. rewrite Hnone. reflexivity.
Qed.

(** The theorem at "  .e5 + 1". *)
Lemma leading_point_never_ends_witness :
  getTokens (Some "  .e5 + 1") = None
  /\ calc_calculate pow_natural RightToLeft (Some "  .e5 + 1") = NeverReturns.
Proof.
  exact (leading_point_never_ends pow_natural RightToLeft
           "  .e5 + 1" "e5 + 1" eq_refl eq_refl).
Defined.

(* ================================================================== *)
(** * What the pop loops move *)
(* ================================================================== *)

Lemma popped_refl (ops : list TokType.t) (out : list Value) :
  popped ops out ops out.
Proof. exists []. simpl. rewrite app_nil_r. auto. Qed.

Lemma popped_step (top : TokType.t) (op : Operation.t)
  (ops ops' : list TokType.t) (out out' : list Value) :
  to_operation top = Val op ->
  popped ops (out ++ [VOperation op]) ops' out' ->
  popped (top :: ops) out ops' out'.
Proof.
  intros Hop (kinds & -> & -> & Hk).
  exists (top :: kinds). split; [ reflexivity | ]. split.
  - unfold operations_of. simpl. rewrite Hop. simpl.
    rewrite <- app_assoc. reflexivity.
  - simpl. rewrite Hk. destruct top; simpl in *; try discriminate; reflexivity.
Qed.

Lemma pop_to_open_popped (ops : list TokType.t) :
  forall out ops' out',
    pop_to_open ops out = Val (ops', out') -> popped ops out ops' out'.
Proof.
  induction ops as [|top ops IH]; intros out ops' out' H.
  - simpl in H. injection H as <- <-. apply popped_refl.
  - simpl in H. destruct (TokType.eqb top TokType.open).
    + injection H as <- <-. apply popped_refl.
    + destruct (to_operation top) as [op| |] eqn:Eop; simpl in H;
        try discriminate.
      eapply popped_step; [ exact Eop | apply IH; exact H ].
Qed.

Lemma pop_higher_popped (curr_prior : N) (ops : list TokType.t) :
  forall out ops' out',
    pop_higher curr_prior ops out = Val (ops', out') ->
    popped ops out ops' out'.
Proof.
  induction ops as [|top ops IH]; intros out ops' out' H.
  - simpl in H. destruct (curr_prior <=? 0)%N; [ discriminate | ].
    injection H as <- <-. apply popped_refl.
  - simpl in H. destruct (priority top) as [top_prior| |]; simpl in H;
      try discriminate.
    destruct (curr_prior <=? top_prior)%N.
    + destruct (to_operation top) as [op| |] eqn:Eop; simpl in H;
        try discriminate.
      eapply popped_step; [ exact Eop | apply IH; exact H ].
    + injection H as <- <-. apply popped_refl.
Qed.

Lemma drain_popped (ops : list TokType.t) :
  forall out ops' out',
    drain ops out = Val (Go (ops', out')) -> popped ops out ops' out'.
Proof.
  induction ops as [|top ops IH]; intros out ops' out' H.
  - simpl in H. injection H as <- <-. apply popped_refl.
  - simpl in H. destruct (TokType.eqb top TokType.open); [ discriminate | ].
    destruct (to_operation top) as [op| |] eqn:Eop; simpl in H;
      try discriminate.
    eapply popped_step; [ exact Eop | apply IH; exact H ].
Qed.

Lemma operations_of_operands (kinds : list TokType.t) :
  filter is_operand_item (operations_of kinds) = [].
Proof.
  induction kinds as [|k kinds IH]; [ reflexivity | ].
  unfold operations_of in *. simpl.
  destruct (to_operation k); simpl; exact IH.
Qed.

Lemma operations_of_length (kinds : list TokType.t) :
  forallb is_operator kinds = true ->
  length (operations_of kinds) = length kinds.
Proof.
  induction kinds as [|k kinds IH]; intros H; [ reflexivity | ].
  simpl in H. apply andb_prop in H. destruct H as [Hk Hks].
  unfold operations_of in *. simpl.
  destruct k; simpl in *; try discriminate; rewrite (IH Hks); reflexivity.
Qed.

Lemma operators_no_open (kinds : list TokType.t) :
  forallb is_operator kinds = true -> pending_opens kinds = 0%nat.
Proof.
  induction kinds as [|k kinds IH]; intros H; [ reflexivity | ].
  simpl in H. apply andb_prop in H. destruct H as [Hk Hks].
  unfold pending_opens in *. simpl.
  destruct k; simpl in *; try discriminate; exact (IH Hks).
Qed.

(** What follows from [popped]: the operands of the output, the sizes, and
    the open parentheses on the stack are untouched. *)
Lemma popped_facts (ops ops' : list TokType.t) (out out' : list Value) :
  popped ops out ops' out' ->
  filter is_operand_item out' = filter is_operand_item out
  /\ (length out' + length ops')%nat = (length out + length ops)%nat
  /\ pending_opens ops' = pending_opens ops.
Proof.
  intros (kinds & -> & -> & Hk).
  split; [ | split ].
  - rewrite filter_app, operations_of_operands, app_nil_r. reflexivity.
  - rewrite !length_app, (operations_of_length _ Hk). lia.
  - unfold pending_opens. rewrite filter_app, length_app.
    fold (pending_opens kinds). rewrite (operators_no_open _ Hk). reflexivity.
Qed.

(* ================================================================== *)
(** * The output and the tokens *)
(* ================================================================== *)

Lemma find_token_in (m : list (string * TokType.t)) (token : string)
  (ttype : TokType.t) :
  find_token m token = Some ttype -> In (token, ttype) m.
Proof.
  induction m as [|[k v] m IH]; simpl; [ discriminate | ].
  destruct (String.eqb k token) eqn:E.
  - apply String.eqb_eq in E. intros H. injection H as <-. left. congruence.
  - intros H. right. apply IH. exact H.
Qed.

(** A keyword kind comes from the keyword's text only. *)
Lemma kind_of_keyword (token : string) (ttype : TokType.t) :
  kind_of token = ttype ->
  ttype <> TokType.number -> ttype <> TokType.var ->
  In (token, ttype) (tokens_map_ RPN_Builder_new).
Proof.
  unfold kind_of, to_token_type. intros H Hn Hv.
  destruct (find_token (tokens_map_ RPN_Builder_new) token) as [k|] eqn:E.
  - simpl in H. subst k. apply find_token_in. exact E.
  - destruct (str_to_number (c_str token) 0) as [[|] x];
      simpl in H; congruence.
Qed.

Lemma kind_open_text (token : string) :
  kind_of token = TokType.open <-> token = "(".
Proof.
  split; [ | intros ->; reflexivity ].
  intros H. apply kind_of_keyword in H; try discriminate.
  simpl in H.
  repeat (destruct H as [H|H]; [ try discriminate H; injection H; auto | ]).
  contradiction.
Qed.

Lemma kind_close_text (token : string) :
  kind_of token = TokType.close <-> token = ")".
Proof.
  split; [ | intros ->; reflexivity ].
  intros H. apply kind_of_keyword in H; try discriminate.
  simpl in H.
  repeat (destruct H as [H|H]; [ try discriminate H; injection H; auto | ]).
  contradiction.
Qed.

Lemma occurrences_snoc (text : string) (read : Tokens) (token : string) :
  occurrences text (read ++ [token])
  = (occurrences text read + (if string_dec token text then 1 else 0))%nat.
Proof.
  unfold occurrences. rewrite count_occ_app. simpl.
  destruct (string_dec token text); reflexivity.
Qed.

Lemma operands_of_snoc (read : Tokens) (token : string) :
  operands_of (read ++ [token]) = operands_of read ++ operand_item token.
Proof.
  unfold operands_of. rewrite flat_map_app. simpl.
  rewrite app_nil_r. reflexivity.
Qed.

(** The kind the scan works with differs from the classifier's only for a
    minus sign. *)
Lemma minus_kind_cases (prev curr : TokType.t) :
  minus_kind prev curr = curr
  \/ (curr = TokType.sub /\ minus_kind prev curr = TokType.un_min).
Proof.
  unfold minus_kind.
  destruct (TokType.eqb prev TokType.undefined
            || TokType.eqb prev TokType.open); simpl; auto.
  destruct (TokType.eqb curr TokType.sub) eqn:E; auto.
  apply TokType_eqb_eq in E. auto.
Qed.

(** Whether the token is a parenthesis, read off its kind. *)
Ltac settle_parentheses token Hopen Hclose :=
  let e := fresh "e" in
  destruct (string_dec token "(") as [e|e];
  [ try (apply Hopen in e; discriminate e)
  | try (exfalso; apply e; apply Hopen; reflexivity) ];
  let e' := fresh "e" in
  destruct (string_dec token ")") as [e'|e'];
  try (apply Hclose in e'; discriminate e');
  try (exfalso; apply e'; apply Hclose; reflexivity).

(** The operator cases of [scan_token], for [traced]. *)
Ltac traced_operator H Hops Hlen Hpar :=
  match type of H with
  | context [pop_higher ?p ?ops ?out] =>
      let Epop := fresh "Epop" in
      destruct (pop_higher p ops out) as [[? ?]| |] eqn:Epop;
      simpl in H; try discriminate H;
      injection H as <-;
      apply pop_higher_popped, popped_facts in Epop;
      destruct Epop as (? & ? & ?);
      unfold pending_opens in *; simpl in *;
      rewrite ?app_nil_r;
      repeat split; try congruence; try lia
  end.

(** Reading one token keeps the account of [traced]. *)
Lemma scan_token_traced (read : Tokens) (st st' : scan) (token : string) :
  traced read st ->
  scan_token RPN_Builder_new st token = Val (Go st') ->
  traced (read ++ [token]) st'.
Proof.
  intros (Hops & Hlen & Hpar) H.
  unfold traced. rewrite operands_of_snoc, !occurrences_snoc, length_app.
  cbn [length]. unfold operand_item.
  pose proof (kind_open_text token) as Hopen.
  pose proof (kind_close_text token) as Hclose.
  unfold kind_of in Hopen, Hclose. unfold scan_token in H.
  destruct (to_token_type RPN_Builder_new token 0) as [ttype number].
  cbn [fst] in Hopen, Hclose.
  destruct (is_correct_token_order RPN_Builder_new (prev_ttype st)
              (minus_kind (prev_ttype st) ttype)) as [[|]| |];
    simpl in H; try discriminate;
    [ | destruct (incorrect_token_order_happened _ _ _ _); discriminate ].
  destruct (minus_kind_cases (prev_ttype st) ttype) as [Ek | [Esub Ek]];
    rewrite Ek in H; [ | subst ttype ].
  - destruct ttype; simpl in H; try discriminate;
      settle_parentheses token Hopen Hclose;
      try (traced_operator H Hops Hlen Hpar; fail).
    + (* number *)
      injection H as <-. simpl. rewrite filter_app, length_app, Hops.
      simpl. repeat split; lia.
    + (* var *)
      injection H as <-. simpl. rewrite filter_app, length_app, Hops.
      simpl. repeat split; lia.
    + (* open *)
      injection H as <-. unfold pending_opens in *. simpl.
      rewrite app_nil_r. repeat split; try assumption; lia.
    + (* close *)
      destruct (pop_to_open (operations st) (rpn st))
        as [[ops out]| |] eqn:Epop; simpl in H; try discriminate.
      destruct ops as [|top ops]; [ discriminate | ].
      injection H as <-.
      pose proof (pop_to_open_top _ _ _ _ _ Epop). subst top.
      apply pop_to_open_popped, popped_facts in Epop.
      destruct Epop as (P1 & P2 & P3).
      unfold pending_opens in *. simpl in *.
      rewrite app_nil_r. repeat split; try congruence; lia.
    + (* sqrt *)
      injection H as <-. unfold pending_opens in *. simpl.
      rewrite app_nil_r. repeat split; try assumption; lia.
  - (* a minus read as unary *)
    simpl in H. settle_parentheses token Hopen Hclose.
    traced_operator H Hops Hlen Hpar.
Qed.

Lemma scan_tokens_traced (tokens : Tokens) :
  forall read st st',
    traced read st ->
    scan_tokens RPN_Builder_new st tokens = Val (Go st') ->
    traced (read ++ tokens) st'.
Proof.
  induction tokens as [|token tokens IH]; intros read st st' Hst H.
  - simpl in H. injection H as <-. rewrite app_nil_r. exact Hst.
  - simpl in H.
    destruct (scan_token RPN_Builder_new st token) as [[st1|out msg]| |] eqn:E;
      simpl in H; try discriminate.
    replace (read ++ token :: tokens) with ((read ++ [token]) ++ tokens)
      by (rewrite <- app_assoc; reflexivity).
    eapply IH; [ | exact H ].
    eapply scan_token_traced; eassumption.
Qed.

Lemma scan_start_traced : traced [] scan_start.
Proof. repeat split. Qed.

(** The account at the end of a successful call. *)
Lemma compiled_traced (tokens : Tokens) (b : RPN_Builder) :
  RPN_Builder_call RPN_Builder_new tokens = Val (true, b) ->
  filter is_operand_item (rp_notation_ b) = operands_of tokens
  /\ (length (rp_notation_ b) + 2 * occurrences ")" tokens)%nat
     = length tokens
  /\ occurrences "(" tokens = occurrences ")" tokens.
Proof.
  intros Hcall.
  destruct (compiled_stack_empty tokens b Hcall) as (st & Hscan & Hfinish).
  pose proof (scan_tokens_traced tokens [] _ _ scan_start_traced Hscan)
    as (Hops & Hlen & Hpar).
  simpl in Hops, Hlen, Hpar.
  unfold finish in Hfinish.
  destruct (operand_count st =? 0)%N; [ discriminate | ].
  apply drain_popped, popped_facts in Hfinish.
  destruct Hfinish as (P1 & P2 & P3).
  unfold pending_opens in P3 at 1. simpl in P2, P3.
  split; [ congruence | ]. split; lia.
Qed.

(** In the output of a successful call the operands are the operand tokens
    of the expression, each once and in the order of the expression: a
    number token as its value, a variable token as its name.  The compiler
    reorders operators only. *)
Theorem operands_keep_their_order (tokens : Tokens) (b : RPN_Builder) :
  RPN_Builder_call RPN_Builder_new tokens = Val (true, b) ->
  filter is_operand_item (reverse_polish_notation b) = operands_of tokens.
Proof. intros H. exact (proj1 (compiled_traced tokens b H)). Qed.

(** The theorem at the tokens of "7 - x * (2 + 9)". *)
Lemma operands_keep_their_order_witness :
  filter is_operand_item
    [VDouble 7; VString "x"; VDouble 2; VDouble 9;
     VOperation Operation.add; VOperation Operation.mul;
     VOperation Operation.sub]
  = operands_of ["7"; "-"; "x"; "*"; "("; "2"; "+"; "9"; ")"].
Proof.
  exact (operands_keep_their_order
           ["7"; "-"; "x"; "*"; "("; "2"; "+"; "9"; ")"]
           (mkBuilder
              [VDouble 7; VString "x"; VDouble 2; VDouble 9;
               VOperation Operation.add; VOperation Operation.mul;
               VOperation Operation.sub]
              (tokens_map_ RPN_Builder_new)
              (prev_curr_token_map_ RPN_Builder_new) "")
           eq_refl).
Defined.

(** An expression the compiler accepts has as many open as close
    parentheses. *)
Theorem accepted_parentheses_match (tokens : Tokens) (b : RPN_Builder) :
  RPN_Builder_call RPN_Builder_new tokens = Val (true, b) ->
  occurrences "(" tokens = occurrences ")" tokens.
Proof. intros H. exact (proj2 (proj2 (compiled_traced tokens b H))). Qed.

(** The theorem at the tokens of "((2))". *)
Lemma accepted_parentheses_match_witness :
  occurrences "(" ["("; "("; "2"; ")"; ")"]
  = occurrences ")" ["("; "("; "2"; ")"; ")"].
Proof.
  exact (accepted_parentheses_match ["("; "("; "2"; ")"; ")"]
           (mkBuilder [VDouble 2] (tokens_map_ RPN_Builder_new)
                      (prev_curr_token_map_ RPN_Builder_new) "")
           eq_refl).
Defined.

(** In a successful call every token other than a parenthesis gives
    exactly one item of the output: nothing is dropped and nothing is
    emitted twice. *)
Theorem one_item_per_token (tokens : Tokens) (b : RPN_Builder) :
  RPN_Builder_call RPN_Builder_new tokens = Val (true, b) ->
  (length (reverse_polish_notation b)
   + occurrences "(" tokens + occurrences ")" tokens)%nat
  = length tokens.
Proof.
  intros H. destruct (compiled_traced tokens b H) as (_ & Hlen & Hpar).
  unfold reverse_polish_notation. lia.
Qed.

(** The theorem at the tokens of "sqrt(4) * 1". *)
Lemma one_item_per_token_witness :
  (length [VDouble 4; VOperation Operation.sqrt; VDouble 1;
           VOperation Operation.mul]
   + occurrences "(" ["sqrt"; "("; "4"; ")"; "*"; "1"]
   + occurrences ")" ["sqrt"; "("; "4"; ")"; "*"; "1"])%nat
  = length ["sqrt"; "("; "4"; ")"; "*"; "1"].
Proof.
  exact (one_item_per_token ["sqrt"; "("; "4"; ")"; "*"; "1"]
           (mkBuilder
              [VDouble 4; VOperation Operation.sqrt; VDouble 1;
               VOperation Operation.mul]
              (tokens_map_ RPN_Builder_new)
              (prev_curr_token_map_ RPN_Builder_new) "")
           eq_refl).
Defined.

(* ================================================================== *)
(** * Two operators *)
(* ================================================================== *)

(** A binary operation on a stack of at least two values. *)
Lemma calculate_binary (pow : float -> float -> float) (op : Operation.t)
  (x y : float) (stack : ValueStack) :
  is_binary op = true ->
  calculate pow RightToLeft op (y :: x :: stack)
  = (r <- binary_result pow op x y ;; Val (r, stack))
  /\ calculate pow LeftToRight op (y :: x :: stack)
     = (r <- binary_result pow op y x ;; Val (r, stack)).
Proof. destruct op; simpl; intros H; try discriminate H; split; reflexivity. Qed.

(** The output for two binary operators between three numbers. *)
Lemma two_operators_output
  (ta tb tc : string) (a b c : float) (o1 o2 : Operation.t) :
  is_binary o1 = true -> is_binary o2 = true ->
  to_token_type RPN_Builder_new ta 0 = (TokType.number, a) ->
  to_token_type RPN_Builder_new tb 0 = (TokType.number, b) ->
  to_token_type RPN_Builder_new tc 0 = (TokType.number, c) ->
  exists bld,
    RPN_Builder_call RPN_Builder_new
      [ta; operator_text o1; tb; operator_text o2; tc] = Val (true, bld)
    /\ reverse_polish_notation bld
       = if (rank o1 <? rank o2)%N
         then [VDouble a; VDouble b; VDouble c;
               VOperation o2; VOperation o1]
         else [VDouble a; VDouble b; VOperation o1;
               VDouble c; VOperation o2].
Proof.
  intros H1 H2 Ha Hb Hc.
  unfold RPN_Builder_call. cbn [scan_tokens]. unfold scan_token.
  rewrite Ha, Hb, Hc.
  destruct o1; try discriminate H1; destruct o2; try discriminate H2;
    eexists; split; reflexivity.
Qed.

(** In [a o1 b o2 c], with binary operators and number tokens, the second
    operator is applied first exactly when its priority is higher than the
    first one's: the output is [a b c o2 o1] then, and [a b o1 c o2]
    otherwise, so operators of the same priority group to the left. *)
Theorem two_operators_compiled
  (ta tb tc : string) (a b c : float) (o1 o2 : Operation.t) :
  is_binary o1 = true -> is_binary o2 = true ->
  to_token_type RPN_Builder_new ta 0 = (TokType.number, a) ->
  to_token_type RPN_Builder_new tb 0 = (TokType.number, b) ->
  to_token_type RPN_Builder_new tc 0 = (TokType.number, c) ->
  exists bld,
    RPN_Builder_call RPN_Builder_new
      [ta; operator_text o1; tb; operator_text o2; tc] = Val (true, bld)
    /\ reverse_polish_notation bld
       = if (rank o1 <? rank o2)%N
         then [VDouble a; VDouble b; VDouble c;
               VOperation o2; VOperation o1]
         else [VDouble a; VDouble b; VOperation o1;
               VDouble c; VOperation o2].
Proof. exact (two_operators_output ta tb tc a b c o1 o2). Qed.

(** The value of [a o1 b o2 c].  When the second argument of
    [binary_operation]'s call is evaluated first, it is [a o1 (b o2 c)] if
    the second operator has the higher priority and [(a o1 b) o2 c]
    otherwise, a division by zero ending the evaluation where it occurs.
    When the first argument is evaluated first, every operation takes its
    operands the other way round. *)
Theorem two_operators_value
  (pow : float -> float -> float)
  (ta tb tc : string) (a b c : float) (o1 o2 : Operation.t) :
  is_binary o1 = true -> is_binary o2 = true ->
  to_token_type RPN_Builder_new ta 0 = (TokType.number, a) ->
  to_token_type RPN_Builder_new tb 0 = (TokType.number, b) ->
  to_token_type RPN_Builder_new tc 0 = (TokType.number, c) ->
  try_block pow RightToLeft
    [ta; operator_text o1; tb; operator_text o2; tc]
  = (if (rank o1 <? rank o2)%N
     then y <- binary_result pow o2 b c ;;
          x <- binary_result pow o1 a y ;; Val (success x)
     else x <- binary_result pow o1 a b ;;
          y <- binary_result pow o2 x c ;; Val (success y))
  /\ try_block pow LeftToRight
       [ta; operator_text o1; tb; operator_text o2; tc]
     = (if (rank o1 <? rank o2)%N
        then y <- binary_result pow o2 c b ;;
             x <- binary_result pow o1 y a ;; Val (success x)
        else x <- binary_result pow o1 b a ;;
             y <- binary_result pow o2 c x ;; Val (success y)).
Proof.
  intros H1 H2 Ha Hb Hc.
  destruct (two_operators_output ta tb tc a b c o1 o2 H1 H2 Ha Hb Hc)
    as (bld & Hcall & Hrpn).
  unfold reverse_polish_notation in Hrpn.
  rewrite !(try_block_compiled pow _ _ _ Hcall), Hrpn.
  destruct (rank o1 <? rank o2)%N; split;
    cbn [visit_all visit bind];
    repeat
      (first [ rewrite (proj1 (calculate_binary pow _ _ _ _ H1))
             | rewrite (proj2 (calculate_binary pow _ _ _ _ H1))
             | rewrite (proj1 (calculate_binary pow _ _ _ _ H2))
             | rewrite (proj2 (calculate_binary pow _ _ _ _ H2)) ];
       match goal with
       | |- context [binary_result pow ?o ?x ?y] =>
           destruct (binary_result pow o x y); cbn [visit_all visit bind];
           try reflexivity
       end).
Qed.

(** The theorems at "8 - 2 * 3" with the second argument evaluated first:
    the product is taken first, and the result is 8 - 6. *)
Lemma two_operators_witness :
  (exists bld,
      RPN_Builder_call RPN_Builder_new ["8"; "-"; "2"; "*"; "3"]
      = Val (true, bld)
      /\ reverse_polish_notation bld
         = [VDouble 8; VDouble 2; VDouble 3;
            VOperation Operation.mul; VOperation Operation.sub])
  /\ try_block pow_natural RightToLeft ["8"; "-"; "2"; "*"; "3"]
     = Val (success 2).
Proof.
  split.
  - exact (two_operators_compiled "8" "2" "3" 8 2 3
             Operation.sub Operation.mul
             eq_refl eq_refl eq_refl eq_refl eq_refl).
  - reflexivity.
Defined.

(** The value theorem at "8 / 4 / 2": equal priorities group to the left. *)
Lemma two_operators_value_witness :
  try_block pow_natural RightToLeft ["8"; "/"; "4"; "/"; "2"]
  = Val (success 1).
Proof.
  exact (proj1 (two_operators_value pow_natural "8" "4" "2" 8 4 2
                  Operation.div Operation.div
                  eq_refl eq_refl eq_refl eq_refl eq_refl)).
Defined.

(* ================================================================== *)
(** * Expressions that end too early *)
(* ================================================================== *)

(** The operator cases of [scan_token], for [accounted]. *)
Ltac accounted_operator H :=
  match type of H with
  | context [pop_higher ?p ?ops ?out] =>
      let Epop := fresh "Epop" in
      destruct (pop_higher p ops out) as [[? ?]| |] eqn:Epop;
      simpl in H; try discriminate H;
      injection H as <-;
      pose proof (pop_higher_moved _ _ _ _ _ Epop) as (_ & _ & ?);
      apply pop_higher_popped, popped_facts in Epop;
      destruct Epop as (Epop & _ & _);
      apply (f_equal (@length Value)) in Epop;
      unfold accounted, pending_binaries in *; simpl in *;
      repeat split; try congruence; try lia
  end.

Lemma scan_token_accounted (st st' : scan) (token : string) :
  accounted st ->
  scan_token RPN_Builder_new st token = Val (Go st') ->
  accounted st'.
Proof.
  intros (Heq & Hcount) H. unfold scan_token in H.
  destruct (to_token_type RPN_Builder_new token 0) as [ttype number].
  destruct (is_correct_token_order RPN_Builder_new (prev_ttype st)
              (minus_kind (prev_ttype st) ttype)) as [[|]| |] eqn:Eord;
    simpl in H; try discriminate;
    [ | destruct (incorrect_token_order_happened _ _ _ _); discriminate ].
  apply order_table in Eord. rewrite Eord in Heq.
  destruct (minus_kind (prev_ttype st) ttype) eqn:Ekind;
    simpl in H, Heq; try discriminate;
    try (accounted_operator H; fail).
  - (* number *)
    injection H as <-. unfold accounted. simpl.
    rewrite filter_app, length_app, binaries_app, Hcount, Heq.
    unfold binaries. simpl. split; lia.
  - (* var *)
    injection H as <-. unfold accounted. simpl.
    rewrite filter_app, length_app, binaries_app, Hcount, Heq.
    unfold binaries. simpl. split; lia.
  - (* open *)
    injection H as <-.
    unfold accounted, pending_binaries in *; simpl in *.
    split; [ lia | assumption ].
  - (* close *)
    destruct (pop_to_open (operations st) (rpn st))
      as [[ops out]| |] eqn:Epop; simpl in H; try discriminate.
    destruct ops as [|top ops]; [ discriminate | ].
    injection H as <-.
    pose proof (pop_to_open_top _ _ _ _ _ Epop). subst top.
    pose proof (pop_to_open_moved _ _ _ _ Epop) as (_ & _ & M3).
    apply pop_to_open_popped, popped_facts in Epop.
    destruct Epop as (P1 & _ & _).
    unfold accounted, pending_binaries in *; simpl in *.
    split; [ | congruence ]. rewrite P1. lia.
  - (* sqrt *)
    injection H as <-.
    unfold accounted, pending_binaries in *; simpl in *.
    split; [ lia | assumption ].
Qed.

Lemma scan_tokens_accounted (tokens : Tokens) :
  forall st st',
    accounted st ->
    scan_tokens RPN_Builder_new st tokens = Val (Go st') ->
    accounted st'.
Proof.
  induction tokens as [|token tokens IH]; intros st st' Hst H.
  - simpl in H. injection H as <-. exact Hst.
  - simpl in H.
    destruct (scan_token RPN_Builder_new st token) as [[st1|out msg]| |] eqn:E;
      simpl in H; try discriminate.
    eapply IH; [ | exact H ].
    eapply scan_token_accounted; eassumption.
Qed.

(** After a token is read its kind is the previous kind, a minus being
    read as unary or binary. *)
Lemma scan_token_prev (st st' : scan) (token : string) :
  scan_token RPN_Builder_new st token = Val (Go st') ->
  prev_ttype st' = minus_kind (prev_ttype st) (kind_of token).
Proof.
  unfold scan_token, kind_of.
  destruct (to_token_type RPN_Builder_new token 0) as [ttype number].
  cbn [fst].
  destruct (is_correct_token_order RPN_Builder_new (prev_ttype st)
              (minus_kind (prev_ttype st) ttype)) as [[|]| |];
    simpl; try discriminate;
    [ | destruct (incorrect_token_order_happened _ _ _ _); discriminate ].
  destruct (minus_kind (prev_ttype st) ttype); simpl; try discriminate;
    try (intros H; injection H as <-; reflexivity);
    try (match goal with
         | |- context [pop_higher ?p ?ops ?out] =>
             destruct (pop_higher p ops out) as [[? ?]| |]
         end; simpl; try discriminate;
         intros H; injection H as <-; reflexivity).
  destruct (pop_to_open (operations st) (rpn st)) as [[ops out]| |];
    simpl; try discriminate.
  destruct ops; [ discriminate | ].
  intros H. injection H as <-. reflexivity.
Qed.

Lemma scan_tokens_last (pre : Tokens) (last : string) :
  forall st st',
    scan_tokens RPN_Builder_new st (pre ++ [last]) = Val (Go st') ->
    exists prev, prev_ttype st' = minus_kind prev (kind_of last).
Proof.
  induction pre as [|token pre IH]; intros st st' H.
  - simpl in H.
    destruct (scan_token RPN_Builder_new st last) as [[st1|out msg]| |] eqn:E;
      simpl in H; try discriminate.
    injection H as <-. exists (prev_ttype st).
    apply scan_token_prev. exact E.
  - simpl in H.
    destruct (scan_token RPN_Builder_new st token) as [[st1|out msg]| |];
      simpl in H; try discriminate.
    eapply IH. exact H.
Qed.

Lemma after_operand_minus_kind (prev curr : TokType.t) :
  after_operand (minus_kind prev curr) = after_operand curr.
Proof.
  destruct (minus_kind_cases prev curr) as [-> | [-> ->]]; reflexivity.
Qed.

Lemma pushes_le_operands (items : list Value) :
  (pushes items <= length (filter is_operand_item items))%nat.
Proof.
  unfold pushes. induction items as [|[op|name|d] items IH]; simpl; lia.
Qed.

Lemma scan_start_accounted : accounted scan_start.
Proof. split; reflexivity. Qed.

(** A sequence compiled from tokens that do not end on an operand or a
    close parenthesis cannot be evaluated to the end. *)
Lemma unfinished_not_evaluated
  (pow : float -> float -> float) (order : ArgOrder)
  (pre : Tokens) (last : string) (b : RPN_Builder) (stack : ValueStack) :
  after_operand (kind_of last) = false ->
  RPN_Builder_call RPN_Builder_new (pre ++ [last]) = Val (true, b) ->
  visit_all pow order (rp_notation_ b) [] = Val stack ->
  False.
Proof.
  intros Hlast Hcall Heval.
  destruct (compiled_stack_empty _ b Hcall) as (st & Hscan & Hfinish).
  pose proof (scan_tokens_accounted _ _ _ scan_start_accounted Hscan)
    as (Heq & Hcount).
  destruct (scan_tokens_last pre last _ _ Hscan) as (prev & Hprev).
  rewrite Hprev, after_operand_minus_kind, Hlast in Heq.
  unfold finish in Hfinish.
  destruct (operand_count st =? 0)%N eqn:Ezero; [ discriminate | ].
  apply N.eqb_neq in Ezero.
  pose proof (drain_moved _ _ _ _ Hfinish) as (_ & _ & M3).
  apply drain_popped, popped_facts in Hfinish.
  destruct Hfinish as (P1 & _ & _).
  apply (f_equal (@length Value)) in P1.
  unfold pending_binaries at 1 in M3. simpl in M3.
  pose proof (visit_all_depth pow order _ _ _ Heval) as Hdepth.
  pose proof (pushes_le_operands (rp_notation_ b)) as Hle.
  simpl in Hdepth.
  assert (stack = []) as -> by (destruct stack; [ reflexivity | simpl in *; lia ]).
  apply (visit_all_empty_iff pow order) in Heval.
  assert (length (filter is_operand_item (rpn st)) = 0%nat) as Hnone.
  { assert (binaries (rp_notation_ b) = 0%nat) as Hb.
    { unfold binaries. clear - Heval.
      induction (rp_notation_ b) as [|[op|name|d] items IH];
        simpl in *; try discriminate; auto. }
    lia. }
  rewrite Hnone in Hcount. simpl in Hcount. contradiction.
Qed.

(** An expression whose last token is an operator, [sqrt] or an open
    parenthesis never gives a value: [calc::calculate] returns
    [ok = false], whether the compiler rejects it or the evaluator runs out
    of operands, and whatever the variables in it. *)
Theorem unfinished_expression_fails
  (pow : float -> float -> float) (order : ArgOrder)
  (equation : option string) (pre : Tokens) (last : string) :
  getTokens equation = Some (pre ++ [last]) ->
  after_operand (kind_of last) = false ->
  exists r, calc_calculate pow order equation = Returns r /\ ok r = false.
Proof.
  intros Htok Hlast. unfold calc_calculate. rewrite Htok.
  unfold try_block.
  destruct (call_returns (pre ++ [last])) as ([|] & b & E);
    rewrite E; simpl; [ | eexists; split; reflexivity ].
  destruct (visit_all_outcomes pow order (reverse_polish_notation b) [])
    as [(stack & Ev)|[Ev | Ev]]; rewrite Ev; simpl;
    try (eexists; split; reflexivity).
  exfalso.
  exact (unfinished_not_evaluated pow order pre last b stack Hlast E Ev).
Qed.

(** The theorem at "2 * x +". *)
Lemma unfinished_expression_fails_witness :
  exists r,
    calc_calculate pow_natural RightToLeft (Some "2 * x +") = Returns r
    /\ ok r = false.
Proof.
  exact (unfinished_expression_fails pow_natural RightToLeft
           (Some "2 * x +") ["2"; "*"; "x"] "+" eq_refl eq_refl).
Defined.

(* ================================================================== *)
(** * An expression in parentheses *)
(* ================================================================== *)

Lemma pop_to_open_frame (frame ops : list TokType.t) :
  forall out top ops' out',
    pop_to_open ops out = Val (top :: ops', out') ->
    pop_to_open (ops ++ frame) out = Val (top :: ops' ++ frame, out').
Proof.
  induction ops as [|k ops IH]; intros out top ops' out' H; simpl in H.
  - discriminate.
  - simpl. destruct (TokType.eqb k TokType.open).
    + injection H as <- <- <-. reflexivity.
    + destruct (to_operation k); simpl in *; try discriminate.
      apply IH. exact H.
Qed.

Lemma pop_higher_frame (p : N) (ops : list TokType.t) :
  (0 < p)%N ->
  forall out ops' out',
    pop_higher p ops out = Val (ops', out') ->
    pop_higher p (ops ++ [TokType.open]) out
    = Val (ops' ++ [TokType.open], out').
Proof.
  intros Hp. induction ops as [|k ops IH]; intros out ops' out' H; simpl in H.
  - destruct (p <=? 0)%N eqn:E; [ discriminate | ].
    injection H as <- <-. simpl. rewrite E. reflexivity.
  - simpl. destruct (priority k) as [q| |]; simpl in *; try discriminate.
    destruct (p <=? q)%N.
    + destruct (to_operation k); simpl in *; try discriminate.
      apply IH. exact H.
    + injection H as <- <-. reflexivity.
Qed.

(** Where the last loop empties the stack, a close parenthesis pops the
    same operators down to the open parenthesis under them. *)
Lemma drain_frame (ops : list TokType.t) :
  forall out ops' out',
    drain ops out = Val (Go (ops', out')) ->
    pop_to_open (ops ++ [TokType.open]) out = Val ([TokType.open], out').
Proof.
  induction ops as [|k ops IH]; intros out ops' out' H; simpl in H.
  - injection H as _ <-. reflexivity.
  - simpl. destruct (TokType.eqb k TokType.open); [ discriminate | ].
    destruct (to_operation k); simpl in *; try discriminate.
    apply IH with (ops' := ops'). exact H.
Qed.

(** One token of the scan, under the parenthesis. *)
Ltac framed_token H k :=
  let Ec := fresh "Ec" in
  match type of H with
  | context [is_correct_token_order ?b ?p ?c] =>
      destruct (is_correct_token_order b p c) as [[|]| |];
      simpl in H; try discriminate H;
      destruct c eqn:Ec; simpl in H |- *; try discriminate H
  end;
  try (injection H as <-; eexists; split; [ reflexivity | ];
       repeat split; left; split; reflexivity);
  match type of H with
  | context [pop_to_open ?ops ?out] =>
      let E := fresh "E" in
      destruct (pop_to_open ops out) as [[[|top ops'] out']| |] eqn:E;
      simpl in H; try discriminate H;
      injection H as <-;
      rewrite (pop_to_open_frame [TokType.open] _ _ _ _ _ E); simpl;
      eexists; split; [ reflexivity | ];
      repeat split; left; split; reflexivity
  | context [pop_higher ?p ?ops ?out] =>
      let E := fresh "E" in
      destruct (pop_higher p ops out) as [[ops' out']| |] eqn:E;
      simpl in H; try discriminate H;
      injection H as <-;
      rewrite (pop_higher_frame p _ eq_refl _ _ _ E); simpl;
      eexists; split; [ reflexivity | ];
      repeat split; left; split; reflexivity
  end.

Lemma scan_token_framed (st stw st' : scan) (token : string) :
  framed st stw ->
  scan_token RPN_Builder_new st token = Val (Go st') ->
  exists stw',
    scan_token RPN_Builder_new stw token = Val (Go stw')
    /\ framed st' stw'.
Proof.
  destruct st as [out ptok prev ops count], stw as [outw ptokw prevw opsw countw].
  unfold framed. simpl. intros (-> & -> & -> & Hprev) H.
  unfold scan_token in *. simpl in *.
  destruct (to_token_type RPN_Builder_new token 0) as [k n].
  destruct Hprev as [[-> ->]|[-> ->]].
  - framed_token H k.
  - change (minus_kind TokType.open k)
      with (minus_kind TokType.undefined k).
    change (is_correct_token_order RPN_Builder_new TokType.open
              (minus_kind TokType.undefined k))
      with (is_correct_token_order RPN_Builder_new TokType.undefined
              (minus_kind TokType.undefined k)).
    framed_token H k.
Qed.

Lemma scan_tokens_framed (tokens : Tokens) :
  forall st stw st',
    framed st stw ->
    scan_tokens RPN_Builder_new st tokens = Val (Go st') ->
    exists stw',
      scan_tokens RPN_Builder_new stw tokens = Val (Go stw')
      /\ framed st' stw'.
Proof.
  induction tokens as [|token tokens IH]; intros st stw st' Hfr H.
  - injection H as <-. exists stw. split; [ reflexivity | exact Hfr ].
  - cbn [scan_tokens] in *.
    destruct (scan_token RPN_Builder_new st token) as [[st1|? ?]| |] eqn:E;
      simpl in H; try discriminate H.
    destruct (scan_token_framed _ _ _ _ Hfr E) as (stw1 & -> & Hfr1).
    simpl. exact (IH _ _ _ Hfr1 H).
Qed.

Lemma scan_open_first :
  scan_token RPN_Builder_new scan_start "("
  = Val (Go (mkScan [] "(" TokType.open [TokType.open] 0%N)).
Proof. reflexivity. Qed.

(** The output for an accepted expression in parentheses. *)
Lemma enclosed_call (pre : Tokens) (last : string) (b : RPN_Builder) :
  RPN_Builder_call RPN_Builder_new (pre ++ [last]) = Val (true, b) ->
  after_operand (kind_of last) = true ->
  RPN_Builder_call RPN_Builder_new ("(" :: (pre ++ [last]) ++ [")"])
  = Val (true, b).
Proof.
  intros Hcall Hlast.
  destruct (compiled_stack_empty _ b Hcall) as (st & Hscan & Hfin).
  remember (rp_notation_ b) as out eqn:Eout.
  unfold RPN_Builder_call in Hcall. rewrite Hscan in Hcall.
  cbn [bind] in Hcall. rewrite Hfin in Hcall. simpl in Hcall.
  injection Hcall as Hb.
  destruct (scan_tokens_last pre last _ _ Hscan) as (prev & Hprev).
  assert (after_operand (prev_ttype st) = true) as Hafter
    by (rewrite Hprev, after_operand_minus_kind; exact Hlast).
  assert (framed scan_start
            (mkScan [] "(" TokType.open [TokType.open] 0%N)) as Hfr
    by (repeat split; right; split; reflexivity).
  destruct (scan_tokens_framed _ _ _ _ Hfr Hscan)
    as (stw & Hscanw & Hrpn & Hops & Hcount & Hp).
  unfold finish in Hfin.
  destruct (operand_count st =? 0)%N eqn:Ez; [ discriminate Hfin | ].
  unfold RPN_Builder_call.
  change (scan_tokens RPN_Builder_new scan_start
            ("(" :: (pre ++ [last]) ++ [")"]))
    with (r <- scan_token RPN_Builder_new scan_start "(" ;;
          match r with
          | Go st' => scan_tokens RPN_Builder_new st' ((pre ++ [last]) ++ [")"])
          | ReturnFalse o msg => Val (ReturnFalse o msg)
          end).
  rewrite scan_open_first. cbn [bind].
  rewrite (scan_tokens_app _ _ _ _ _ Hscanw). cbn [scan_tokens].
  unfold scan_token.
  change (to_token_type RPN_Builder_new ")" 0)
    with (TokType.close, 0%float).
  cbv iota.
  destruct Hp as [[Hpt _]|[Hu _]];
    [ | rewrite Hu in Hafter; discriminate Hafter ].
  rewrite Hpt, Hops, Hrpn.
  assert (is_correct_token_order RPN_Builder_new (prev_ttype st)
            (minus_kind (prev_ttype st) TokType.close) = Val true) as ->
    by (destruct (prev_ttype st); try discriminate Hafter; reflexivity).
  assert (minus_kind (prev_ttype st) TokType.close = TokType.close) as ->
    by (destruct (prev_ttype st); reflexivity).
  cbn [bind negb].
  rewrite (drain_frame _ _ _ _ Hfin). cbn [bind].
  unfold finish. cbn [operand_count operations rpn drain].
  rewrite Hcount, Ez. cbn [bind]. rewrite <- Hb. reflexivity.
Qed.

(** Enclosing an expression the compiler accepts, and that ends on an
    operand or a close parenthesis, in a pair of parentheses changes
    nothing: [operator()] leaves the same output, and the [try] block of
    [calc::calculate] gives the same result. *)
Theorem enclosed_in_parentheses
  (pow : float -> float -> float) (order : ArgOrder)
  (pre : Tokens) (last : string) (b : RPN_Builder) :
  RPN_Builder_call RPN_Builder_new (pre ++ [last]) = Val (true, b) ->
  after_operand (kind_of last) = true ->
  RPN_Builder_call RPN_Builder_new ("(" :: (pre ++ [last]) ++ [")"])
  = Val (true, b)
  /\ try_block pow order ("(" :: (pre ++ [last]) ++ [")"])
     = try_block pow order (pre ++ [last]).
Proof.
  intros Hcall Hlast.
  pose proof (enclosed_call pre last b Hcall Hlast) as Hw.
  split; [ exact Hw | ].
  unfold try_block. rewrite Hw, Hcall. reflexivity.
Qed.

(** The theorem at the tokens of "2 * (x + 1)". *)
Lemma enclosed_in_parentheses_witness :
  RPN_Builder_call RPN_Builder_new
    ["("; "2"; "*"; "("; "x"; "+"; "1"; ")"; ")"]
  = Val (true,
         mkBuilder
           [VDouble 2; VString "x"; VDouble 1;
            VOperation Operation.add; VOperation Operation.mul]
           (tokens_map_ RPN_Builder_new)
           (prev_curr_token_map_ RPN_Builder_new) "")
  /\ try_block pow_natural RightToLeft
       ["("; "2"; "*"; "("; "x"; "+"; "1"; ")"; ")"]
     = try_block pow_natural RightToLeft
         ["2"; "*"; "("; "x"; "+"; "1"; ")"].
Proof.
  exact (enclosed_in_parentheses pow_natural RightToLeft
           ["2"; "*"; "("; "x"; "+"; "1"] ")"
           (mkBuilder
              [VDouble 2; VString "x"; VDouble 1;
               VOperation Operation.add; VOperation Operation.mul]
              (tokens_map_ RPN_Builder_new)
              (prev_curr_token_map_ RPN_Builder_new) "")
           eq_refl eq_refl).
Defined.

(* ================================================================== *)
(** * The order of the tokens of an accepted expression *)
(* ================================================================== *)








(* ================================================================== *)
(** * The bounds of the evaluator's stack *)
(* ================================================================== *)

(** [calculate] never reads an empty stack.  It throws "Incorrect
    expression" exactly when the stack holds fewer values than the operation
    pops, two for a binary operation and one for a unary one; when it
    returns, it has removed exactly these values. *)
Theorem calculate_bounds
  (pow : float -> float -> float) (order : ArgOrder)
  (op : Operation.t) (stack : ValueStack) :
  (calculate pow order op stack = Throw "Incorrect expression"
   <-> (length stack < arity op)%nat)
  /\ (forall r stack',
         calculate pow order op stack = Val (r, stack') ->
         stack' = skipn (arity op) stack)
  /\ calculate pow order op stack <> Undef.
Proof.
  unfold arity.
  destruct op, order, stack as [|x [|y stack]]; cbn;
    unfold div_lambda;
    repeat match goal with
           | |- context [PrimFloat.eqb ?a ?b] => destruct (PrimFloat.eqb a b)
           end;
    cbn;
    (split;
     [ split; intros H;
       first [ reflexivity | discriminate H | simpl in H; lia ]
     | split;
       [ intros r s' H;
         first [ discriminate H | injection H as _ <-; reflexivity ]
       | discriminate ] ]).
Qed.

(* ================================================================== *)
(** * The unary operators *)
(* ================================================================== *)

(** A minus at the start and [sqrt] apply to the operand that follows them
    and to nothing more, whatever the binary operator that comes next: the
    value of [- a o b] is that of [(-a) o b], also for the power, and the
    value of [sqrt ( a ) o b] is that of [(sqrt a) o b]. *)
Theorem unary_operators_bind_first
  (pow : float -> float -> float) (order : ArgOrder)
  (ta tb : string) (a b : float) (o : Operation.t) :
  is_binary o = true ->
  to_token_type RPN_Builder_new ta 0 = (TokType.number, a) ->
  to_token_type RPN_Builder_new tb 0 = (TokType.number, b) ->
  try_block pow order ["-"; ta; operator_text o; tb]
  = (r <- applied pow order o (- a) b ;; Val (success r))
  /\ try_block pow order ["sqrt"; "("; ta; ")"; operator_text o; tb]
     = (r <- applied pow order o (PrimFloat.sqrt a) b ;; Val (success r)).
Proof.
  intros Ho Ha Hb.
  unfold try_block, RPN_Builder_call. cbn [scan_tokens]. unfold scan_token.
  rewrite Ha, Hb.
  destruct o; try discriminate Ho; destruct order; cbn;
    unfold div_lambda;
    repeat match goal with
           | |- context [PrimFloat.eqb ?x ?y] => destruct (PrimFloat.eqb x y)
           end;
    split; reflexivity.
Qed.

(** The theorem at "-2 ^ 2", which is 4, and "sqrt(16) / 2", which is 2. *)
Lemma unary_operators_bind_first_witness :
  try_block pow_natural RightToLeft ["-"; "2"; "^"; "2"] = Val (success 4)
  /\ try_block pow_natural RightToLeft ["sqrt"; "("; "16"; ")"; "/"; "2"]
     = Val (success 2).
Proof.
  split.
  - exact (proj1 (unary_operators_bind_first pow_natural RightToLeft
                    "2" "2" 2 2 Operation.pow eq_refl eq_refl eq_refl)).
  - exact (proj2 (unary_operators_bind_first pow_natural RightToLeft
                    "16" "2" 16 2 Operation.div eq_refl eq_refl eq_refl)).
Defined.

(* ================================================================== *)
(** * The shape of a token *)
(* ================================================================== *)

Lemma substring_0_0 (s : string) : substring 0 0 s = "".
Proof. destruct s; reflexivity. Qed.

(** [span] reads the same characters in a prefix that holds them. *)
Lemma span_prefix (p : ascii -> bool) (s : string) (k : nat) :
  span p (substring 0 (length (fst (span p s)) + k) s)
  = (fst (span p s), substring 0 k (snd (span p s))).
Proof.
  induction s as [|c r IH].
  - simpl. destruct k; reflexivity.
  - cbn [span]. destruct (p c) eqn:E.
    + destruct (span p r) as [ds r'].
      cbn [fst snd length Nat.add substring] in *.
      cbn [span]. rewrite E, IH. reflexivity.
    + cbn [fst snd length Nat.add].
      destruct k; cbn [substring span]; [ reflexivity | ].
      rewrite E. reflexivity.
Qed.

Lemma sign_of_prefix (s : string) (k : nat) :
  sign_of (substring 0 (snd (fst (sign_of s)) + k) s)
  = (fst (fst (sign_of s)), snd (fst (sign_of s)),
     substring 0 k (snd (sign_of s))).
Proof.
  destruct s as [|c r]; [ destruct k; reflexivity | ].
  unfold sign_of. by_bits c; destruct k; reflexivity.
Qed.

Lemma exponent_part_prefix (mark : ascii) (s : string) :
  exponent_part mark (substring 0 (snd (exponent_part mark s)) s)
  = exponent_part mark s.
Proof.
  destruct s as [|c r]; [ reflexivity | ].
  cbn [exponent_part].
  destruct (Ascii.eqb (tolower c) mark) eqn:E; [ | reflexivity ].
  pose proof (sign_of_prefix r) as Hs.
  destruct (sign_of r) as [[neg ns] r1]. cbn [fst snd] in Hs.
  pose proof (span_prefix isdigit r1 0) as Hd.
  destruct (span isdigit r1) as [ds r2]. cbn [fst snd] in Hd.
  destruct ds as [|d ds]; [ reflexivity | ].
  cbn [snd].
  change (1 + ns + length (d :: ds))%nat with (S (ns + length (d :: ds))).
  cbn [substring]. unfold exponent_part at 1.
  rewrite E, (Hs (length (d :: ds))).
  rewrite Nat.add_0_r in Hd. rewrite Hd. reflexivity.
Qed.

(** The test of the point in [mantissa_part]. *)
Lemma point_match (A : Type) (c : ascii) (x y : A) :
  match c with "."%char => x | _ => y end
  = if Ascii.eqb c "." then x else y.
Proof. by_bits c; reflexivity. Qed.

Lemma mantissa_part_prefix (p : ascii -> bool) (s : string)
  (ip fp : list ascii) (n : nat) (r : string) (k : nat) :
  mantissa_part p s = Some (ip, fp, n, r) ->
  mantissa_part p (substring 0 (n + k) s)
  = Some (ip, fp, n, substring 0 k r).
Proof.
  unfold mantissa_part.
  pose proof (span_prefix p s) as H1.
  destruct (span p s) as [ip' r1]. cbn [fst snd] in H1.
  destruct r1 as [|c r1'].
  - destruct (ip' ++ []) eqn:Eapp; [ discriminate | ].
    intros H. injection H as <- <- <- <-.
    match goal with
    | |- context [substring 0 ?m s] =>
        replace m with (length ip' + k)%nat by (simpl; lia)
    end.
    rewrite H1. destruct k; cbn [substring]; cbv beta iota;
      rewrite Eapp; reflexivity.
  - rewrite point_match.
    destruct (Ascii.eqb c ".") eqn:Ec.
    + apply Ascii.eqb_eq in Ec. subst c.
      pose proof (span_prefix p r1') as H2.
      destruct (span p r1') as [fp' r2]. cbn [fst snd] in H2.
      destruct (ip' ++ fp') eqn:Eapp; [ discriminate | ].
      intros H. injection H as <- <- <- <-.
      match goal with
      | |- context [substring 0 ?m s] =>
          replace m with (length ip' + S (length fp' + k))%nat by lia
      end.
      rewrite H1. cbn [substring]. cbv beta iota.
      rewrite H2. cbv beta iota. rewrite Eapp. reflexivity.
    + destruct (ip' ++ []) eqn:Eapp; [ discriminate | ].
      intros H. injection H as <- <- <- <-.
      match goal with
      | |- context [substring 0 ?m s] =>
          replace m with (length ip' + k)%nat by (simpl; lia)
      end.
      rewrite H1. destruct k; cbn [substring]; cbv beta iota;
        [ rewrite Eapp; reflexivity | ].
      rewrite point_match, Ec. cbv beta iota. rewrite Eapp. reflexivity.
Qed.

Lemma decimal_subject_prefix (s : string) (x : float) (n : nat) :
  decimal_subject s = Some (x, n) ->
  decimal_subject (substring 0 n s) = Some (x, n).
Proof.
  unfold decimal_subject.
  destruct (mantissa_part isdigit s) as [[[[ip fp] n0] r]|] eqn:E;
    [ | discriminate ].
  pose proof (exponent_part_prefix "e" r) as He.
  destruct (exponent_part "e" r) as [e ne] eqn:Ee. cbn [snd] in He.
  intros H. injection H as <- <-.
  rewrite (mantissa_part_prefix _ _ _ _ _ _ ne E). rewrite He. reflexivity.
Qed.

Lemma hexadecimal_subject_head (c0 c1 : ascii) (r : string)
  (o : float * nat) :
  hexadecimal_subject (String c0 (String c1 r)) = Some o -> c0 = "0"%char.
Proof.
  unfold hexadecimal_subject. by_bits c0; try discriminate; reflexivity.
Qed.

Lemma hexadecimal_subject_prefix (s : string) (x : float) (n : nat) :
  hexadecimal_subject s = Some (x, n) ->
  hexadecimal_subject (substring 0 n s) = Some (x, n).
Proof.
  destruct s as [|c0 [|c1 r]]; try discriminate.
  - unfold hexadecimal_subject. by_bits c0; discriminate.
  - intros H. pose proof (hexadecimal_subject_head _ _ _ _ H) as ->.
    unfold hexadecimal_subject in H. cbv beta iota in H.
    destruct (Ascii.eqb (tolower c1) "x") eqn:Ex; [ | discriminate H ].
    destruct (mantissa_part isxdigit r) as [[[[ip fp] n0] r']|] eqn:E;
      [ | discriminate H ].
    pose proof (exponent_part_prefix "p" r') as He.
    destruct (exponent_part "p" r') as [e ne] eqn:Ee. cbn [snd] in He.
    injection H as <- <-.
    change (2 + n0 + ne)%nat with (S (S (n0 + ne))).
    cbn [substring]. unfold hexadecimal_subject. cbv beta iota.
    rewrite Ex, (mantissa_part_prefix _ _ _ _ _ _ ne E), He. reflexivity.
Qed.

(** The decimal subject of [0x] without a hexadecimal digit is the zero. *)
Lemma decimal_subject_zero_x (c1 : ascii) (r : string) :
  Ascii.eqb (tolower c1) "x" = true ->
  decimal_subject (String "0" (String c1 r)) = Some (zero, 1%nat).
Proof. by_bits c1; intros H; try discriminate H; reflexivity. Qed.

Lemma hexadecimal_subject_none (s : string) (x : float) (n : nat) :
  hexadecimal_subject s = None ->
  decimal_subject s = Some (x, n) ->
  hexadecimal_subject (substring 0 n s) = None.
Proof.
  destruct s as [|c0 [|c1 r]]; intros Hh Hd.
  - destruct n; reflexivity.
  - destruct n as [|[|n]]; cbn [substring]; unfold hexadecimal_subject;
      by_bits c0; reflexivity.
  - destruct (Ascii.eqb_spec c0 "0") as [->|Hc0].
    + unfold hexadecimal_subject in Hh. cbv beta iota in Hh.
      destruct (Ascii.eqb (tolower c1) "x") eqn:Ex.
      * rewrite (decimal_subject_zero_x c1 r Ex) in Hd.
        injection Hd as _ <-. reflexivity.
      * destruct n as [|[|n]]; cbn [substring]; unfold hexadecimal_subject;
          cbv beta iota; try reflexivity.
        rewrite Ex. reflexivity.
    + destruct n as [|[|n]]; cbn [substring]; unfold hexadecimal_subject;
        by_bits c0; try reflexivity; exfalso; apply Hc0; reflexivity.
Qed.

(** What [strtod] converts at a digit or a point is a number by itself:
    [strtod] converts the whole of it, to the same value. *)
Lemma strtod_prefix (ch : ascii) (r : string) :
  isdigit ch || Ascii.eqb ch "." = true ->
  (1 <= snd (strtod (String ch r)))%nat ->
  strtod (substring 0 (snd (strtod (String ch r))) (String ch r))
  = strtod (String ch r).
Proof.
  intros H Hn.
  pose proof (strtod_numeric_start ch r H) as Efull.
  unfold first_of in Efull.
  destruct (hexadecimal_subject (String ch r)) as [[x n]|] eqn:Eh.
  - rewrite Efull in *. cbn [snd] in *.
    apply hexadecimal_subject_prefix in Eh.
    destruct n as [|n]; [ lia | ]. cbn [substring] in *.
    rewrite (strtod_numeric_start _ _ H), Eh. reflexivity.
  - destruct (decimal_subject (String ch r)) as [[x n]|] eqn:Ed.
    + rewrite Efull in *. cbn [snd] in *.
      pose proof (hexadecimal_subject_none _ _ _ Eh Ed) as Hnone.
      apply decimal_subject_prefix in Ed.
      destruct n as [|n]; [ lia | ]. cbn [substring] in *.
      rewrite (strtod_numeric_start _ _ H), Hnone. unfold first_of.
      rewrite Ed. reflexivity.
    + rewrite Efull in Hn. simpl in Hn. lia.
Qed.

Lemma substring_0_exact (n : nat) (s : string) :
  (n <= String.length s)%nat -> String.length (substring 0 n s) = n.
Proof.
  revert s. induction n as [|n IH]; intros s Hn.
  - rewrite substring_0_0. reflexivity.
  - destruct s as [|c r]; simpl in *; [ lia | ].
    rewrite IH by lia. reflexivity.
Qed.

(** The classifier takes the text [strtod] converts at a digit or a point
    for a number. *)
Lemma numeric_token_kind (ch : ascii) (r : string) :
  no_nul (String ch r) = true ->
  isdigit ch || Ascii.eqb ch "." = true ->
  (1 <= snd (strtod (String ch r)))%nat ->
  kind_of (substring 0 (snd (strtod (String ch r))) (String ch r))
  = TokType.number.
Proof.
  intros Hnul H Hn.
  pose proof (strtod_prefix ch r H Hn) as Hp.
  pose proof (strtod_consumed_le (String ch r)) as Hle.
  pose proof (no_nul_substring_0 (snd (strtod (String ch r))) _ Hnul) as Ht.
  pose proof (substring_0_exact _ _ Hle) as Hlen.
  destruct (snd (strtod (String ch r))) as [|m] eqn:En; [ lia | ].
  cbn [substring] in *.
  set (token := String ch (substring 0 m r)) in *.
  unfold kind_of, to_token_type.
  rewrite find_token_other.
  - rewrite (no_nul_c_str _ Ht).
    rewrite (str_to_number_whole token 0 Ht); [ reflexivity | ].
    split; [ | discriminate ].
    rewrite Hp, En. symmetry. exact Hlen.
  - unfold keywords, token. simpl. intros Hin.
    repeat (destruct Hin as [Hin|Hin];
            [ injection Hin as <-; discriminate H | ]).
    contradiction.
Qed.

Lemma no_symbol_push_back (s : string) (c : ascii) :
  no_symbol s = true -> is_symbol_token c = false ->
  no_symbol (push_back s c) = true.
Proof.
  intros Hs Hc. unfold push_back.
  induction s as [|a r IH]; simpl in *.
  - rewrite Hc. reflexivity.
  - apply andb_prop in Hs. destruct Hs as [Ha Hr].
    rewrite Ha, (IH Hr). reflexivity.
Qed.

(** After its first character a word grows by characters that are no
    symbols. *)
Lemma token_loop_word (c : string) :
  forall (ch0 : ascii) (rest : string),
    no_symbol rest = true ->
    exists w,
      fst (token_loop false c (String ch0 rest)) = String ch0 w
      /\ no_symbol w = true.
Proof.
  induction c as [|ch r IH]; intros ch0 rest Hrest.
  - exists rest. split; [ reflexivity | exact Hrest ].
  - cbn [token_loop andb].
    destruct (isspace ch || is_symbol_token ch) eqn:E.
    + exists rest. split; [ reflexivity | exact Hrest ].
    + apply orb_false_iff in E. destruct E as [_ Esym].
      change (push_back (String ch0 rest) ch)
        with (String ch0 (push_back rest ch)).
      apply IH. apply no_symbol_push_back; assumption.
Qed.

(** The token the inner loop makes, when it makes one. *)
Lemma first_token_shape (c : string) :
  no_nul c = true ->
  fst (token_loop true c "") <> "" ->
  match c with String ch _ => isspace ch = false | EmptyString => True end ->
  token_shape (fst (token_loop true c "")).
Proof.
  intros Hnul Hne Hsp. destruct c as [|ch r]; [ contradiction Hne; reflexivity | ].
  revert Hne. cbn [token_loop andb].
  destruct (is_symbol_token ch) eqn:Esym.
  { intros _. cbn [fst]. unfold push_back. simpl. rewrite Esym. reflexivity. }
  destruct (isdigit ch || Ascii.eqb ch ".") eqn:Enum.
  - cbn [fst]. intros Hne.
    assert (1 <= snd (strtod (String ch r)))%nat as Hn.
    { destruct (snd (strtod (String ch r))); [ | lia ].
      contradiction Hne. reflexivity. }
    pose proof (numeric_token_kind ch r Hnul Enum Hn) as Hk.
    destruct (snd (strtod (String ch r))) as [|m]; [ lia | ].
    cbn [substring] in *. unfold token_shape. rewrite Esym, Enum. exact Hk.
  - rewrite Hsp. cbn [orb]. intros _.
    destruct (token_loop_word r ch "" eq_refl) as (w & Hw & Hsym).
    change (push_back "" ch) with (String ch "").
    rewrite Hw. unfold token_shape. rewrite Esym, Enum. exact Hsym.
Qed.

Lemma tokens_loop_shapes (fuel : nat) :
  forall c tokens r,
    no_nul c = true -> Forall token_shape tokens ->
    tokens_loop fuel c tokens = Some r -> Forall token_shape r.
Proof.
  induction fuel as [|fuel IH]; intros c tokens r Hc Htoks H.
  - destruct c; simpl in H; [ | discriminate ]. injection H as <-. exact Htoks.
  - destruct c as [|ch rest]; [ injection H as <-; exact Htoks | ].
    cbn [tokens_loop] in H.
    destruct (skip_spaces_drop (String ch rest)) as (k1 & _ & E1).
    pose proof (no_nul_drop k1 _ Hc) as Hc1. rewrite <- E1 in Hc1.
    destruct (token_loop_drop (skip_spaces (String ch rest)) true ""
                (fun _ => eq_refl)) as (k2 & _ & E2 & _).
    pose proof (first_token_shape (skip_spaces (String ch rest)) Hc1)
      as Hshape.
    pose proof (skip_spaces_first (String ch rest)) as Hfirst.
    destruct (token_loop true (skip_spaces (String ch rest)) "")
      as [token c'] eqn:E.
    cbn [fst snd] in E2, Hshape.
    apply IH in H; [ exact H | rewrite E2; apply no_nul_drop; exact Hc1 | ].
    destruct token as [|a t]; [ exact Htoks | ].
    cbn [empty]. apply Forall_app. split; [ exact Htoks | ].
    constructor; [ | constructor ].
    apply Hshape; [ discriminate | exact Hfirst ].
Qed.

(** Every token [getTokens] returns has one of three shapes.  A symbol
    [( ) + - * / ^] that starts a token is the whole token.  A token that
    starts with a digit or a point is the text [strtod] converts there, and
    the classifier takes it for a number, so that digits followed by letters
    are two tokens.  Any other token is a word that holds no symbol. *)
Theorem getTokens_shapes (expression : option string) (tokens : Tokens) :
  getTokens expression = Some tokens -> Forall token_shape tokens.
Proof.
  destruct expression as [s|]; simpl.
  - apply tokens_loop_shapes; [ apply c_str_no_nul | constructor ].
  - intros H. injection H as <-. constructor.
Qed.

(** The theorem at "2x+sqrt(.5e1)". *)
Lemma getTokens_shapes_witness :
  Forall token_shape ["2"; "x"; "+"; "sqrt"; "("; ".5e1"; ")"].
Proof.
  exact (getTokens_shapes (Some "2x+sqrt(.5e1)")
           ["2"; "x"; "+"; "sqrt"; "("; ".5e1"; ")"] eq_refl).
Defined.

(* ================================================================== *)
(** * Expressions that can be evaluated *)
(* ================================================================== *)

Lemma depth_after_app (a b : list Value) :
  forall d,
    depth_after (a ++ b) d
    = match depth_after a d with
      | Some d' => depth_after b d'
      | None => None
      end.
Proof.
  induction a as [|[op|name|x] a IH]; intros d; simpl; auto.
  destruct (arity op <=? d)%nat; auto.
Qed.

(** A run of operators can be applied where each binary one finds its two
    operands. *)
Lemma depth_after_operations (kinds : list TokType.t) :
  forall d,
    forallb is_operator kinds = true ->
    (pending_binaries kinds < d)%nat ->
    depth_after (operations_of kinds) d = Some (d - pending_binaries kinds)%nat.
Proof.
  induction kinds as [|k kinds IH]; intros d Hop Hd.
  - simpl. rewrite Nat.sub_0_r. reflexivity.
  - simpl in Hop. apply andb_prop in Hop. destruct Hop as [Hk Hop].
    unfold pending_binaries, operations_of in *.
    destruct k; try discriminate Hk;
      cbn [flat_map to_operation app depth_after filter is_binary_kind length]
        in Hd |- *;
      match goal with
      | |- context [(arity ?op <=? d)%nat] =>
          assert ((arity op <=? d)%nat = true) as ->
            by (apply Nat.leb_le; unfold arity; simpl; lia);
          unfold arity; cbn [is_binary]
      end;
      (rewrite (IH _ Hop) by lia); f_equal; lia.
Qed.

Lemma pending_binaries_app (a b : list TokType.t) :
  pending_binaries (a ++ b) = (pending_binaries a + pending_binaries b)%nat.
Proof. unfold pending_binaries. rewrite filter_app, length_app. reflexivity. Qed.

(** A pop loop after an operand keeps the output one that can be
    evaluated. *)
Lemma popped_depth (ops ops' : list TokType.t) (out out' : list Value) :
  popped ops out ops' out' ->
  depth_after out 0 = Some (pending_binaries ops + 1)%nat ->
  depth_after out' 0 = Some (pending_binaries ops' + 1)%nat.
Proof.
  intros (kinds & -> & -> & Hop) H.
  rewrite depth_after_app, H. rewrite pending_binaries_app.
  rewrite depth_after_operations; [ f_equal; lia | exact Hop | lia ].
Qed.

Lemma minus_kind_un_min (prev curr : TokType.t) :
  minus_kind prev curr = TokType.un_min ->
  curr <> TokType.un_min ->
  prev = TokType.undefined \/ prev = TokType.open.
Proof.
  destruct prev, curr; simpl; intros H Hc; try discriminate H;
    try (exfalso; apply Hc; reflexivity); auto.
Qed.

Lemma pop_higher_sheltered (p : N) (ops : list TokType.t) (out : list Value) :
  (0 < p)%N ->
  ops = [] \/ (exists ops', ops = TokType.open :: ops') ->
  pop_higher p ops out = Val (ops, out).
Proof.
  intros Hp [->|(ops' & ->)]; simpl;
    destruct (p <=? 0)%N eqn:E; try reflexivity;
    apply N.leb_le in E; lia.
Qed.

(** The binary operator cases of [scan_token], for [well_formed]. *)
Ltac well_formed_operator H Hd :=
  match type of H with
  | context [pop_higher ?p ?ops ?out] =>
      let Epop := fresh "Epop" in
      destruct (pop_higher p ops out) as [[? ?]| |] eqn:Epop;
      simpl in H; try discriminate H;
      injection H as <-;
      apply pop_higher_popped in Epop;
      apply (popped_depth _ _ _ _ Epop) in Hd;
      unfold well_formed, pending_binaries in *; simpl in *;
      split; [ rewrite Hd; f_equal; lia | ];
      split; [ discriminate | discriminate ]
  end.

(** Reading a token that is not a variable keeps the output one that can
    be evaluated. *)
Lemma scan_token_well_formed (st st' : scan) (token : string) :
  well_formed st ->
  not_variable token ->
  scan_token RPN_Builder_new st token = Val (Go st') ->
  well_formed st'.
Proof.
  intros (Hd & Hstart & Hopen) Hnv H.
  unfold scan_token in H. unfold not_variable in Hnv.
  pose proof (to_token_type_kinds token 0) as Hkinds.
  destruct (to_token_type RPN_Builder_new token 0) as [ttype number].
  simpl in Hnv, Hkinds.
  destruct (is_correct_token_order RPN_Builder_new (prev_ttype st)
              (minus_kind (prev_ttype st) ttype)) as [[|]| |] eqn:Eord;
    simpl in H; try discriminate;
    [ | destruct (incorrect_token_order_happened _ _ _ _); discriminate ].
  apply order_table in Eord. rewrite Eord in Hd.
  destruct (minus_kind (prev_ttype st) ttype) eqn:Ekind;
    simpl in H, Hd; try discriminate;
    try (well_formed_operator H Hd; fail).
  - (* number *)
    injection H as <-. unfold well_formed. simpl.
    rewrite depth_after_app, Hd. simpl.
    split; [ f_equal; lia | split; discriminate ].
  - (* var *)
    apply minus_kind_var in Ekind. contradiction.
  - (* open *)
    injection H as <-. unfold well_formed, pending_binaries in *. simpl.
    split; [ exact Hd | ]. split; [ discriminate | ].
    intros _. eexists. reflexivity.
  - (* close *)
    destruct (pop_to_open (operations st) (rpn st))
      as [[ops out]| |] eqn:Epop; simpl in H; try discriminate.
    destruct ops as [|top ops]; [ discriminate | ].
    injection H as <-.
    pose proof (pop_to_open_top _ _ _ _ _ Epop). subst top.
    apply pop_to_open_popped in Epop.
    apply (popped_depth _ _ _ _ Epop) in Hd.
    unfold well_formed, pending_binaries in *; simpl in *.
    split; [ exact Hd | split; discriminate ].
  - (* unary minus *)
    assert (ttype <> TokType.un_min) as Hnot.
    { intros ->. repeat (destruct Hkinds as [Hkinds|Hkinds];
                         [ discriminate Hkinds | ]). contradiction. }
    destruct (minus_kind_un_min _ _ Ekind Hnot) as [Hu|Ho].
    + rewrite (pop_higher_sheltered 4 _ _ eq_refl (or_introl (Hstart Hu)))
        in H.
      simpl in H. injection H as <-.
      unfold well_formed, pending_binaries in *; simpl in *.
      split; [ exact Hd | split; discriminate ].
    + rewrite (pop_higher_sheltered 4 _ _ eq_refl (or_intror (Hopen Ho)))
        in H.
      simpl in H. injection H as <-.
      unfold well_formed, pending_binaries in *; simpl in *.
      split; [ exact Hd | split; discriminate ].
  - (* sqrt *)
    injection H as <-. unfold well_formed, pending_binaries in *. simpl.
    split; [ exact Hd | split; discriminate ].
Qed.

Lemma scan_tokens_well_formed (tokens : Tokens) :
  forall st st',
    well_formed st ->
    Forall not_variable tokens ->
    scan_tokens RPN_Builder_new st tokens = Val (Go st') ->
    well_formed st'.
Proof.
  induction tokens as [|token tokens IH]; intros st st' Hwf Hnv H.
  - injection H as <-. exact Hwf.
  - cbn [scan_tokens] in H. inversion Hnv as [|? ? Hnv1 Hnv2]; subst.
    destruct (scan_token RPN_Builder_new st token) as [[st1|? ?]| |] eqn:E;
      simpl in H; try discriminate H.
    exact (IH _ _ (scan_token_well_formed _ _ _ Hwf Hnv1 E) Hnv2 H).
Qed.

Lemma scan_start_well_formed : well_formed scan_start.
Proof.
  split; [ reflexivity | ]. split; [ reflexivity | discriminate ].
Qed.

(** With the values it pops on the stack, an operation gives a value or
    is a division by zero. *)
Lemma calculate_enough
  (pow : float -> float -> float) (order : ArgOrder)
  (op : Operation.t) (stack : ValueStack) :
  (arity op <= length stack)%nat ->
  (exists r, calculate pow order op stack = Val (r, skipn (arity op) stack))
  \/ calculate pow order op stack = Throw "Divizion on zero is not defined".
Proof.
  unfold arity.
  destruct op, order, stack as [|x [|y stack]]; cbn; intros H; try lia;
    unfold div_lambda;
    repeat match goal with
           | |- context [PrimFloat.eqb ?a ?b] => destruct (PrimFloat.eqb a b)
           end;
    cbn; first [ left; eexists; reflexivity | right; reflexivity ].
Qed.

(** Items that can be evaluated are evaluated, to a stack of the depth
    counted, unless a division by zero ends the evaluation. *)
Lemma visit_all_depth_after
  (pow : float -> float -> float) (order : ArgOrder) (items : list Value) :
  forall stack d,
    depth_after items (length stack) = Some d ->
    (exists stack',
        visit_all pow order items stack = Val stack' /\ length stack' = d)
    \/ visit_all pow order items stack
       = Throw "Divizion on zero is not defined".
Proof.
  induction items as [|[op|name|x] items IH]; intros stack d H; simpl in H.
  - injection H as <-. left. exists stack. split; reflexivity.
  - destruct (arity op <=? length stack)%nat eqn:E; [ | discriminate H ].
    apply Nat.leb_le in E. cbn [visit_all visit].
    destruct (calculate_enough pow order op stack E) as [(r & ->)| ->];
      [ | right; reflexivity ].
    cbn [bind]. apply IH. simpl. rewrite length_skipn.
    replace (S (length stack - arity op)) with (S (length stack) - arity op)%nat
      by lia.
    exact H.
  - cbn [visit_all visit bind]. apply IH. exact H.
  - cbn [visit_all visit bind]. apply IH. exact H.
Qed.

(** An expression without variables that the compiler accepts and that
    ends on an operand or a close parenthesis is evaluated to the end:
    [calc::calculate] returns a value with [ok = true], unless a division
    by zero occurs.  No operation of it finds the stack too short. *)
Theorem complete_expression_evaluates
  (pow : float -> float -> float) (order : ArgOrder)
  (equation : option string) (pre : Tokens) (last : string)
  (b : RPN_Builder) :
  getTokens equation = Some (pre ++ [last]) ->
  Forall not_variable (pre ++ [last]) ->
  RPN_Builder_call RPN_Builder_new (pre ++ [last]) = Val (true, b) ->
  after_operand (kind_of last) = true ->
  (exists value,
      calc_calculate pow order equation = Returns (success value))
  \/ calc_calculate pow order equation
     = Returns (failure "Divizion on zero is not defined").
Proof.
  intros Htok Hnv Hcall Hlast.
  destruct (compiled_stack_empty _ b Hcall) as (st & Hscan & Hfin).
  pose proof (scan_tokens_well_formed _ _ _ scan_start_well_formed Hnv Hscan)
    as (Hd & _ & _).
  destruct (scan_tokens_last pre last _ _ Hscan) as (prev & Hprev).
  rewrite Hprev, after_operand_minus_kind, Hlast in Hd.
  unfold finish in Hfin.
  destruct (operand_count st =? 0)%N; [ discriminate Hfin | ].
  apply drain_popped in Hfin.
  apply (popped_depth _ _ _ _ Hfin) in Hd.
  unfold calc_calculate. rewrite Htok.
  unfold try_block. rewrite Hcall. cbn [bind negb].
  unfold reverse_polish_notation.
  destruct (visit_all_depth_after pow order (rp_notation_ b) [] _ Hd)
    as [(stack & -> & Hlen)| ->]; [ | right; reflexivity ].
  destruct stack as [|value stack]; [ discriminate Hlen | ].
  left. exists value. reflexivity.
Qed.

(** The theorem at "(1 + 2) * 3 - 4 / 2". *)
Lemma complete_expression_evaluates_witness :
  (exists value,
      calc_calculate pow_natural RightToLeft (Some "(1 + 2) * 3 - 4 / 2")
      = Returns (success value))
  \/ calc_calculate pow_natural RightToLeft (Some "(1 + 2) * 3 - 4 / 2")
     = Returns (failure "Divizion on zero is not defined").
Proof.
  refine (complete_expression_evaluates pow_natural RightToLeft
            (Some "(1 + 2) * 3 - 4 / 2")
            ["("; "1"; "+"; "2"; ")"; "*"; "3"; "-"; "4"; "/"] "2"
            (mkBuilder
               [VDouble 1; VDouble 2; VOperation Operation.add; VDouble 3;
                VOperation Operation.mul; VDouble 4; VDouble 2;
                VOperation Operation.div; VOperation Operation.sub]
               (tokens_map_ RPN_Builder_new)
               (prev_curr_token_map_ RPN_Builder_new) "")
            eq_refl _ eq_refl eq_refl).
  repeat constructor; discriminate.
Defined.
